(** * The pcap port of the Ostinato server: transmitter, monitor

    A shallow embedding of [server/pcapport.cpp]: the packet-sequence list
    built by [clearPacketList], [loopNextPacketSet] and [appendToPacketList],
    the replay loop of [PortTransmitter::run] with [sendQueueTransmit], and
    the counting loop of [PortMonitor::run]; then the busy wait [udelay],
    the opening of the device by the monitor, the port with the statistics
    and handles its workers share, and the loops of the capturer and of the
    transceiver of the device emulation.

    The calls into libpcap, the clock and the [stop_] flag written by other
    threads are inputs of the model: a [World] carries what each of them
    answers, call after call, and the log of what the worker did. *)

From Stdlib Require Import ZArith List Lia Bool.
From Stdlib Require String.
From stdpp Require Import base list.

Open Scope Z_scope.

(** ** Machine integers *)

(** Two's complement value of [z] in [bits] bits. *)
Definition wrap_signed (bits z : Z) : Z :=
  (z + 2 ^ (bits - 1)) mod 2 ^ bits - 2 ^ (bits - 1).

(** [int] *)
Definition to_int (z : Z) : Z := wrap_signed 32 z.

(** [bpf_u_int32] *)
Definition to_u32 (z : Z) : Z := z mod 2 ^ 32.

(** A [qint64] stored into a [quint64]: a negative one has [2 ^ 64] added. *)
Definition to_quint64 (z : Z) : Z := if z <? 0 then z + 2 ^ 64 else z.

(** The [double] that an integer becomes: the nearest number with 53 bits
    of mantissa, the even one of two that are as near.  An integer below
    [2 ^ 53] in absolute value is kept. *)
Definition to_double (z : Z) : Z :=
  let n := Z.abs z in
  if n <? 2 ^ 53 then z
  else
    let e := Z.log2 n - 52 in
    let q := n / 2 ^ e in
    let r := n mod 2 ^ e in
    let half := 2 ^ (e - 1) in
    let q' := if (half <? r) || ((r =? half) && Z.odd q) then q + 1 else q in
    Z.sgn z * (q' * 2 ^ e).

(** ** The build *)

(** The three branches of [#if defined(Q_OS_LINUX) / Q_OS_WIN32 / else]. *)
Inductive OS := Linux | Win32 | OtherOS.

(** What the build and the absent headers fix: the operating system, the
    size of a [pcap_pkthdr], the capacity of a send queue and, on Win32, the
    frequency of the performance counter ([gTicksFreq]). *)
Record Platform := {
  os : OS;
  sizeof_pcap_pkthdr : Z;
  sendQueueMaxLen : Z;
  gTicksFreq : Z
}.

(** [long] has 32 bits on Win32 and 64 on the LP64 builds. *)
Definition long_bits (o : OS) : Z :=
  match o with Win32 => 32 | _ => 64 end.

Definition to_long (P : Platform) (z : Z) : Z := wrap_signed (long_bits (os P)) z.

(** [long(1e6)] *)
Definition usecPerSec : Z := 1000000.

(** ** libpcap records *)

Record timeval := { tv_sec : Z; tv_usec : Z }.

Record pcap_pkthdr := { ts : timeval; caplen : Z; len : Z }.

(** One record of a send queue: the header and the [caplen] bytes after it. *)
Definition QueueRecord : Type := pcap_pkthdr * list Byte.byte.

(** Modelled from the spec: PortStats is declared in abstractport.h, which
    is missing; the spec gives four monotonic counters and no width, so they
    are unbounded here. *)
Record PortStats := {
  rxPkts : Z;
  rxBytes : Z;
  txPkts : Z;
  txBytes : Z
}.

Module PacketSequence.

(** The members that pcapport.cpp reads and writes.  [lastPacket_] points
    at the header of the last record of the queue, [None] is NULL. *)
Record t := {
  sendQueue_ : list QueueRecord;
  lastPacket_ : option pcap_pkthdr;
  packets_ : Z;
  bytes_ : Z;
  usecDuration_ : Z;
  repeatCount_ : Z;
  repeatSize_ : Z;
  usecDelay_ : Z
}.

Definition set_usecDelay (v : Z) (s : t) : t :=
  {| sendQueue_ := sendQueue_ s; lastPacket_ := lastPacket_ s;
     packets_ := packets_ s; bytes_ := bytes_ s;
     usecDuration_ := usecDuration_ s; repeatCount_ := repeatCount_ s;
     repeatSize_ := repeatSize_ s; usecDelay_ := v |}.

Definition set_repeatCount (v : Z) (s : t) : t :=
  {| sendQueue_ := sendQueue_ s; lastPacket_ := lastPacket_ s;
     packets_ := packets_ s; bytes_ := bytes_ s;
     usecDuration_ := usecDuration_ s; repeatCount_ := v;
     repeatSize_ := repeatSize_ s; usecDelay_ := usecDelay_ s |}.

Definition set_repeatSize (v : Z) (s : t) : t :=
  {| sendQueue_ := sendQueue_ s; lastPacket_ := lastPacket_ s;
     packets_ := packets_ s; bytes_ := bytes_ s;
     usecDuration_ := usecDuration_ s; repeatCount_ := repeatCount_ s;
     repeatSize_ := v; usecDelay_ := usecDelay_ s |}.

(** Modelled from the spec: the constructor of PacketSequence is in
    pcapport.h, which is missing.  A fresh sequence is empty, and
    [repeatSize] and [repeatCount] are 1 when the sequence is not a group
    start. *)
Definition new : t :=
  {| sendQueue_ := []; lastPacket_ := None;
     packets_ := 0; bytes_ := 0; usecDuration_ := 0;
     repeatCount_ := 1; repeatSize_ := 1; usecDelay_ := 0 |}.

Section WithPlatform.
Variable P : Platform.

(** Bytes in use: each record is a fixed-size header and [caplen] bytes. *)
Definition queueLen (q : list QueueRecord) : Z :=
  fold_right (fun r acc => sizeof_pcap_pkthdr P + caplen (fst r) + acc) 0 q.

(** Modelled from the spec: hasFreeSpace is in pcapport.h, which is
    missing.  The buffer is size-bounded: [size] more bytes fit when
    they do not pass the capacity. *)
Definition hasFreeSpace (s : t) (size : Z) : bool :=
  queueLen (sendQueue_ s) + size <=? sendQueueMaxLen P.

(** Microseconds from [a] to [b], as the source computes them in [long]:
    [(b.tv_sec - a.tv_sec) * long(1e6)], then [+= b.tv_usec - a.tv_usec]. *)
Definition usecsBetween (a b : timeval) : Z :=
  to_long P (to_long P (to_long P (tv_sec b - tv_sec a) * usecPerSec)
             + to_long P (tv_usec b - tv_usec a)).

(** Modelled from the spec: appendPacket is in pcapport.h, which is
    missing.  The buffer is append-only: the record goes after the
    others, [packets] and [bytes] count it, [usecDuration] grows by the
    gap from the last packet; a record that does not fit is refused
    with a negative result. *)
Definition appendPacket (s : t) (hdr : pcap_pkthdr) (data : list Byte.byte)
  : t * Z :=
  if hasFreeSpace s (sizeof_pcap_pkthdr P + caplen hdr) then
    ({| sendQueue_ := sendQueue_ s ++ [(hdr, data)];
        lastPacket_ := Some hdr;
        packets_ := packets_ s + 1;
        bytes_ := bytes_ s + caplen hdr;
        usecDuration_ :=
          match lastPacket_ s with
          | Some l => usecDuration_ s + usecsBetween (ts l) (ts hdr)
          | None => usecDuration_ s
          end;
        repeatCount_ := repeatCount_ s;
        repeatSize_ := repeatSize_ s;
        usecDelay_ := usecDelay_ s |}, 0)
  else (s, -1).
End WithPlatform.

End PacketSequence.

(** [state_] of the transmitter *)
Inductive State := kNotStarted | kRunning | kFinished.

Module PortTransmitter.

(** The members of the transmitter.  [currentPacketSequence_] points at an
    element of [packetSequenceList_]; it is kept as the index of that
    element, [None] is NULL. *)
Record t := {
  packetSequenceList_ : list PacketSequence.t;
  currentPacketSequence_ : option nat;
  repeatSequenceStart_ : Z;
  repeatSize_ : Z;
  packetCount_ : Z;
  returnToQIdx_ : Z;
  loopDelay_ : Z;
  state_ : State;
  stop_ : bool;
  stats_ : PortStats
}.

(** [isRunning()] *)
Definition isRunning (tx : t) : bool :=
  match state_ tx with kRunning => true | _ => false end.

(** Modelled from the spec: setPacketListLoopMode is in pcapport.h, which
    is missing.  When enabled the replay jumps back to [returnIndex] after
    the list has played, with [delayUsec] between the passes; the replay
    loops only when [returnToQIdx_ >= 0], so a disabled loop is -1 as in
    the constructor. *)
Definition setPacketListLoopMode (enabled : bool) (returnIndex delayUsec : Z)
    (tx : t) : t :=
  {| packetSequenceList_ := packetSequenceList_ tx;
     currentPacketSequence_ := currentPacketSequence_ tx;
     repeatSequenceStart_ := repeatSequenceStart_ tx;
     repeatSize_ := repeatSize_ tx;
     packetCount_ := packetCount_ tx;
     returnToQIdx_ := if enabled then returnIndex else -1;
     loopDelay_ := delayUsec;
     state_ := state_ tx; stop_ := stop_ tx; stats_ := stats_ tx |}.

(** [clearPacketList()].  [Q_ASSERT(!isRunning())] guards the entry: the
    result is [None] when the transmitter is running. *)
Definition clearPacketList (tx : t) : option t :=
  if isRunning tx then None
  else Some (setPacketListLoopMode false 0 0
    {| packetSequenceList_ := [];
       currentPacketSequence_ := None;
       repeatSequenceStart_ := -1;
       repeatSize_ := 0;
       packetCount_ := 0;
       returnToQIdx_ := -1;
       loopDelay_ := loopDelay_ tx;
       state_ := state_ tx; stop_ := stop_ tx; stats_ := stats_ tx |}).

Section WithPlatform.
Variable P : Platform.

(** [loopNextPacketSet(size, repeats, repeatDelaySec, repeatDelayNsec)].
    [size] and [repeats] are [qint64].  [repeatCount_] of a sequence is
    printed with [%d] and read into an [int] by [run]: it is an [int], and
    [repeats] is cut to 32 bits when it is stored.  [repeatSize_] of the
    transmitter is printed with [%llu]: it is a [quint64]. *)
Definition loopNextPacketSet (size repeats repeatDelaySec repeatDelayNsec : Z)
    (tx : t) : t :=
  let seq :=
    PacketSequence.set_usecDelay
      (to_long P (to_long P (repeatDelaySec * usecPerSec)
                  + repeatDelayNsec ÷ 1000))
      (PacketSequence.set_repeatCount (to_int repeats) PacketSequence.new) in
  {| packetSequenceList_ := packetSequenceList_ tx ++ [seq];
     currentPacketSequence_ := Some (length (packetSequenceList_ tx));
     repeatSequenceStart_ := Z.of_nat (length (packetSequenceList_ tx));
     repeatSize_ := to_quint64 size;
     packetCount_ := 0;
     returnToQIdx_ := returnToQIdx_ tx;
     loopDelay_ := loopDelay_ tx;
     state_ := state_ tx; stop_ := stop_ tx; stats_ := stats_ tx |}.

(** [packetSequenceList_] replaced, the rest kept. *)
Definition set_list (l : list PacketSequence.t) (tx : t) : t :=
  {| packetSequenceList_ := l;
     currentPacketSequence_ := currentPacketSequence_ tx;
     repeatSequenceStart_ := repeatSequenceStart_ tx;
     repeatSize_ := repeatSize_ tx;
     packetCount_ := packetCount_ tx;
     returnToQIdx_ := returnToQIdx_ tx;
     loopDelay_ := loopDelay_ tx;
     state_ := state_ tx; stop_ := stop_ tx; stats_ := stats_ tx |}.

(** [currentPacketSequence_ = new PacketSequence;
    packetSequenceList_.append(currentPacketSequence_);] *)
Definition appendNewSequence (tx : t) : t :=
  {| packetSequenceList_ := packetSequenceList_ tx ++ [PacketSequence.new];
     currentPacketSequence_ := Some (length (packetSequenceList_ tx));
     repeatSequenceStart_ := repeatSequenceStart_ tx;
     repeatSize_ := repeatSize_ tx;
     packetCount_ := packetCount_ tx;
     returnToQIdx_ := returnToQIdx_ tx;
     loopDelay_ := loopDelay_ tx;
     state_ := state_ tx; stop_ := stop_ tx; stats_ := stats_ tx |}.

(** The header that [appendToPacketList] fills in: [caplen = len = length],
    [tv_sec = sec], [tv_usec = nsec/1000]. *)
Definition makeHeader (sec nsec length : Z) : pcap_pkthdr :=
  {| ts := {| tv_sec := sec; tv_usec := nsec ÷ 1000 |};
     caplen := to_u32 length; len := to_u32 length |}.

(** First part of [appendToPacketList]: the test on the current sequence
    and, when there is none or it is full, the end of the current one and
    the allocation of the next.  Reading [lastPacket_] of a sequence that
    has none dereferences NULL: no result.  The [Q_ASSERT] on the free
    space of the new sequence changes nothing. *)
Definition appendToPacketList_newSequence (pktHdr : pcap_pkthdr) (length : Z)
    (tx : t) : option t :=
  match currentPacketSequence_ tx with
  | None => Some (appendNewSequence tx)
  | Some c =>
      cur ← packetSequenceList_ tx !! c;
      if PacketSequence.hasFreeSpace P cur (2 * sizeof_pcap_pkthdr P + length)
      then Some tx
      else
        last ← PacketSequence.lastPacket_ cur;
        let usecs := PacketSequence.usecsBetween P (ts last) (ts pktHdr) in
        Some (appendNewSequence
                (set_list (<[c := PacketSequence.set_usecDelay usecs cur]>
                             (packetSequenceList_ tx)) tx))
  end.

(** Second part: [currentPacketSequence_->appendPacket(&pktHdr, packet)],
    [op] is false when it answers a negative number. *)
Definition appendToPacketList_write (pktHdr : pcap_pkthdr)
    (packet : list Byte.byte) (tx : t) : option (t * bool) :=
  c ← currentPacketSequence_ tx;
  cur ← packetSequenceList_ tx !! c;
  let r := PacketSequence.appendPacket P cur pktHdr packet in
  Some (set_list (<[c := fst r]> (packetSequenceList_ tx)) tx,
        negb (snd r <? 0)).

(** Third part: [packetCount_++] and the end of the repeat group when the
    count reaches [repeatSize_].  [packetSequenceList_[repeatSequenceStart_]]
    outside of the list has no result. *)
Definition appendToPacketList_closeGroup (tx : t) : option t :=
  let count := packetCount_ tx + 1 in
  let l := packetSequenceList_ tx in
  if (0 <? repeatSize_ tx) && (count =? repeatSize_ tx) then
    if (0 <=? repeatSequenceStart_ tx)
       && (repeatSequenceStart_ tx <? Z.of_nat (length l)) then
      let si := Z.to_nat (repeatSequenceStart_ tx) in
      start ← l !! si;
      c ← currentPacketSequence_ tx;
      cur ← l !! c;
      let l' :=
        if decide (c = si) then l
        else
          <[si := PacketSequence.set_repeatSize
                    (Z.of_nat (length l) - repeatSequenceStart_ tx)
                    (PacketSequence.set_usecDelay 0 start)]>
            (<[c := PacketSequence.set_usecDelay
                      (PacketSequence.usecDelay_ start) cur]> l) in
      Some {| packetSequenceList_ := l';
              currentPacketSequence_ := None;
              repeatSequenceStart_ := repeatSequenceStart_ tx;
              repeatSize_ := 0;
              packetCount_ := count;
              returnToQIdx_ := returnToQIdx_ tx;
              loopDelay_ := loopDelay_ tx;
              state_ := state_ tx; stop_ := stop_ tx; stats_ := stats_ tx |}
    else None
  else
    Some {| packetSequenceList_ := l;
            currentPacketSequence_ := currentPacketSequence_ tx;
            repeatSequenceStart_ := repeatSequenceStart_ tx;
            repeatSize_ := repeatSize_ tx;
            packetCount_ := count;
            returnToQIdx_ := returnToQIdx_ tx;
            loopDelay_ := loopDelay_ tx;
            state_ := state_ tx; stop_ := stop_ tx; stats_ := stats_ tx |}.

(** [appendToPacketList(sec, nsec, packet, length)]: the new transmitter
    and the [bool] it returns. *)
Definition appendToPacketList (sec nsec : Z) (packet : list Byte.byte)
    (length : Z) (tx : t) : option (t * bool) :=
  let pktHdr := makeHeader sec nsec length in
  tx1 ← appendToPacketList_newSequence pktHdr length tx;
  r ← appendToPacketList_write pktHdr packet tx1;
  tx3 ← appendToPacketList_closeGroup (fst r);
  Some (tx3, snd r).
End WithPlatform.

Definition set_state (v : State) (tx : t) : t :=
  {| packetSequenceList_ := packetSequenceList_ tx;
     currentPacketSequence_ := currentPacketSequence_ tx;
     repeatSequenceStart_ := repeatSequenceStart_ tx;
     repeatSize_ := repeatSize_ tx;
     packetCount_ := packetCount_ tx;
     returnToQIdx_ := returnToQIdx_ tx;
     loopDelay_ := loopDelay_ tx;
     state_ := v; stop_ := stop_ tx; stats_ := stats_ tx |}.

Definition set_stop (v : bool) (tx : t) : t :=
  {| packetSequenceList_ := packetSequenceList_ tx;
     currentPacketSequence_ := currentPacketSequence_ tx;
     repeatSequenceStart_ := repeatSequenceStart_ tx;
     repeatSize_ := repeatSize_ tx;
     packetCount_ := packetCount_ tx;
     returnToQIdx_ := returnToQIdx_ tx;
     loopDelay_ := loopDelay_ tx;
     state_ := state_ tx; stop_ := v; stats_ := stats_ tx |}.

Definition set_stats (v : PortStats) (tx : t) : t :=
  {| packetSequenceList_ := packetSequenceList_ tx;
     currentPacketSequence_ := currentPacketSequence_ tx;
     repeatSequenceStart_ := repeatSequenceStart_ tx;
     repeatSize_ := repeatSize_ tx;
     packetCount_ := packetCount_ tx;
     returnToQIdx_ := returnToQIdx_ tx;
     loopDelay_ := loopDelay_ tx;
     state_ := state_ tx; stop_ := stop_ tx; stats_ := v |}.

(** [stats_->txPkts += pkts; stats_->txBytes += bytes;] *)
Definition countTx (pkts bytes : Z) (st : PortStats) : PortStats :=
  {| rxPkts := rxPkts st; rxBytes := rxBytes st;
     txPkts := txPkts st + pkts; txBytes := txBytes st + bytes |}.

(** *** What the worker meets while it runs *)

(** [TimeStamp]: a [struct timeval] on Linux, a [LARGE_INTEGER] on Win32,
    an [int] that is never written elsewhere. *)
Inductive TimeStamp :=
| Timeval (tv : timeval)
| Ticks (QuadPart : Z)
| NoStamp.

(** What the worker does that others can see, in the order it does it. *)
Inductive Event :=
| EvState (s : State)                   (* state_ = s *)
| EvAssertOverHead (overHead : Z)       (* Q_ASSERT(overHead <= 0) met with this value *)
| EvDelay (usec : Z)                    (* udelayFn_ called with usec *)
| EvSendPacket (pktLen ret : Z)         (* pcap_sendpacket of pktLen bytes answered ret *)
| EvSendQueue (ret : Z)                 (* pcap_sendqueue_transmit answered ret *)
| EvSequence (idx ret : Z).             (* the transmission of sequence idx ended with ret *)

(** The answers of the outside, call after call: the clock, the two send
    calls of libpcap, and for each read of [stop_] whether another thread
    has called [stop()] since the read before.  An exhausted list answers
    the epoch, zero ticks, success and no stop. *)
Record Oracle := {
  gettimeofday_ : list timeval;
  QueryPerformanceCounter_ : list Z;
  pcap_sendpacket_ : list Z;
  pcap_sendqueue_transmit_ : list Z;
  stopCalls_ : list bool
}.

Record World := {
  tx_ : t;
  oracle_ : Oracle;
  trace_ : list Event
}.

Definition log (e : Event) (w : World) : World :=
  {| tx_ := tx_ w; oracle_ := oracle_ w; trace_ := trace_ w ++ [e] |}.

Definition with_tx (f : t -> t) (w : World) : World :=
  {| tx_ := f (tx_ w); oracle_ := oracle_ w; trace_ := trace_ w |}.

Definition with_oracle (o : Oracle) (w : World) : World :=
  {| tx_ := tx_ w; oracle_ := o; trace_ := trace_ w |}.

(** [state_ = s] *)
Definition writeState (s : State) (w : World) : World :=
  log (EvState s) (with_tx (set_state s) w).

(** A read of [stop_]: a call of [stop()] by another thread since the last
    read has set it. *)
Definition readStop (w : World) : bool * World :=
  let o := oracle_ w in
  let b := stop_ (tx_ w) || hd false (stopCalls_ o) in
  (b, with_tx (set_stop b)
        (with_oracle
           {| gettimeofday_ := gettimeofday_ o;
              QueryPerformanceCounter_ := QueryPerformanceCounter_ o;
              pcap_sendpacket_ := pcap_sendpacket_ o;
              pcap_sendqueue_transmit_ := pcap_sendqueue_transmit_ o;
              stopCalls_ := tl (stopCalls_ o) |} w)).

(** [pcap_sendpacket(p, pkt, pktLen)] *)
Definition pcap_sendpacket (pktLen : Z) (w : World) : Z * World :=
  let o := oracle_ w in
  let r := hd 0 (pcap_sendpacket_ o) in
  (r, log (EvSendPacket pktLen r)
        (with_oracle
           {| gettimeofday_ := gettimeofday_ o;
              QueryPerformanceCounter_ := QueryPerformanceCounter_ o;
              pcap_sendpacket_ := tl (pcap_sendpacket_ o);
              pcap_sendqueue_transmit_ := pcap_sendqueue_transmit_ o;
              stopCalls_ := stopCalls_ o |} w)).

(** [pcap_sendqueue_transmit(handle_, seq->sendQueue_, kSyncTransmit)] *)
Definition pcap_sendqueue_transmit (w : World) : Z * World :=
  let o := oracle_ w in
  let r := hd 0 (pcap_sendqueue_transmit_ o) in
  (r, log (EvSendQueue r)
        (with_oracle
           {| gettimeofday_ := gettimeofday_ o;
              QueryPerformanceCounter_ := QueryPerformanceCounter_ o;
              pcap_sendpacket_ := pcap_sendpacket_ o;
              pcap_sendqueue_transmit_ := tl (pcap_sendqueue_transmit_ o);
              stopCalls_ := stopCalls_ o |} w)).

Section Replay.
Variable P : Platform.

(** [getTimeStamp(&stamp)] *)
Definition getTimeStamp (w : World) : TimeStamp * World :=
  let o := oracle_ w in
  match os P with
  | Linux =>
      (Timeval (hd {| tv_sec := 0; tv_usec := 0 |} (gettimeofday_ o)),
       with_oracle
         {| gettimeofday_ := tl (gettimeofday_ o);
            QueryPerformanceCounter_ := QueryPerformanceCounter_ o;
            pcap_sendpacket_ := pcap_sendpacket_ o;
            pcap_sendqueue_transmit_ := pcap_sendqueue_transmit_ o;
            stopCalls_ := stopCalls_ o |} w)
  | Win32 =>
      (Ticks (hd 0 (QueryPerformanceCounter_ o)),
       with_oracle
         {| gettimeofday_ := gettimeofday_ o;
            QueryPerformanceCounter_ := tl (QueryPerformanceCounter_ o);
            pcap_sendpacket_ := pcap_sendpacket_ o;
            pcap_sendqueue_transmit_ := pcap_sendqueue_transmit_ o;
            stopCalls_ := stopCalls_ o |} w)
  | OtherOS => (NoStamp, w)
  end.

(** [udiffTimeStamp(&start, &end)].  On Linux [timersub] normalises the
    difference, then [usecs = diff.tv_usec], and [usecs += diff.tv_sec*1e6]
    when [diff.tv_sec] is not zero: [1e6] is a [double], so [diff.tv_sec]
    becomes a [double], the product and the sum with [usecs] are rounded
    to [double], and the sum goes back to [long] (a whole number; one that
    is no value of [long] is left undefined by the language and is wrapped
    here).  On Win32 the ticks are scaled by [gTicksFreq], a [quint64]; a
    counter that went back gives the start scaled.  Elsewhere the answer
    is 0. *)
Definition udiffTimeStamp (start end_ : TimeStamp) : Z :=
  match start, end_ with
  | Timeval s, Timeval e =>
      let sec := tv_sec e - tv_sec s in
      let usec := tv_usec e - tv_usec s in
      let diff :=
        if usec <? 0
        then {| tv_sec := sec - 1; tv_usec := usec + 1000000 |}
        else {| tv_sec := sec; tv_usec := usec |} in
      to_long P (if tv_sec diff =? 0 then tv_usec diff
                 else to_double (to_double (tv_usec diff)
                                 + to_double (to_double (tv_sec diff) * 1000000)))
  | Ticks s, Ticks e =>
      if s <=? e
      then to_long P ((((e - s) * usecPerSec) mod 2 ^ 64) / gTicksFreq P)
      else to_long P (((s * usecPerSec) mod 2 ^ 64) / gTicksFreq P)
  | _, _ => 0
  end.

(** The wait that ends a transmission: [usecs] is the delay plus the
    overhead; a positive one is waited and the overhead is paid, another
    one is the overhead left. *)
Definition waitOrOwe (usecs : Z) (w : World) : Z * World :=
  if 0 <? usecs then (0, log (EvDelay usecs) w) else (usecs, w).

(** The body of the [while] of [sendQueueTransmit], record after record:
    returns the result, the overhead and the world.  The result of
    [pcap_sendpacket] is not looked at.  [Q_ASSERT(overHead <= 0)] is logged
    with the value it meets and, as [Q_ASSERT(pktLen > 0)], stops nothing. *)
Fixpoint sendQueueTransmit_loop (queue : list QueueRecord) (sync : Z)
    (ts0 : timeval) (ovrStart : TimeStamp) (overHead : Z) (w : World)
    : Z * Z * World :=
  match queue with
  | [] => (0, overHead, w)
  | (hdr, pkt) :: rest =>
      let pktLen := to_int (caplen hdr) in
      let '(ts1, ovrStart1, overHead1, w1) :=
        if sync =? 0 then (ts0, ovrStart, overHead, w)
        else
          let usec := PacketSequence.usecsBetween P ts0 (ts hdr) in
          let '(ovrEnd, wa) := getTimeStamp w in
          let overHead' := to_long P (overHead - udiffTimeStamp ovrStart ovrEnd) in
          let wb := log (EvAssertOverHead overHead') wa in
          let '(overHead'', wc) := waitOrOwe (to_long P (usec + overHead')) wb in
          let '(ovrStart', wd) := getTimeStamp wc in
          (ts hdr, ovrStart', overHead'', wd) in
      let '(_, w2) := pcap_sendpacket pktLen w1 in
      let w3 := with_tx (fun tx => set_stats (countTx 1 pktLen (stats_ tx)) tx) w2 in
      let '(stop, w4) := readStop w3 in
      if stop then (-2, overHead1, w4)
      else sendQueueTransmit_loop rest sync ts1 ovrStart1 overHead1 w4
  end.

(** [sendQueueTransmit(p, queue, overHead, sync)]: [ts] starts at the
    time stamp of the first record. *)
Definition sendQueueTransmit (queue : list QueueRecord) (overHead sync : Z)
    (w : World) : Z * Z * World :=
  let ts0 := match queue with
             | (hdr, _) :: _ => ts hdr
             | [] => {| tv_sec := 0; tv_usec := 0 |}
             end in
  let '(ovrStart, w1) := getTimeStamp w in
  sendQueueTransmit_loop queue sync ts0 ovrStart overHead w1.

(** [const int kSyncTransmit = 1;] *)
Definition kSyncTransmit : Z := 1.

(** [packetSequenceList_.at(i)]: nothing outside of the list. *)
Definition at_ (l : list PacketSequence.t) (i : Z) : option PacketSequence.t :=
  if i <? 0 then None else l !! Z.to_nat i.

(** The transmission of one sequence in [run]: on Win32 a sequence of at
    most one second goes to [pcap_sendqueue_transmit] in one call, is
    counted and timed when the call succeeds, and ends with -2 when
    [stop_] is set; every other one goes to [sendQueueTransmit]. *)
Definition transmit (seq : PacketSequence.t) (overHead : Z) (w : World)
    : Z * Z * World :=
  match os P with
  | Win32 =>
      if PacketSequence.usecDuration_ seq <=? usecPerSec then
        let '(ovrStart, w1) := getTimeStamp w in
        let '(ret, w2) := pcap_sendqueue_transmit w1 in
        let '(overHead1, w3) :=
          if 0 <=? ret then
            let wa := with_tx (fun tx =>
                        set_stats (countTx (PacketSequence.packets_ seq)
                                           (PacketSequence.bytes_ seq)
                                           (stats_ tx)) tx) w2 in
            let '(ovrEnd, wb) := getTimeStamp wa in
            let overHead' :=
              to_long P (overHead + PacketSequence.usecDuration_ seq
                         - udiffTimeStamp ovrStart ovrEnd) in
            (overHead', log (EvAssertOverHead overHead') wb)
          else (overHead, w2) in
        let '(stop, w4) := readStop w3 in
        (if stop then -2 else ret, overHead1, w4)
      else
        sendQueueTransmit (PacketSequence.sendQueue_ seq) overHead kSyncTransmit w
  | _ =>
      sendQueueTransmit (PacketSequence.sendQueue_ seq) overHead kSyncTransmit w
  end.

(** How a loop of [run] is left: it goes on with an overhead, it jumps to
    [_exit], or it has read the list outside of its bounds. *)
Inductive Flow :=
| Next (overHead : Z) (w : World)
| Exit (w : World)
| Fault (w : World).

(** The body of the [for] on [k]: the sequence [i+k] is transmitted; a
    result that is not negative is followed by the delay of the sequence,
    a negative one clears [stop_] and leaves for [_exit]. *)
Definition transmitAndWait (l : list PacketSequence.t) (idx overHead : Z)
    (w : World) : Flow :=
  match at_ l idx with
  | None => Fault w
  | Some seq =>
      let '(ret, overHead1, w1) := transmit seq overHead w in
      let w2 := log (EvSequence idx ret) w1 in
      if 0 <=? ret then
        let '(overHead2, w3) :=
          waitOrOwe (to_long P (PacketSequence.usecDelay_ seq + overHead1)) w2 in
        Next overHead2 w3
      else Exit (with_tx (set_stop false) w2)
  end.

(** [for (int k = ...; k < rptSz; k++)], with [n] turns left. *)
Fixpoint forK (n : nat) (l : list PacketSequence.t) (i k overHead : Z)
    (w : World) : Flow :=
  match n with
  | O => Next overHead w
  | S n' =>
      match transmitAndWait l (to_int (i + k)) overHead w with
      | Next overHead1 w1 => forK n' l i (k + 1) overHead1 w1
      | other => other
      end
  end.

(** [for (int j = ...; j < rptCnt; j++)], with [n] turns left. *)
Fixpoint forJ (n : nat) (l : list PacketSequence.t) (i rptSz overHead : Z)
    (w : World) : Flow :=
  match n with
  | O => Next overHead w
  | S n' =>
      match forK (Z.to_nat rptSz) l i 0 overHead w with
      | Next overHead1 w1 => forJ n' l i rptSz overHead1 w1
      | other => other
      end
  end.

(** How [run] stands when it is looked at: it has returned, it has read
    the list outside of its bounds, or it is still in its loop. *)
Inductive Outcome :=
| Returned (w : World)
| Faulted (w : World)
| StillRunning (w : World).

(** [_exit: state_ = kFinished;] *)
Definition exit_ (w : World) : Outcome := Returned (writeState kFinished w).

(** The body of the [while] from [_restart] on: the group at [i] is
    played [rptCnt] times, [i] moves by [rptSz]; at the end of the list
    the loop delay is waited and the replay goes back to
    [returnToQIdx_] when that is not negative.  [fuel] bounds the number
    of groups that are played. *)
Fixpoint restart (fuel : nat) (i overHead : Z) (w : World) : Outcome :=
  match fuel with
  | O => StillRunning w
  | S fuel' =>
      let l := packetSequenceList_ (tx_ w) in
      match at_ l i with
      | None => Faulted w
      | Some first =>
          let rptSz := to_int (PacketSequence.repeatSize_ first) in
          let rptCnt := to_int (PacketSequence.repeatCount_ first) in
          match forJ (Z.to_nat rptCnt) l i rptSz overHead w with
          | Exit w1 => exit_ w1
          | Fault w1 => Faulted w1
          | Next overHead1 w1 =>
              let i1 := to_int (i + rptSz) in
              if i1 <? Z.of_nat (length l) then restart fuel' i1 overHead1 w1
              else if 0 <=? returnToQIdx_ (tx_ w1) then
                let '(overHead2, w2) :=
                  waitOrOwe (to_long P (loopDelay_ (tx_ w1) + overHead1)) w1 in
                restart fuel' (to_int (returnToQIdx_ (tx_ w1))) overHead2 w2
              else exit_ w1
          end
      end
  end.

(** [run()] *)
Definition run (fuel : nat) (w : World) : Outcome :=
  if Z.of_nat (length (packetSequenceList_ (tx_ w))) <=? 0 then exit_ w
  else restart fuel 0 0 (writeState kRunning w).

(** The world in which the worker thread starts: a transmitter, the
    answers of the outside, nothing done yet. *)
Definition boot (tx : t) (o : Oracle) : World :=
  {| tx_ := tx; oracle_ := o; trace_ := [] |}.

(** [start()], as far as the caller sees it: a running transmitter is
    left alone; otherwise [state_] is set to [kNotStarted], the worker
    runs, and the caller polls until [state_] is no more [kNotStarted].
    The states it can meet are the ones the worker writes, in order: it
    returns at the first write it sees, given here by the number [seen]
    of writes that came before its poll. *)
Definition statesWritten (tr : list Event) : list State :=
  omap (fun e => match e with EvState s => Some s | _ => None end) tr.

Definition outcomeWorld (o : Outcome) : World :=
  match o with Returned w | Faulted w | StillRunning w => w end.

Definition start (fuel : nat) (seen : nat) (tx : t) (o : Oracle) : option State :=
  if isRunning tx then Some kRunning
  else
    let w := outcomeWorld (run fuel (boot (set_state kNotStarted tx) o)) in
    statesWritten (trace_ w) !! seen.
End Replay.

End PortTransmitter.

(** [direction_] of a monitor *)
Inductive Direction := kDirectionRx | kDirectionTx.

Module PortMonitor.

Record t := {
  direction_ : Direction;
  isDirectional_ : bool;
  stop_ : bool;
  stats_ : PortStats
}.

Definition set_stats (v : PortStats) (m : t) : t :=
  {| direction_ := direction_ m; isDirectional_ := isDirectional_ m;
     stop_ := stop_ m; stats_ := v |}.

Definition set_stop (v : bool) (m : t) : t :=
  {| direction_ := direction_ m; isDirectional_ := isDirectional_ m;
     stop_ := v; stats_ := stats_ m |}.

(** [stats_->rxPkts++; stats_->rxBytes += hdr->len;] *)
Definition countRx (bytes : Z) (st : PortStats) : PortStats :=
  {| rxPkts := rxPkts st + 1; rxBytes := rxBytes st + bytes;
     txPkts := txPkts st; txBytes := txBytes st |}.

(** [stats_->txPkts++; stats_->txBytes += hdr->len;] *)
Definition countTx (bytes : Z) (st : PortStats) : PortStats :=
  {| rxPkts := rxPkts st; rxBytes := rxBytes st;
     txPkts := txPkts st + 1; txBytes := txBytes st + bytes |}.

(** One answer of [pcap_next_ex]: its result and the header it gives. *)
Record Read := { ret : Z; hdr : pcap_pkthdr }.

(** [case 1:] of the [switch] on the result: a packet was read. *)
Definition countPacket (h : pcap_pkthdr) (m : t) : t :=
  match direction_ m with
  | kDirectionRx => set_stats (countRx (len h) (stats_ m)) m
  | kDirectionTx =>
      if isDirectional_ m then set_stats (countTx (len h) (stats_ m)) m
      else m
  end.

(** The [switch] on the result of [pcap_next_ex]: 1 is a packet, 0 a
    time-out, -1 and -2 are logged, anything else is [qFatal]: no result. *)
Definition handleRead (r : Read) (m : t) : option t :=
  if ret r =? 1 then Some (countPacket (hdr r) m)
  else if (ret r =? 0) || (ret r =? -1) || (ret r =? -2) then Some m
  else None.

(** [run()]: one turn of the [while (!stop_)] for each answer of
    [pcap_next_ex]; each comes with whether [stop()] was called before the
    test of that turn.  The monitor is returned when the loop is left or
    the answers are used up. *)
Fixpoint run (reads : list (bool * Read)) (m : t) : option t :=
  match reads with
  | [] => Some m
  | (stopCalled, r) :: rest =>
      let m1 := set_stop (stop_ m || stopCalled) m in
      if stop_ m1 then Some m1
      else m2 ← handleRead r m1; run rest m2
  end.

End PortMonitor.

(** ** Properties stated over the model *)

(** [z] is a value of [long]. *)
Definition fits_long (P : Platform) (z : Z) : Prop :=
  - 2 ^ (long_bits (os P) - 1) <= z < 2 ^ (long_bits (os P) - 1).

(** Microseconds from [a] to [b] in the integers. *)
Definition exactUsecs (a b : timeval) : Z :=
  (tv_sec b - tv_sec a) * 1000000 + (tv_usec b - tv_usec a).

(** The differences and the product of [usecsBetween] are values of [long]. *)
Definition gap_fits (P : Platform) (a b : timeval) : Prop :=
  fits_long P (tv_sec b - tv_sec a) /\
  fits_long P ((tv_sec b - tv_sec a) * 1000000) /\
  fits_long P (tv_usec b - tv_usec a) /\
  fits_long P (exactUsecs a b).

(** The case in which [appendToPacketList] starts a sequence: there is no
    current sequence ([ending] is [None]), or the current sequence, at index
    [c], is [cur], has [last] as its last packet and no room for the record. *)
Definition mustStartSequence (P : Platform) (tx : PortTransmitter.t) (length : Z)
    (ending : option (nat * PacketSequence.t * pcap_pkthdr)) : Prop :=
  match ending with
  | None => PortTransmitter.currentPacketSequence_ tx = None
  | Some (c, cur, last) =>
      PortTransmitter.currentPacketSequence_ tx = Some c /\
      PortTransmitter.packetSequenceList_ tx !! c = Some cur /\
      PacketSequence.lastPacket_ cur = Some last /\
      PacketSequence.hasFreeSpace P cur (2 * sizeof_pcap_pkthdr P + length) = false
  end.

(** The transmitters that the construction calls can build, from a
    [clearPacketList] on. *)
Inductive built (P : Platform) : PortTransmitter.t -> Prop :=
| built_clear tx tx' :
    PortTransmitter.clearPacketList tx = Some tx' -> built P tx'
| built_loop tx size repeats delaySec delayNsec :
    built P tx ->
    built P (PortTransmitter.loopNextPacketSet P size repeats delaySec delayNsec tx)
| built_append tx sec nsec packet length_ tx' op :
    built P tx ->
    PortTransmitter.appendToPacketList P sec nsec packet length_ tx = Some (tx', op) ->
    built P tx'
| built_mode tx enabled returnIndex delayUsec :
    built P tx ->
    built P (PortTransmitter.setPacketListLoopMode enabled returnIndex delayUsec tx).

(** The current sequence, when there is one, is the last of the list, and
    the start of an open repeat group is in the list. *)
Definition wellFormed (tx : PortTransmitter.t) : Prop :=
  (forall c, PortTransmitter.currentPacketSequence_ tx = Some c ->
             S c = length (PortTransmitter.packetSequenceList_ tx)) /\
  (0 < PortTransmitter.repeatSize_ tx ->
   0 <= PortTransmitter.repeatSequenceStart_ tx
     < Z.of_nat (length (PortTransmitter.packetSequenceList_ tx))).

(** [appendToPacketList] does not read the last packet of a sequence that
    has none: the current sequence, if it is full, holds a packet. *)
Definition canAppend (P : Platform) (tx : PortTransmitter.t) (length_ : Z) : Prop :=
  forall c cur,
    PortTransmitter.currentPacketSequence_ tx = Some c ->
    PortTransmitter.packetSequenceList_ tx !! c = Some cur ->
    PacketSequence.hasFreeSpace P cur (2 * sizeof_pcap_pkthdr P + length_) = false ->
    PacketSequence.lastPacket_ cur <> None.

(** *** What a trace tells *)

(** The sequence transmissions of a trace, in order: index and result. *)
Definition seqEvents (tr : list PortTransmitter.Event) : list (Z * Z) :=
  omap (fun e => match e with
                 | PortTransmitter.EvSequence idx ret => Some (idx, ret)
                 | _ => None
                 end) tr.

(** No sequence transmission of the trace has ended with an error. *)
Definition noFail (tr : list PortTransmitter.Event) : Prop :=
  Forall (fun p => 0 <= snd p) (seqEvents tr).

(** The calls of [pcap_sendpacket] that succeeded (it answers 0 then, -1 on
    an error): how many, and the bytes they sent. *)
Definition sendsOk (tr : list PortTransmitter.Event) : Z :=
  fold_right (fun e acc => match e with
                           | PortTransmitter.EvSendPacket _ ret =>
                               if ret =? 0 then acc + 1 else acc
                           | _ => acc
                           end) 0 tr.

Definition bytesOk (tr : list PortTransmitter.Event) : Z :=
  fold_right (fun e acc => match e with
                           | PortTransmitter.EvSendPacket pktLen ret =>
                               if ret =? 0 then acc + pktLen else acc
                           | _ => acc
                           end) 0 tr.

(** The calls of [pcap_sendpacket], whatever they answered: how many, and
    the bytes they were given. *)
Definition sendsTried (tr : list PortTransmitter.Event) : Z :=
  fold_right (fun e acc => match e with
                           | PortTransmitter.EvSendPacket _ _ => acc + 1
                           | _ => acc
                           end) 0 tr.

Definition bytesTried (tr : list PortTransmitter.Event) : Z :=
  fold_right (fun e acc => match e with
                           | PortTransmitter.EvSendPacket pktLen _ => acc + pktLen
                           | _ => acc
                           end) 0 tr.

(** From [w] to [w'] the Tx counters have grown by the calls of
    [pcap_sendpacket] and the bytes given to them. *)
Definition countsCalls (w w' : PortTransmitter.World) : Prop :=
  txPkts (PortTransmitter.stats_ (PortTransmitter.tx_ w'))
    - sendsTried (PortTransmitter.trace_ w')
  = txPkts (PortTransmitter.stats_ (PortTransmitter.tx_ w))
    - sendsTried (PortTransmitter.trace_ w) /\
  txBytes (PortTransmitter.stats_ (PortTransmitter.tx_ w'))
    - bytesTried (PortTransmitter.trace_ w')
  = txBytes (PortTransmitter.stats_ (PortTransmitter.tx_ w))
    - bytesTried (PortTransmitter.trace_ w).

(** The values of [overHead] that met a [Q_ASSERT(overHead <= 0)]. *)
Definition assertedOverHeads (tr : list PortTransmitter.Event) : list Z :=
  omap (fun e => match e with
                 | PortTransmitter.EvAssertOverHead v => Some v
                 | _ => None
                 end) tr.

(** [w'] comes after [w] and no sequence transmission has ended in between. *)
Definition silent (w w' : PortTransmitter.World) : Prop :=
  exists evs,
    PortTransmitter.trace_ w' = PortTransmitter.trace_ w ++ evs /\ seqEvents evs = [].

(** *** The replay of a group, in the words of the specification *)

(** The sequences to transmit for the group at [i]: for [j] in
    [0, rptCnt), for [k] in [0, rptSz), the sequence [i+k]. *)
Definition groupPlan (i rptSz rptCnt : Z) : list Z :=
  flat_map (fun _ : nat =>
              map (fun k : nat => to_int (i + Z.of_nat k)) (seq 0 (Z.to_nat rptSz)))
           (seq 0 (Z.to_nat rptCnt)).

(** One more turn of the loops of [run] over a plan: the body of the
    [for] on [k] for the next index, unless the replay has ended. *)
Definition thenPlay (P : Platform) (l : list PacketSequence.t)
    (flow : PortTransmitter.Flow) (idx : Z) : PortTransmitter.Flow :=
  match flow with
  | PortTransmitter.Next oh w' => PortTransmitter.transmitAndWait P l idx oh w'
  | other => other
  end.

(** *** The replay after an error *)

(** The last thing done in [w] is a sequence transmission that ended with an
    error, the first one of the trace, and [stop_] is cleared. *)
Definition aborted (w : PortTransmitter.World) : Prop :=
  exists tr idx ret,
    PortTransmitter.trace_ w = tr ++ [PortTransmitter.EvSequence idx ret] /\
    noFail tr /\ ret < 0 /\
    PortTransmitter.stop_ (PortTransmitter.tx_ w) = false.

(** [e] is a sequence transmission that ended with an error. *)
Definition failedSequence (e : PortTransmitter.Event) : Prop :=
  exists idx ret, e = PortTransmitter.EvSequence idx ret /\ ret < 0.

(** A loop is left for [_exit] exactly on such an error. *)
Definition flowOk (f : PortTransmitter.Flow) : Prop :=
  match f with
  | PortTransmitter.Next _ w | PortTransmitter.Fault w =>
      noFail (PortTransmitter.trace_ w)
  | PortTransmitter.Exit w => aborted w
  end.

(** [run] has returned with [kFinished] as its last write, after a trace
    without error or right after the first error; while it has not returned
    there is no error in its trace. *)
Definition outcomeOk (out : PortTransmitter.Outcome) : Prop :=
  match out with
  | PortTransmitter.Returned w =>
      PortTransmitter.state_ (PortTransmitter.tx_ w) = kFinished /\
      exists w0,
        PortTransmitter.trace_ w
          = PortTransmitter.trace_ w0 ++ [PortTransmitter.EvState kFinished] /\
        PortTransmitter.stop_ (PortTransmitter.tx_ w)
          = PortTransmitter.stop_ (PortTransmitter.tx_ w0) /\
        (noFail (PortTransmitter.trace_ w0) \/ aborted w0)
  | PortTransmitter.Faulted w | PortTransmitter.StillRunning w =>
      noFail (PortTransmitter.trace_ w)
  end.

(** Nobody calls [stop()] and the batch sends of Win32 succeed, from this
    world on. *)
Definition calm (w : PortTransmitter.World) : Prop :=
  PortTransmitter.stop_ (PortTransmitter.tx_ w) = false /\
  Forall (fun b => b = false)
         (PortTransmitter.stopCalls_ (PortTransmitter.oracle_ w)) /\
  Forall (fun r => 0 <= r)
         (PortTransmitter.pcap_sendqueue_transmit_ (PortTransmitter.oracle_ w)).

(** ** Sample inputs *)

Module Samples.

Definition linux64 : Platform :=
  {| os := Linux; sizeof_pcap_pkthdr := 24; sendQueueMaxLen := 1048576;
     gTicksFreq := 0 |}.

(** A Win32 build whose performance counter ticks once per microsecond. *)
Definition win32 : Platform :=
  {| os := Win32; sizeof_pcap_pkthdr := 16; sendQueueMaxLen := 1048576;
     gTicksFreq := 1000000 |}.

(** A Linux build with send queues of 64 bytes: a packet of 4 bytes leaves
    no room for a second one. *)
Definition tiny : Platform :=
  {| os := Linux; sizeof_pcap_pkthdr := 24; sendQueueMaxLen := 64;
     gTicksFreq := 0 |}.

Definition noStats : PortStats :=
  {| rxPkts := 0; rxBytes := 0; txPkts := 0; txBytes := 0 |}.

(** A transmitter as the constructor and [clearPacketList] leave it. *)
Definition idle : PortTransmitter.t :=
  {| PortTransmitter.packetSequenceList_ := [];
     PortTransmitter.currentPacketSequence_ := None;
     PortTransmitter.repeatSequenceStart_ := -1;
     PortTransmitter.repeatSize_ := 0;
     PortTransmitter.packetCount_ := 0;
     PortTransmitter.returnToQIdx_ := -1;
     PortTransmitter.loopDelay_ := 0;
     PortTransmitter.state_ := kNotStarted;
     PortTransmitter.stop_ := false;
     PortTransmitter.stats_ := noStats |}.

(** A transmitter with a list, a loop mode and some counts left over. *)
Definition used : PortTransmitter.t :=
  {| PortTransmitter.packetSequenceList_ := [PacketSequence.new];
     PortTransmitter.currentPacketSequence_ := Some 0%nat;
     PortTransmitter.repeatSequenceStart_ := 0;
     PortTransmitter.repeatSize_ := 4;
     PortTransmitter.packetCount_ := 2;
     PortTransmitter.returnToQIdx_ := 0;
     PortTransmitter.loopDelay_ := 500;
     PortTransmitter.state_ := kFinished;
     PortTransmitter.stop_ := false;
     PortTransmitter.stats_ := noStats |}.

(** Four bytes of payload. *)
Definition payload : list Byte.byte := [Byte.x00; Byte.x01; Byte.x02; Byte.x03].

(** The transmitter after the calls of [f] on [tx], [tx] itself when a call
    has no result. *)
Definition orElse (tx : PortTransmitter.t) (r : option (PortTransmitter.t * bool))
    : PortTransmitter.t :=
  match r with Some (tx', _) => tx' | None => tx end.

(** On the tiny build, one packet at time 0: the sequence has no room for a
    second one. *)
Definition onePacket : PortTransmitter.t :=
  Eval vm_compute in
    orElse idle (PortTransmitter.appendToPacketList tiny 0 0 payload 4 idle).

Definition firstHeader : pcap_pkthdr :=
  Eval vm_compute in PortTransmitter.makeHeader 0 0 4.

Definition firstSequence : PacketSequence.t :=
  Eval vm_compute in
    fst (PacketSequence.appendPacket tiny PacketSequence.new firstHeader payload).

(** A group of two packets, three times, one millisecond apart, open on a
    cleared transmitter; then its first packet. *)
Definition groupOpen : PortTransmitter.t :=
  Eval vm_compute in PortTransmitter.loopNextPacketSet tiny 2 3 0 1000000 idle.

Definition groupHalf : PortTransmitter.t :=
  Eval vm_compute in
    orElse groupOpen (PortTransmitter.appendToPacketList tiny 0 0 payload 4 groupOpen).

(** Two packets 100 microseconds apart in one sequence, on Linux. *)
Definition twoPackets : PortTransmitter.t :=
  Eval vm_compute in
    orElse idle
      (PortTransmitter.appendToPacketList linux64 0 0 payload 4 idle
         ≫= fun r => PortTransmitter.appendToPacketList linux64 0 100000 payload 4 (fst r)).

(** The first call of [pcap_sendpacket] fails. *)
Definition firstSendFails : PortTransmitter.Oracle :=
  {| PortTransmitter.gettimeofday_ := [];
     PortTransmitter.QueryPerformanceCounter_ := [];
     PortTransmitter.pcap_sendpacket_ := [-1];
     PortTransmitter.pcap_sendqueue_transmit_ := [];
     PortTransmitter.stopCalls_ := [] |}.

(** Two packets one millisecond apart in one sequence, on Win32. *)
Definition win32Pair : PortTransmitter.t :=
  Eval vm_compute in
    orElse idle
      (PortTransmitter.appendToPacketList win32 0 0 payload 4 idle
         ≫= fun r => PortTransmitter.appendToPacketList win32 0 1000000 payload 4 (fst r)).

(** The batch send of Win32 answers after 400 microseconds, with 20 of the
    40 bytes of the queue sent. *)
Definition fastKernel : PortTransmitter.Oracle :=
  {| PortTransmitter.gettimeofday_ := [];
     PortTransmitter.QueryPerformanceCounter_ := [0; 400];
     PortTransmitter.pcap_sendpacket_ := [];
     PortTransmitter.pcap_sendqueue_transmit_ := [20];
     PortTransmitter.stopCalls_ := [] |}.

(** The wall clock of Linux is set back by one second between the first
    two readings. *)
Definition clockStepsBack : PortTransmitter.Oracle :=
  {| PortTransmitter.gettimeofday_ :=
       [{| tv_sec := 10; tv_usec := 0 |}; {| tv_sec := 9; tv_usec := 0 |}];
     PortTransmitter.QueryPerformanceCounter_ := [];
     PortTransmitter.pcap_sendpacket_ := [];
     PortTransmitter.pcap_sendqueue_transmit_ := [];
     PortTransmitter.stopCalls_ := [] |}.

(** [stop()] is called while the first packet is sent. *)
Definition stopAtOnce : PortTransmitter.Oracle :=
  {| PortTransmitter.gettimeofday_ := [];
     PortTransmitter.QueryPerformanceCounter_ := [];
     PortTransmitter.pcap_sendpacket_ := [];
     PortTransmitter.pcap_sendqueue_transmit_ := [];
     PortTransmitter.stopCalls_ := [true] |}.

(** The group of two packets, complete: two sequences on the tiny build,
    the first one the start of the group. *)
Definition groupReady : PortTransmitter.t :=
  Eval vm_compute in
    orElse groupHalf
      (PortTransmitter.appendToPacketList tiny 0 50000 payload 4 groupHalf).

Definition groupStart : PacketSequence.t :=
  Eval vm_compute in
    hd PacketSequence.new (PortTransmitter.packetSequenceList_ groupReady).

(** A group of one packet, three times. *)
Definition groupOfOne : PortTransmitter.t :=
  Eval vm_compute in PortTransmitter.loopNextPacketSet linux64 1 3 0 1000000 idle.

Definition quiet : PortTransmitter.Oracle :=
  {| PortTransmitter.gettimeofday_ := [];
     PortTransmitter.QueryPerformanceCounter_ := [];
     PortTransmitter.pcap_sendpacket_ := [];
     PortTransmitter.pcap_sendqueue_transmit_ := [];
     PortTransmitter.stopCalls_ := [] |}.

Definition rxMonitor : PortMonitor.t :=
  {| PortMonitor.direction_ := kDirectionRx; PortMonitor.isDirectional_ := true;
     PortMonitor.stop_ := false; PortMonitor.stats_ := noStats |}.

Definition packet60 : PortMonitor.Read :=
  {| PortMonitor.ret := 1;
     PortMonitor.hdr := {| ts := {| tv_sec := 0; tv_usec := 0 |};
                           caplen := 60; len := 60 |} |}.

End Samples.

(** ** Further properties of the replay *)

(** The world in which a loop of [run] is left. *)
Definition flowWorld (f : PortTransmitter.Flow) : PortTransmitter.World :=
  match f with
  | PortTransmitter.Next _ w | PortTransmitter.Exit w | PortTransmitter.Fault w => w
  end.

(** The arguments given to [udelayFn_], in order. *)
Definition delays (tr : list PortTransmitter.Event) : list Z :=
  omap (fun e => match e with
                 | PortTransmitter.EvDelay u => Some u
                 | _ => None
                 end) tr.

(** The lengths given to [pcap_sendpacket], in order. *)
Definition sentLengths (tr : list PortTransmitter.Event) : list Z :=
  omap (fun e => match e with
                 | PortTransmitter.EvSendPacket pktLen _ => Some pktLen
                 | _ => None
                 end) tr.

(** The list and the loop mode of the transmitter are the same in [w']. *)
Definition settingsKept (w w' : PortTransmitter.World) : Prop :=
  PortTransmitter.packetSequenceList_ (PortTransmitter.tx_ w')
    = PortTransmitter.packetSequenceList_ (PortTransmitter.tx_ w) /\
  PortTransmitter.returnToQIdx_ (PortTransmitter.tx_ w')
    = PortTransmitter.returnToQIdx_ (PortTransmitter.tx_ w) /\
  PortTransmitter.loopDelay_ (PortTransmitter.tx_ w')
    = PortTransmitter.loopDelay_ (PortTransmitter.tx_ w).

(** The Rx counters are the same in [w']. *)
Definition rxKept (w w' : PortTransmitter.World) : Prop :=
  rxPkts (PortTransmitter.stats_ (PortTransmitter.tx_ w'))
    = rxPkts (PortTransmitter.stats_ (PortTransmitter.tx_ w)) /\
  rxBytes (PortTransmitter.stats_ (PortTransmitter.tx_ w'))
    = rxBytes (PortTransmitter.stats_ (PortTransmitter.tx_ w)).

(** If every delay asked for up to [w] was positive, so is every one up to
    [w']. *)
Definition delaysStayPositive (w w' : PortTransmitter.World) : Prop :=
  Forall (fun u => 0 < u) (delays (PortTransmitter.trace_ w)) ->
  Forall (fun u => 0 < u) (delays (PortTransmitter.trace_ w')).

(** The microseconds from each record of a queue to the next, the first one
    counted from [ts0]. *)
Fixpoint gapsFrom (ts0 : timeval) (queue : list QueueRecord) : list Z :=
  match queue with
  | [] => []
  | (hdr, _) :: rest => exactUsecs ts0 (ts hdr) :: gapsFrom (ts hdr) rest
  end.

(** The time stamps of the queue do not go back, from [ts0] on, and their
    differences are values of [long]. *)
Fixpoint chronological (P : Platform) (ts0 : timeval) (queue : list QueueRecord)
    : Prop :=
  match queue with
  | [] => True
  | (hdr, _) :: rest =>
      gap_fits P ts0 (ts hdr) /\ 0 <= exactUsecs ts0 (ts hdr) /\
      chronological P (ts hdr) rest
  end.

(** The time stamp of the first record of a queue. *)
Definition firstStamp (queue : list QueueRecord) : timeval :=
  match queue with
  | (hdr, _) :: _ => ts hdr
  | [] => {| tv_sec := 0; tv_usec := 0 |}
  end.

(** Every group of the list lies inside the list and has at least one
    sequence: [1 <= repeatSize] and [i + repeatSize <= size] for the
    sequence at each index [i]. *)
Definition groupsFit (l : list PacketSequence.t) : Prop :=
  forall i first,
    PortTransmitter.at_ l i = Some first ->
    1 <= to_int (PacketSequence.repeatSize_ first) /\
    i + to_int (PacketSequence.repeatSize_ first) <= Z.of_nat (length l).

(** The sequences to transmit from index [i] to the end of the list, group
    after group, each group expanded by its plan. *)
Fixpoint fullPlan (fuel : nat) (l : list PacketSequence.t) (i : Z) : list Z :=
  match fuel with
  | O => []
  | S fuel' =>
      match PortTransmitter.at_ l i with
      | None => []
      | Some first =>
          let rptSz := to_int (PacketSequence.repeatSize_ first) in
          let rptCnt := to_int (PacketSequence.repeatCount_ first) in
          groupPlan i rptSz rptCnt
            ++ (if i + rptSz <? Z.of_nat (length l)
                then fullPlan fuel' l (i + rptSz) else [])
      end
  end.

Module MoreSamples.

(** A build for neither Linux nor Win32: no clock. *)
Definition noClock : Platform :=
  {| os := OtherOS; sizeof_pcap_pkthdr := 24; sendQueueMaxLen := 1048576;
     gTicksFreq := 0 |}.

Definition recordAt (usec : Z) : QueueRecord :=
  ({| ts := {| tv_sec := 0; tv_usec := usec |}; caplen := 4; len := 4 |},
   Samples.payload).

(** Three packets at 0, 100 and 300 microseconds. *)
Definition threePackets : list QueueRecord :=
  [recordAt 0; recordAt 100; recordAt 300].

(** Three sequences on Linux: the second one is played twice. *)
Definition threeSequences : PortTransmitter.t :=
  {| PortTransmitter.packetSequenceList_ :=
       [PacketSequence.new;
        PacketSequence.set_repeatCount 2 PacketSequence.new;
        PacketSequence.new];
     PortTransmitter.currentPacketSequence_ := None;
     PortTransmitter.repeatSequenceStart_ := -1;
     PortTransmitter.repeatSize_ := 0;
     PortTransmitter.packetCount_ := 0;
     PortTransmitter.returnToQIdx_ := -1;
     PortTransmitter.loopDelay_ := 0;
     PortTransmitter.state_ := kNotStarted;
     PortTransmitter.stop_ := false;
     PortTransmitter.stats_ := Samples.noStats |}.

(** The same list with the outer loop on, back to the second sequence. *)
Definition threeSequencesLooping : PortTransmitter.t :=
  PortTransmitter.setPacketListLoopMode true 1 250 threeSequences.

End MoreSamples.

(** [groupsFit] as a test: the sequences of [l], the first one at index [n],
    in a list of [size] sequences. *)
Fixpoint groupsFitFrom (n : nat) (size : Z) (l : list PacketSequence.t) : bool :=
  match l with
  | [] => true
  | s :: rest =>
      (1 <=? to_int (PacketSequence.repeatSize_ s))
      && (Z.of_nat n + to_int (PacketSequence.repeatSize_ s) <=? size)
      && groupsFitFrom (S n) size rest
  end.

(** The sequences transmitted by the first [fuel] groups from index [i] on
    when the outer loop goes back to [q] at the end of the list. *)
Fixpoint loopPlan (fuel : nat) (l : list PacketSequence.t) (q i : Z) : list Z :=
  match fuel with
  | O => []
  | S fuel' =>
      match PortTransmitter.at_ l i with
      | None => []
      | Some first =>
          let rptSz := to_int (PacketSequence.repeatSize_ first) in
          let rptCnt := to_int (PacketSequence.repeatCount_ first) in
          groupPlan i rptSz rptCnt
            ++ loopPlan fuel' l q
                 (if i + rptSz <? Z.of_nat (length l) then i + rptSz else q)
      end
  end.

(** ** Further properties of the construction calls *)

(** [s'] holds the packets of [s] and repeats as often: only [usecDelay_]
    and [repeatSize_] may differ. *)
Definition keepsPackets (s s' : PacketSequence.t) : Prop :=
  PacketSequence.sendQueue_ s' = PacketSequence.sendQueue_ s /\
  PacketSequence.lastPacket_ s' = PacketSequence.lastPacket_ s /\
  PacketSequence.packets_ s' = PacketSequence.packets_ s /\
  PacketSequence.bytes_ s' = PacketSequence.bytes_ s /\
  PacketSequence.usecDuration_ s' = PacketSequence.usecDuration_ s /\
  PacketSequence.repeatCount_ s' = PacketSequence.repeatCount_ s.

(** Every sequence of [l] is at the same index in [l'], with its packets. *)
Definition allKept (l l' : list PacketSequence.t) : Prop :=
  forall i s, l !! i = Some s -> exists s', l' !! i = Some s' /\ keepsPackets s s'.

(** One packet for [appendToPacketList]: seconds, nanoseconds, bytes, length. *)
Definition PacketArgs : Type := Z * Z * list Byte.byte * Z.

(** [appendToPacketList] called for each packet of [pkts], in order; no
    result as soon as one call has none. *)
Fixpoint appendAll (P : Platform) (pkts : list PacketArgs) (tx : PortTransmitter.t)
    : option PortTransmitter.t :=
  match pkts with
  | [] => Some tx
  | (sec, nsec, packet, length_) :: rest =>
      r ← PortTransmitter.appendToPacketList P sec nsec packet length_ tx;
      appendAll P rest (fst r)
  end.

(** ** Further properties of the monitor *)

(** The reads that the monitor loop gets to: those before the first turn at
    which [stop()] has been called. *)
Fixpoint readsBeforeStop (reads : list (bool * PortMonitor.Read))
    : list PortMonitor.Read :=
  match reads with
  | [] => []
  | (stopCalled, r) :: rest =>
      if stopCalled then [] else r :: readsBeforeStop rest
  end.

(** The results of [pcap_next_ex] that the [switch] of the monitor has a
    case for. *)
Definition knownResult (r : PortMonitor.Read) : Prop :=
  PortMonitor.ret r = 1 \/ PortMonitor.ret r = 0 \/
  PortMonitor.ret r = -1 \/ PortMonitor.ret r = -2.

(** The packets among some reads: how many, and their wire lengths. *)
Definition packetsRead (rs : list PortMonitor.Read) : Z :=
  fold_right (fun r acc => if PortMonitor.ret r =? 1 then acc + 1 else acc) 0 rs.

Definition bytesRead (rs : list PortMonitor.Read) : Z :=
  fold_right (fun r acc => if PortMonitor.ret r =? 1
                           then acc + len (PortMonitor.hdr r) else acc) 0 rs.

(** ** The busy wait of the transmitter *)

Module BusyWait.

(** [timeradd(a, b, result)] of [sys/time.h]. *)
Definition timeradd (a b : timeval) : timeval :=
  let sec := tv_sec a + tv_sec b in
  let usec := tv_usec a + tv_usec b in
  if 1000000 <=? usec
  then {| tv_sec := sec + 1; tv_usec := usec - 1000000 |}
  else {| tv_sec := sec; tv_usec := usec |}.

(** [timercmp(a, b, <)] of [sys/time.h]. *)
Definition timercmp_lt (a b : timeval) : bool :=
  if tv_sec a =? tv_sec b then tv_usec a <? tv_usec b
  else tv_sec a <? tv_sec b.

(** [while (delay.tv_usec >= 1000000) { delay.tv_sec++; delay.tv_usec -=
    1000000; }], one turn for each unit of [fuel]; no result when the fuel
    does not reach the end of the loop. *)
Fixpoint normalise (fuel : nat) (delay : timeval) : option timeval :=
  if 1000000 <=? tv_usec delay then
    match fuel with
    | O => None
    | S fuel' =>
        normalise fuel' {| tv_sec := tv_sec delay + 1;
                           tv_usec := tv_usec delay - 1000000 |}
    end
  else Some delay.

(** [do { gettimeofday(&now, NULL); } while (timercmp(&now, &target, <));]
    over what the clock answers, reading after reading.  The result is
    what is left of the readings when the loop is left; there is none while
    the loop is still turning at the end of the readings. *)
Fixpoint spin (target : timeval) (clock : list timeval) : option (list timeval) :=
  match clock with
  | [] => None
  | now :: rest =>
      if timercmp_lt now target then spin target rest else Some rest
  end.

(** [udelay(usec)] in the [Q_OS_LINUX] branch.  [usec] is an [unsigned
    long] stored into the [long] field [tv_usec]. *)
Definition udelay (fuel : nat) (usec : Z) (clock : list timeval)
    : option (list timeval) :=
  delay ← normalise fuel {| tv_sec := 0; tv_usec := wrap_signed 64 usec |};
  match clock with
  | [] => None
  | now :: rest => spin (timeradd now delay) rest
  end.

(** [while (curTicks.QuadPart < tgtTicks.QuadPart)
    QueryPerformanceCounter(&curTicks);] *)
Fixpoint spinTicks (tgtTicks curTicks : Z) (clock : list Z) : option (list Z) :=
  if curTicks <? tgtTicks then
    match clock with
    | [] => None
    | t :: rest => spinTicks tgtTicks t rest
    end
  else Some clock.

(** [udelay(usec)] in the [Q_OS_WIN32] branch: the product is taken in 64
    unsigned bits, the target is a [LONGLONG]. *)
Definition udelayTicks (P : Platform) (usec : Z) (clock : list Z)
    : option (list Z) :=
  match clock with
  | [] => None
  | curTicks :: rest =>
      let tgtTicks :=
        wrap_signed 64 (curTicks + ((usec * gTicksFreq P) mod 2 ^ 64) / 1000000) in
      spinTicks tgtTicks curTicks rest
  end.

End BusyWait.

(** A time stamp in microseconds. *)
Definition inUsecs (t : timeval) : Z := tv_sec t * 1000000 + tv_usec t.

(** A time stamp as [gettimeofday] gives it. *)
Definition normal (t : timeval) : Prop := 0 <= tv_usec t < 1000000.

(** ** Opening the device *)

(** The texts looked for in [errbuf]. *)
Module Text.
Import String.

(** [QString::contains], case sensitive. *)
Fixpoint contains (s sub : string) : bool :=
  if prefix sub s then true
  else match s with
       | EmptyString => false
       | String _ rest => contains rest sub
       end.

Definition promiscuous : string := "promiscuous"%string.
Definition loopback : string := "loopback"%string.
Definition none : string := EmptyString.
Definition noPromiscuous : string :=
  "eth0: failed to set promiscuous mode"%string.
Definition noLoopback : string :=
  "loopback capture is not supported"%string.
Definition noSuchDevice : string := "eth9: No such device exists"%string.

End Text.

Module Pcap.

(** A [pcap_t *] that is not NULL, by its identity. *)
Definition Handle : Type := Z.

(** What [pcap_open_live] or [pcap_open] answers: the handle, [None] for
    NULL, and the text it leaves in [errbuf]. *)
Record Opened := { handle : option Handle; errbuf : String.string }.

(** The calls that leave the worker, in the order they are made, and the
    writes of [state_]. *)
Inductive Call :=
| OpenLive (promisc : bool)
| Open (promisc noCaptureLocal : bool)
| SetDirection (h : Handle) (d : Direction)
| Compile (h : Handle) (netmask : Z)
| SetFilter (h : Handle)
| FreeCode
| SetNonBlock (h : Handle)
| DumpOpen (h : Handle)
| Loop (h : Handle) (dump : option Z)
| DumpClose (dump : option Z)
| NextEx (h : Handle)
| ReceivePacket (data : list Byte.byte) (length : Z)
| Close (h : Handle)
| Wrote (s : State).

End Pcap.

(** *** The constructor of the monitor *)

Module MonitorSetup.
Import Pcap.

(** The members the constructor of [PortMonitor] sets, [stats_] apart. *)
Record t := {
  direction_ : Direction;
  handle_ : option Handle;
  isPromisc_ : bool;
  isDirectional_ : bool;
  stop_ : bool
}.

(** From [_retry:] to the end of the [if (handle_ == NULL)]: one answer of
    the device for each attempt.  The result is the handle, [isPromisc_]
    and the calls made; there is none when the answers are used up. *)
Fixpoint open_ (P : Platform) (answers : list Opened)
    (isPromisc noLocalCapture : bool) : option (option Handle * bool * list Call) :=
  match answers with
  | [] => None
  | a :: rest =>
      let call := match os P with
                  | Win32 => Open isPromisc noLocalCapture
                  | _ => OpenLive isPromisc
                  end in
      match handle a with
      | Some h => Some (Some h, isPromisc, [call])
      | None =>
          if isPromisc && Text.contains (errbuf a) Text.promiscuous then
            r ← open_ P rest false noLocalCapture;
            Some (fst (fst r), snd (fst r), call :: snd r)
          else if noLocalCapture && Text.contains (errbuf a) Text.loopback then
            r ← open_ P rest isPromisc false;
            Some (fst (fst r), snd (fst r), call :: snd r)
          else Some (None, isPromisc, [call])
      end
  end.

(** [PortMonitor(device, direction, stats)]; [setdirection] is what
    [pcap_setdirection] answers if it is called. *)
Definition new (P : Platform) (direction : Direction) (answers : list Opened)
    (setdirection : Z) : option (t * list Call) :=
  r ← open_ P answers true true;
  let '(handle, isPromisc, calls) := r in
  match handle with
  | None =>
      Some ({| direction_ := direction; handle_ := None;
               isPromisc_ := isPromisc; isDirectional_ := true;
               stop_ := false |}, calls)
  | Some h =>
      let '(ret, calls') :=
        match os P with
        | Win32 => (-1, calls)
        | _ => (setdirection, calls ++ [SetDirection h direction])
        end in
      Some ({| direction_ := direction; handle_ := Some h;
               isPromisc_ := isPromisc;
               isDirectional_ := negb (ret <? 0);
               stop_ := false |}, calls')
  end.

(** [~PortMonitor()] *)
Definition delete (m : t) : list Call :=
  match handle_ m with
  | Some h => [Close h]
  | None => []
  end.

End MonitorSetup.

(** The calls that open the device, among some calls. *)
Definition opens (calls : list Pcap.Call) : list Pcap.Call :=
  omap (fun c => match c with
                 | Pcap.OpenLive _ | Pcap.Open _ _ => Some c
                 | _ => None
                 end) calls.

(** The handles closed, in order. *)
Definition closed (calls : list Pcap.Call) : list Pcap.Handle :=
  omap (fun c => match c with Pcap.Close h => Some h | _ => None end) calls.

(** The values written to [state_], in order. *)
Definition wrote (calls : list Pcap.Call) : list State :=
  omap (fun c => match c with Pcap.Wrote s => Some s | _ => None end) calls.

(** The packets handed to the device manager, in order. *)
Definition received (calls : list Pcap.Call) : list (list Byte.byte * Z) :=
  omap (fun c => match c with
                 | Pcap.ReceivePacket d n => Some (d, n)
                 | _ => None
                 end) calls.

(** How often [pcap_loop] was called. *)
Definition loopCalls (calls : list Pcap.Call) : nat :=
  length (omap (fun c => match c with Pcap.Loop _ _ => Some tt | _ => None end) calls).

(** *** The port: its monitors, its transmitter and their statistics *)

Module PcapPort.
Import Pcap.

(** What a [PortStats *] points at: the object the transmitter made with
    [new], or the member [stats_] of the port. *)
Inductive StatsPtr := OwnStats | PortStatsMember.

(** The members of the transmitter that hold what it may have to release. *)
Record Transmitter := {
  stats_ : StatsPtr;
  usingInternalStats_ : bool;
  handle_ : option Handle;
  usingInternalHandle_ : bool
}.

(** The port with the objects its members point at.  [ownStats] is the
    object that [new AbstractPort::PortStats] made in the constructor of
    the transmitter, [None] once it is deleted; [deleted] lists the objects
    [delete] was called on and [calls] the calls into libpcap. *)
Record t := {
  portStats : PortStats;
  ownStats : option PortStats;
  monitorRx_ : MonitorSetup.t;
  monitorTx_ : MonitorSetup.t;
  transmitter_ : Transmitter;
  deleted : list StatsPtr;
  calls : list Call
}.

Definition set_transmitter (v : Transmitter) (p : t) : t :=
  {| portStats := portStats p; ownStats := ownStats p;
     monitorRx_ := monitorRx_ p; monitorTx_ := monitorTx_ p;
     transmitter_ := v; deleted := deleted p; calls := calls p |}.

Definition set_portStats (v : PortStats) (p : t) : t :=
  {| portStats := v; ownStats := ownStats p;
     monitorRx_ := monitorRx_ p; monitorTx_ := monitorTx_ p;
     transmitter_ := transmitter_ p; deleted := deleted p; calls := calls p |}.

Definition set_ownStats (v : option PortStats) (p : t) : t :=
  {| portStats := portStats p; ownStats := v;
     monitorRx_ := monitorRx_ p; monitorTx_ := monitorTx_ p;
     transmitter_ := transmitter_ p; deleted := deleted p; calls := calls p |}.

Definition called (c : Call) (p : t) : t :=
  {| portStats := portStats p; ownStats := ownStats p;
     monitorRx_ := monitorRx_ p; monitorTx_ := monitorTx_ p;
     transmitter_ := transmitter_ p; deleted := deleted p;
     calls := calls p ++ [c] |}.

(** [delete stats_;] of the transmitter. *)
Definition deleteStats (p : t) : t :=
  let target := stats_ (transmitter_ p) in
  {| portStats := portStats p;
     ownStats := match target with OwnStats => None | PortStatsMember => ownStats p end;
     monitorRx_ := monitorRx_ p; monitorTx_ := monitorTx_ p;
     transmitter_ := transmitter_ p; deleted := deleted p ++ [target];
     calls := calls p |}.

(** [pcap_close(handle_);] of the transmitter; no result on NULL. *)
Definition closeHandle (p : t) : option t :=
  h ← handle_ (transmitter_ p); Some (called (Close h) p).

(** [PortTransmitter(device)], for what it opens and owns: [answer] is
    what [pcap_open_live] gives and [fresh] the new statistics object. *)
Definition newTransmitter (answer : Opened) : Transmitter * list Call :=
  ({| stats_ := OwnStats; usingInternalStats_ := true;
      handle_ := handle answer;
      usingInternalHandle_ := match handle answer with
                              | Some _ => true
                              | None => false
                              end |},
   [OpenLive false]).

(** [PcapPort(id, device)], for the monitors and the transmitter: the two
    monitors are given the address of the member [stats_] of the port. *)
Definition new (P : Platform) (stats0 fresh : PortStats)
    (rxAnswers txAnswers : list Opened) (rxSetdirection txSetdirection : Z)
    (txOpened : Opened) : option t :=
  rx ← MonitorSetup.new P kDirectionRx rxAnswers rxSetdirection;
  tx ← MonitorSetup.new P kDirectionTx txAnswers txSetdirection;
  let tr := newTransmitter txOpened in
  Some {| portStats := stats0; ownStats := Some fresh;
          monitorRx_ := fst rx; monitorTx_ := fst tx;
          transmitter_ := fst tr; deleted := [];
          calls := snd rx ++ snd tx ++ snd tr |}.

(** [PortTransmitter::useExternalStats(&stats_)] *)
Definition useExternalStats (p : t) : t :=
  let p1 := if usingInternalStats_ (transmitter_ p) then deleteStats p else p in
  set_transmitter
    {| stats_ := PortStatsMember; usingInternalStats_ := false;
       handle_ := handle_ (transmitter_ p1);
       usingInternalHandle_ := usingInternalHandle_ (transmitter_ p1) |} p1.

(** [PortTransmitter::setHandle(handle)] *)
Definition setHandle (handle : option Handle) (p : t) : option t :=
  p1 ← (if usingInternalHandle_ (transmitter_ p) then closeHandle p else Some p);
  Some (set_transmitter
          {| stats_ := stats_ (transmitter_ p1);
             usingInternalStats_ := usingInternalStats_ (transmitter_ p1);
             handle_ := handle; usingInternalHandle_ := false |} p1).

(** [PcapPort::init()], up to the start of the monitors. *)
Definition init (p : t) : option t :=
  let p1 := if negb (MonitorSetup.isDirectional_ (monitorTx_ p))
            then useExternalStats p else p in
  setHandle (MonitorSetup.handle_ (monitorRx_ p1)) p1.

(** [init()] called [n] times. *)
Fixpoint initTimes (n : nat) (p : t) : option t :=
  match n with
  | O => Some p
  | S n' => p1 ← init p; initTimes n' p1
  end.

(** [~PortTransmitter()] *)
Definition deleteTransmitter (p : t) : option t :=
  let p1 := if usingInternalStats_ (transmitter_ p) then deleteStats p else p in
  if usingInternalHandle_ (transmitter_ p1) then closeHandle p1 else Some p1.

(** [~PcapPort()], for the transmitter and the two monitors, in the order
    of the [delete]s. *)
Definition delete (p : t) : option t :=
  p1 ← deleteTransmitter p;
  Some {| portStats := portStats p1; ownStats := ownStats p1;
          monitorRx_ := monitorRx_ p1; monitorTx_ := monitorTx_ p1;
          transmitter_ := transmitter_ p1; deleted := deleted p1;
          calls := calls p1 ++ MonitorSetup.delete (monitorRx_ p1)
                   ++ MonitorSetup.delete (monitorTx_ p1) |}.

(** What the three workers do to the statistics once the port runs: a
    monitor handles one answer of [pcap_next_ex], or the transmitter
    executes [stats_->txPkts += pkts; stats_->txBytes += bytes;]. *)
Inductive Activity :=
| RxRead (r : PortMonitor.Read)
| TxRead (r : PortMonitor.Read)
| Sent (pkts bytes : Z).

(** The monitor as [PortMonitor::run] has it, its [stats_] being the
    member of the port. *)
Definition monitorView (m : MonitorSetup.t) (p : t) : PortMonitor.t :=
  {| PortMonitor.direction_ := MonitorSetup.direction_ m;
     PortMonitor.isDirectional_ := MonitorSetup.isDirectional_ m;
     PortMonitor.stop_ := MonitorSetup.stop_ m;
     PortMonitor.stats_ := portStats p |}.

(** One activity; no result on [qFatal] in a monitor or when the
    transmitter writes through a pointer to a deleted object. *)
Definition step (a : Activity) (p : t) : option t :=
  match a with
  | RxRead r =>
      m ← PortMonitor.handleRead r (monitorView (monitorRx_ p) p);
      Some (set_portStats (PortMonitor.stats_ m) p)
  | TxRead r =>
      m ← PortMonitor.handleRead r (monitorView (monitorTx_ p) p);
      Some (set_portStats (PortMonitor.stats_ m) p)
  | Sent pkts bytes =>
      match stats_ (transmitter_ p) with
      | PortStatsMember =>
          Some (set_portStats (PortTransmitter.countTx pkts bytes (portStats p)) p)
      | OwnStats =>
          st ← ownStats p;
          Some (set_ownStats (Some (PortTransmitter.countTx pkts bytes st)) p)
      end
  end.

Fixpoint steps (acts : list Activity) (p : t) : option t :=
  match acts with
  | [] => Some p
  | a :: rest => p1 ← step a p; steps rest p1
  end.

End PcapPort.

(** The answers of [pcap_next_ex] to the Rx monitor, to the Tx monitor, and
    what the transmitter counted, among some activities. *)
Definition rxReads (acts : list PcapPort.Activity) : list PortMonitor.Read :=
  omap (fun a => match a with PcapPort.RxRead r => Some r | _ => None end) acts.

Definition txReads (acts : list PcapPort.Activity) : list PortMonitor.Read :=
  omap (fun a => match a with PcapPort.TxRead r => Some r | _ => None end) acts.

Definition sentPkts (acts : list PcapPort.Activity) : Z :=
  fold_right (fun a acc => match a with PcapPort.Sent n _ => n + acc | _ => acc end)
    0 acts.

Definition sentBytes (acts : list PcapPort.Activity) : Z :=
  fold_right (fun a acc => match a with PcapPort.Sent _ b => b + acc | _ => acc end)
    0 acts.

(** Every answer to a monitor is one its [switch] has a case for. *)
Definition knownReads (acts : list PcapPort.Activity) : Prop :=
  Forall knownResult (rxReads acts) /\ Forall knownResult (txReads acts).

Module PortSamples.

(** A device that opens at the first attempt, with handle [h]. *)
Definition opensAs (h : Z) : Pcap.Opened :=
  {| Pcap.handle := Some h; Pcap.errbuf := Text.none |}.

(** A device that refuses promiscuous mode. *)
Definition refusesPromiscuous : Pcap.Opened :=
  {| Pcap.handle := None; Pcap.errbuf := Text.noPromiscuous |}.

(** A device that is not there. *)
Definition missing : Pcap.Opened :=
  {| Pcap.handle := None; Pcap.errbuf := Text.noSuchDevice |}.

(** A Linux port whose monitors are both directional. *)
Definition directional : option PcapPort.t :=
  PcapPort.new Samples.linux64 Samples.noStats Samples.noStats
    [opensAs 1] [opensAs 2] 0 0 (opensAs 3).

(** A Win32 port: no monitor is directional. *)
Definition windows : option PcapPort.t :=
  PcapPort.new Samples.win32 Samples.noStats Samples.noStats
    [opensAs 1] [refusesPromiscuous; opensAs 2] 0 0 (opensAs 3).

End PortSamples.

(** ** The capturer *)

Module PortCapturer.
Import Pcap.

Record t := {
  capFileIsOpen : bool;
  stop_ : bool;
  state_ : State;
  dumpHandle_ : option Z;
  handle_ : option Handle
}.

(** What the calls of [run()] answer: [pcap_lookupnet] (its result and the
    mask it gives), [pcap_open_live] attempt after attempt, [pcap_compile],
    [pcap_setfilter], [pcap_dump_open], and [pcap_loop] turn after turn. *)
Record Oracle := {
  lookupnet : Z;
  lookupnetMask : Z;
  opened : list Opened;
  compile : Z;
  setfilter : Z;
  dumpOpen : option Z;
  loops : list Z
}.

(** How [run()] ends: it returns, or [qFatal] ends the process. *)
Inductive Outcome :=
| Returned (c : t) (calls : list Call)
| Fatal (calls : list Call).

(** [_exit: state_ = kFinished;] *)
Definition exit_ (c : t) (calls : list Call) : Outcome :=
  Returned {| capFileIsOpen := capFileIsOpen c; stop_ := stop_ c;
              state_ := kFinished; dumpHandle_ := dumpHandle_ c;
              handle_ := handle_ c |}
           (calls ++ [Wrote kFinished]).

(** From [_retry:] to the end of the [if (handle_ == NULL)]. *)
Fixpoint open_ (answers : list Opened) (flag : bool)
    : option (option Handle * list Call) :=
  match answers with
  | [] => None
  | a :: rest =>
      match handle a with
      | Some h => Some (Some h, [OpenLive flag])
      | None =>
          if flag && Text.contains (errbuf a) Text.promiscuous then
            r ← open_ rest false; Some (fst r, OpenLive flag :: snd r)
          else Some (None, [OpenLive flag])
      end
  end.

(** The [while (looping)]: the calls made, and whether the loop was left
    ([true]) or [qFatal] was reached; no result while it is still turning
    at the end of the answers. *)
Fixpoint loop (h : Handle) (dump : option Z) (answers : list Z)
    : option (list Call * bool) :=
  match answers with
  | [] => None
  | ret :: rest =>
      if ret =? 0 then
        r ← loop h dump rest; Some (Loop h dump :: fst r, snd r)
      else if (ret =? -1) || (ret =? -2) then Some ([Loop h dump], true)
      else Some ([Loop h dump], false)
  end.

(** [PortCapturer::run()]; no result while it has not come to an end with
    the answers given. *)
Definition run (o : Oracle) (c : t) : option Outcome :=
  if negb (capFileIsOpen c) then Some (exit_ c [])
  else
    let mask := if lookupnet o =? -1 then 0 else to_u32 (lookupnetMask o) in
    r ← open_ (opened o) true;
    let c1 := {| capFileIsOpen := capFileIsOpen c; stop_ := stop_ c;
                 state_ := state_ c; dumpHandle_ := dumpHandle_ c;
                 handle_ := fst r |} in
    match fst r with
    | None => Some (exit_ c1 (snd r))
    | Some h =>
        if compile o =? -1 then Some (exit_ c1 (snd r ++ [Compile h mask]))
        else if setfilter o =? -1
        then Some (exit_ c1 (snd r ++ [Compile h mask; SetFilter h]))
        else
          let calls := snd r ++ [Compile h mask; SetFilter h; FreeCode;
                                 SetNonBlock h; DumpOpen h; Wrote kRunning] in
          match loop h (dumpOpen o) (loops o) with
          | None => None
          | Some (turns, true) =>
              Some (exit_ {| capFileIsOpen := capFileIsOpen c; stop_ := false;
                             state_ := kRunning; dumpHandle_ := None;
                             handle_ := None |}
                          (calls ++ turns ++ [DumpClose (dumpOpen o); Close h]))
          | Some (turns, false) => Some (Fatal (calls ++ turns))
          end
    end.

End PortCapturer.

(** ** The transceiver of the device emulation *)

Module EmulationTransceiver.
Import Pcap.

Record t := {
  stop_ : bool;
  state_ : State;
  handle_ : option Handle
}.

(** One turn of the [while (1)]: what [pcap_next_ex] answers, the bytes it
    points at, and whether [stop()] has been called before the test of
    [stop_] in that turn. *)
Record Turn := {
  read : PortMonitor.Read;
  data : list Byte.byte;
  stopCalled : bool
}.

Record Oracle := {
  opened : list Opened;
  compile : Z;
  setfilter : Z;
  turns : list Turn
}.

Inductive Outcome :=
| Returned (x : t) (calls : list Call)
| Fatal (calls : list Call).

(** [_exit: state_ = kFinished;] *)
Definition exit_ (x : t) (calls : list Call) : Outcome :=
  Returned {| stop_ := stop_ x; state_ := kFinished; handle_ := handle_ x |}
           (calls ++ [Wrote kFinished]).

(** The opening of the device: [flags] always has the promiscuous bit, and
    on Win32 the bit of [noCaptureLocal] until it is cleared; the label
    [_retry] exists on Win32 only. *)
Fixpoint open_ (P : Platform) (answers : list Opened) (noCaptureLocal : bool)
    : option (option Handle * list Call) :=
  match answers with
  | [] => None
  | a :: rest =>
      let call := match os P with
                  | Win32 => Open true noCaptureLocal
                  | _ => OpenLive true
                  end in
      match handle a with
      | Some h => Some (Some h, [call])
      | None =>
          if Text.contains (errbuf a) Text.promiscuous then Some (None, [call])
          else
            match os P with
            | Win32 =>
                if noCaptureLocal && Text.contains (errbuf a) Text.loopback then
                  r ← open_ P rest false; Some (fst r, call :: snd r)
                else Some (None, [call])
            | _ => Some (None, [call])
            end
      end
  end.

(** The [while (1)]: the calls made and whether the loop was left by the
    [break] ([true]) or by [qFatal]. *)
Fixpoint loop (h : Handle) (stop : bool) (turns : list Turn)
    : option (list Call * bool) :=
  match turns with
  | [] => None
  | t :: rest =>
      let ret := PortMonitor.ret (read t) in
      if (ret =? 1) || (ret =? 0) || (ret =? -1) then
        let calls :=
          if ret =? 1
          then [NextEx h; ReceivePacket (data t) (caplen (PortMonitor.hdr (read t)))]
          else [NextEx h] in
        if stop || stopCalled t then Some (calls, true)
        else r ← loop h false rest; Some (calls ++ fst r, snd r)
      else Some ([NextEx h], false)
  end.

(** [EmulationTransceiver::run()] *)
Definition run (P : Platform) (o : Oracle) (x : t) : option Outcome :=
  r ← open_ P (opened o) (match os P with Win32 => true | _ => false end);
  let x1 := {| stop_ := stop_ x; state_ := state_ x; handle_ := fst r |} in
  match fst r with
  | None => Some (exit_ x1 (snd r))
  | Some h =>
      let filter :=
        if compile o <? 0 then [Compile h 0]
        else [Compile h 0; SetFilter h] in
      let calls := snd r ++ filter ++ [Wrote kRunning] in
      match loop h (stop_ x) (turns o) with
      | None => None
      | Some (reads, true) =>
          Some (exit_ {| stop_ := false; state_ := kRunning; handle_ := None |}
                      (calls ++ reads ++ [Close h]))
      | Some (reads, false) => Some (Fatal (calls ++ reads))
      end
  end.

End EmulationTransceiver.

(** The packets among some turns, as the device manager gets them. *)
Definition packetsOf (turns : list EmulationTransceiver.Turn)
    : list (list Byte.byte * Z) :=
  omap (fun t =>
          if PortMonitor.ret (EmulationTransceiver.read t) =? 1
          then Some (EmulationTransceiver.data t,
                     caplen (PortMonitor.hdr (EmulationTransceiver.read t)))
          else None) turns.

(** The answers of [pcap_next_ex] the transceiver has a case for that is
    not [qFatal]. *)
Definition goodTurn (t : EmulationTransceiver.Turn) : Prop :=
  PortMonitor.ret (EmulationTransceiver.read t) = 1 \/
  PortMonitor.ret (EmulationTransceiver.read t) = 0 \/
  PortMonitor.ret (EmulationTransceiver.read t) = -1.

Module WorkerSamples.

(** A capturer as its constructor leaves it, the capture file open. *)
Definition capturer : PortCapturer.t :=
  {| PortCapturer.capFileIsOpen := true; PortCapturer.stop_ := false;
     PortCapturer.state_ := kNotStarted; PortCapturer.dumpHandle_ := None;
     PortCapturer.handle_ := None |}.

(** The device opens at the second attempt, the filter is accepted, and
    [pcap_loop] is interrupted in its third turn. *)
Definition capture : PortCapturer.Oracle :=
  {| PortCapturer.lookupnet := 0; PortCapturer.lookupnetMask := 4294967040;
     PortCapturer.opened := [PortSamples.refusesPromiscuous; PortSamples.opensAs 5];
     PortCapturer.compile := 0; PortCapturer.setfilter := 0;
     PortCapturer.dumpOpen := Some 9;
     PortCapturer.loops := [0; 0; -2; 0] |}.

(** The same, with a filter that does not compile. *)
Definition badFilter : PortCapturer.Oracle :=
  {| PortCapturer.lookupnet := 0; PortCapturer.lookupnetMask := 4294967040;
     PortCapturer.opened := [PortSamples.opensAs 5];
     PortCapturer.compile := -1; PortCapturer.setfilter := 0;
     PortCapturer.dumpOpen := Some 9;
     PortCapturer.loops := [] |}.

(** A transceiver as its constructor leaves it. *)
Definition transceiver : EmulationTransceiver.t :=
  {| EmulationTransceiver.stop_ := false;
     EmulationTransceiver.state_ := kNotStarted;
     EmulationTransceiver.handle_ := None |}.

Definition turn (ret : Z) (stop : bool) : EmulationTransceiver.Turn :=
  {| EmulationTransceiver.read :=
       {| PortMonitor.ret := ret;
          PortMonitor.hdr := {| ts := {| tv_sec := 0; tv_usec := 0 |};
                                caplen := 4; len := 60 |} |};
     EmulationTransceiver.data := Samples.payload;
     EmulationTransceiver.stopCalled := stop |}.

(** A packet, a time-out, and a packet in the turn in which the stop is
    seen; the filter is refused. *)
Definition emulation : EmulationTransceiver.Oracle :=
  {| EmulationTransceiver.opened := [PortSamples.opensAs 6];
     EmulationTransceiver.compile := -1; EmulationTransceiver.setfilter := 0;
     EmulationTransceiver.turns := [turn 1 false; turn 0 false; turn 1 true;
                                    turn 1 false] |}.

(** The device refuses promiscuous mode. *)
Definition noPromiscuous : EmulationTransceiver.Oracle :=
  {| EmulationTransceiver.opened := [PortSamples.refusesPromiscuous;
                                     PortSamples.opensAs 6];
     EmulationTransceiver.compile := 0; EmulationTransceiver.setfilter := 0;
     EmulationTransceiver.turns := [turn 1 true] |}.

End WorkerSamples.

(** *** The delays of a replay, in the words of the specification *)







Module LargeSamples.

(** A record of 1048540 bytes: with headers of 24 bytes it fits an empty
    send queue of one mebibyte, but not with a second header. *)
Definition record : list Byte.byte := repeat Byte.x00 (Z.to_nat 1048540).

End LargeSamples.

(** ** Facts on machine integers *)

Lemma long_bits_cases (P : Platform) :
  long_bits (os P) = 32 \/ long_bits (os P) = 64.
Proof. destruct (os P); simpl; auto. Qed.

Lemma wrap_signed_fits (bits z : Z) :
  0 < bits -> - 2 ^ (bits - 1) <= z < 2 ^ (bits - 1) -> wrap_signed bits z = z.
Proof.
  intros Hb Hz. unfold wrap_signed.
  assert (Hp : 2 ^ bits = 2 * 2 ^ (bits - 1)).
  { replace bits with (Z.succ (bits - 1)) at 1 by lia.
    rewrite Z.pow_succ_r by lia. reflexivity. }
  rewrite Z.mod_small by lia. lia.
Qed.

Lemma to_long_fits (P : Platform) (z : Z) : fits_long P z -> to_long P z = z.
Proof.
  unfold fits_long, to_long. intros Hz.
  apply wrap_signed_fits; [|exact Hz].
  destruct (long_bits_cases P) as [-> | ->]; lia.
Qed.

Lemma usecsBetween_exact (P : Platform) (a b : timeval) :
  gap_fits P a b -> PacketSequence.usecsBetween P a b = exactUsecs a b.
Proof.
  intros (H1 & H2 & H3 & H4). unfold PacketSequence.usecsBetween, usecPerSec.
  rewrite (to_long_fits P _ H1), (to_long_fits P _ H2), (to_long_fits P _ H3).
  apply to_long_fits. exact H4.
Qed.

(** ** [clearPacketList] *)

(** C8, as stated, fails: after [clearPacketList] on a transmitter that is
    not running, the repeat-group start index and the return-to-queue index
    are not zero. *)
Lemma clearPacketList_indices_not_zero :
  exists tx', PortTransmitter.clearPacketList Samples.used = Some tx' /\
    ~ (PortTransmitter.repeatSequenceStart_ tx' = 0 /\
       PortTransmitter.returnToQIdx_ tx' = 0).
Proof.
  eexists. split; [reflexivity|]. simpl. intros [H _]. discriminate H.
Qed.

(** C8, amended: after [clearPacketList] on a transmitter that is not
    running, the sequence list is empty, the current-sequence pointer is
    cleared, the group packet counter and the repeat-group size are zero, the
    repeat-group start index and the return-to-queue index are -1 (no group,
    outer loop disabled), and the loop delay is zero. *)
Theorem clearPacketList_resets (tx : PortTransmitter.t) :
  PortTransmitter.isRunning tx = false ->
  exists tx', PortTransmitter.clearPacketList tx = Some tx' /\
    PortTransmitter.packetSequenceList_ tx' = [] /\
    PortTransmitter.currentPacketSequence_ tx' = None /\
    PortTransmitter.packetCount_ tx' = 0 /\
    PortTransmitter.repeatSize_ tx' = 0 /\
    PortTransmitter.repeatSequenceStart_ tx' = -1 /\
    PortTransmitter.returnToQIdx_ tx' = -1 /\
    PortTransmitter.loopDelay_ tx' = 0.
Proof.
  intros Hrun. unfold PortTransmitter.clearPacketList. rewrite Hrun.
  eexists. split; [reflexivity|]. simpl. repeat split.
Qed.

Lemma clearPacketList_resets_witness :
  exists tx', PortTransmitter.clearPacketList Samples.used = Some tx' /\
    PortTransmitter.packetSequenceList_ tx' = [] /\
    PortTransmitter.currentPacketSequence_ tx' = None /\
    PortTransmitter.packetCount_ tx' = 0 /\
    PortTransmitter.repeatSize_ tx' = 0 /\
    PortTransmitter.repeatSequenceStart_ tx' = -1 /\
    PortTransmitter.returnToQIdx_ tx' = -1 /\
    PortTransmitter.loopDelay_ tx' = 0.
Proof. apply (clearPacketList_resets Samples.used). reflexivity. Defined.

(** ** [loopNextPacketSet] *)

(** ** The monitor *)

(** C9: in the monitor loop, a successfully read packet (result 1, read
    while [stop_] is not set) makes one turn of the loop, after which: for
    direction Rx, [rxPkts] is one more and [rxBytes] is more by the wire
    length; for direction Tx on a directional monitor, [txPkts] is one more
    and [txBytes] is more by the wire length; for direction Tx on a
    non-directional monitor no counter changes.  The counters of the other
    direction are never touched. *)
Theorem monitor_counts_packet (m : PortMonitor.t) (r : PortMonitor.Read)
    (rest : list (bool * PortMonitor.Read)) :
  PortMonitor.stop_ m = false ->
  PortMonitor.ret r = 1 ->
  exists m',
    PortMonitor.run ((false, r) :: rest) m = PortMonitor.run rest m' /\
    PortMonitor.handleRead r m = Some m' /\
    let st := PortMonitor.stats_ m in
    let st' := PortMonitor.stats_ m' in
    let wireLen := len (PortMonitor.hdr r) in
    match PortMonitor.direction_ m, PortMonitor.isDirectional_ m with
    | kDirectionRx, _ =>
        rxPkts st' = rxPkts st + 1 /\ rxBytes st' = rxBytes st + wireLen /\
        txPkts st' = txPkts st /\ txBytes st' = txBytes st
    | kDirectionTx, true =>
        txPkts st' = txPkts st + 1 /\ txBytes st' = txBytes st + wireLen /\
        rxPkts st' = rxPkts st /\ rxBytes st' = rxBytes st
    | kDirectionTx, false => st' = st
    end.
Proof.
  intros Hstop Hret. exists (PortMonitor.countPacket (PortMonitor.hdr r) m).
  assert (Hm : PortMonitor.set_stop (PortMonitor.stop_ m || false) m = m).
  { destruct m as [d dir s st]. simpl in *. subst s. reflexivity. }
  split; [|split].
  - cbn [PortMonitor.run]. rewrite Hm, Hstop.
    unfold PortMonitor.handleRead. rewrite Hret. reflexivity.
  - unfold PortMonitor.handleRead. rewrite Hret. reflexivity.
  - unfold PortMonitor.countPacket.
    destruct (PortMonitor.direction_ m), (PortMonitor.isDirectional_ m);
      simpl; auto.
Qed.

Lemma monitor_counts_packet_witness :
  exists m',
    PortMonitor.run [(false, Samples.packet60)] Samples.rxMonitor = Some m' /\
    rxPkts (PortMonitor.stats_ m') = 1 /\ rxBytes (PortMonitor.stats_ m') = 60.
Proof.
  destruct (monitor_counts_packet Samples.rxMonitor Samples.packet60 [])
    as (m' & Hrun & _ & Hpk & Hby & _); [reflexivity | reflexivity |].
  exists m'. split; [exact Hrun|]. split; [exact Hpk | exact Hby].
Defined.

(** ** [run] on an empty list *)

(** C10: when [run] executes with an empty packet-sequence list, whatever
    the outside answers, it returns; the only thing it does is the write of
    [kFinished] to [state_]: the state goes from [kNotStarted] to
    [kFinished] and is never [kRunning], no sequence is transmitted and no
    delay is waited.  So the first state that [start] meets on a
    transmitter that was not running is [kFinished], for which [isRunning]
    is false. *)
Theorem run_empty_list (P : Platform) (fuel : nat) (tx : PortTransmitter.t)
    (o : PortTransmitter.Oracle) :
  PortTransmitter.packetSequenceList_ tx = [] ->
  PortTransmitter.isRunning tx = false ->
  exists w,
    PortTransmitter.run P fuel
      (PortTransmitter.boot (PortTransmitter.set_state kNotStarted tx) o)
      = PortTransmitter.Returned w /\
    PortTransmitter.trace_ w = [PortTransmitter.EvState kFinished] /\
    PortTransmitter.state_ (PortTransmitter.tx_ w) = kFinished /\
    PortTransmitter.isRunning (PortTransmitter.tx_ w) = false /\
    PortTransmitter.start P fuel 0 tx o = Some kFinished /\
    forall seen s, PortTransmitter.start P fuel seen tx o = Some s -> s = kFinished.
Proof.
  intros Hl Hrun.
  assert (Hr : PortTransmitter.run P fuel
      (PortTransmitter.boot (PortTransmitter.set_state kNotStarted tx) o)
      = PortTransmitter.Returned
          (PortTransmitter.writeState kFinished
             (PortTransmitter.boot (PortTransmitter.set_state kNotStarted tx) o))).
  { unfold PortTransmitter.run. simpl. rewrite Hl. reflexivity. }
  eexists. split; [exact Hr|]. split; [reflexivity|]. split; [reflexivity|].
  split; [reflexivity|].
  unfold PortTransmitter.start. rewrite Hrun, Hr. simpl.
  split; [reflexivity|].
  intros [|seen] s Hs; simpl in Hs; [congruence | discriminate].
Qed.

Lemma run_empty_list_witness :
  PortTransmitter.start Samples.linux64 5 0 Samples.idle Samples.quiet = Some kFinished.
Proof.
  destruct (run_empty_list Samples.linux64 5 Samples.idle Samples.quiet)
    as (w & _ & _ & _ & _ & Hs & _); [reflexivity | reflexivity | exact Hs].
Defined.

(** ** [appendToPacketList] *)

Lemma lookup_snoc {A} (l : list A) (x : A) : (l ++ [x]) !! length l = Some x.
Proof. rewrite lookup_app_r by lia. rewrite Nat.sub_diag. reflexivity. Qed.

Lemma insert_snoc {A} (l : list A) (x y : A) :
  <[length l := y]> (l ++ [x]) = l ++ [y].
Proof.
  rewrite insert_app_r_alt by lia. rewrite Nat.sub_diag. reflexivity.
Qed.

(** The record goes into the sequence that was just allocated. *)
Lemma write_after_appendNewSequence (P : Platform) (h : pcap_pkthdr)
    (packet : list Byte.byte) (tx : PortTransmitter.t) :
  let r := PacketSequence.appendPacket P PacketSequence.new h packet in
  PortTransmitter.appendToPacketList_write P h packet
    (PortTransmitter.appendNewSequence tx)
  = Some (PortTransmitter.set_list
            (PortTransmitter.packetSequenceList_ tx ++ [fst r])
            (PortTransmitter.appendNewSequence tx),
          negb (snd r <? 0)).
Proof.
  intros r. unfold PortTransmitter.appendToPacketList_write.
  cbn [PortTransmitter.appendNewSequence PortTransmitter.currentPacketSequence_
       PortTransmitter.packetSequenceList_ mbind option_bind].
  rewrite lookup_snoc. cbn [mbind option_bind]. rewrite insert_snoc. reflexivity.
Qed.

(** In [appendToPacketList], when there is no current sequence, or the
    current sequence has a last packet and cannot take one more record, the
    current sequence (if any) gets as its [usecDelay] the microseconds from
    its last packet to the new packet (the delay lives on the sequence that
    ends), a new sequence is allocated, appended to the list and made
    current, and only then the record is written, into that new sequence.
    The gap is the exact difference of the two time stamps when it fits a
    [long].  Unless the same packet completes a repeat group, the call
    returns with the list in that state. *)
Theorem appendToPacketList_starts_sequence (P : Platform) (tx : PortTransmitter.t)
    (sec nsec : Z) (packet : list Byte.byte) (length_ : Z)
    (ending : option (nat * PacketSequence.t * pcap_pkthdr)) :
  mustStartSequence P tx length_ ending ->
  let pktHdr := PortTransmitter.makeHeader sec nsec length_ in
  let l := PortTransmitter.packetSequenceList_ tx in
  let ended :=
    match ending with
    | None => l
    | Some (c, cur, last) =>
        <[c := PacketSequence.set_usecDelay
                 (PacketSequence.usecsBetween P (ts last) (ts pktHdr)) cur]> l
    end in
  exists tx1 tx2 op,
    PortTransmitter.appendToPacketList_newSequence P pktHdr length_ tx = Some tx1 /\
    PortTransmitter.packetSequenceList_ tx1 = ended ++ [PacketSequence.new] /\
    PortTransmitter.currentPacketSequence_ tx1 = Some (length l) /\
    PortTransmitter.appendToPacketList_write P pktHdr packet tx1 = Some (tx2, op) /\
    PortTransmitter.packetSequenceList_ tx2
      = ended ++ [fst (PacketSequence.appendPacket P PacketSequence.new pktHdr packet)] /\
    PortTransmitter.currentPacketSequence_ tx2 = Some (length l) /\
    PortTransmitter.appendToPacketList P sec nsec packet length_ tx
      = (tx3 ← PortTransmitter.appendToPacketList_closeGroup tx2; Some (tx3, op)) /\
    ((0 <? PortTransmitter.repeatSize_ tx)
       && (PortTransmitter.packetCount_ tx + 1 =? PortTransmitter.repeatSize_ tx) = false ->
     exists tx',
       PortTransmitter.appendToPacketList P sec nsec packet length_ tx = Some (tx', op) /\
       PortTransmitter.packetSequenceList_ tx' = PortTransmitter.packetSequenceList_ tx2 /\
       PortTransmitter.currentPacketSequence_ tx' = Some (length l)) /\
    match ending with
    | None => True
    | Some (c, cur, last) =>
        exists cur',
          PortTransmitter.packetSequenceList_ tx1 !! c = Some cur' /\
          PacketSequence.usecDelay_ cur'
            = PacketSequence.usecsBetween P (ts last) (ts pktHdr) /\
          PacketSequence.sendQueue_ cur' = PacketSequence.sendQueue_ cur /\
          (gap_fits P (ts last) (ts pktHdr) ->
           PacketSequence.usecDelay_ cur' = exactUsecs (ts last) (ts pktHdr))
    end.
Proof.
  intros Hm pktHdr l ended.
  destruct ending as [[[c cur] last]|]; simpl in Hm.
  - destruct Hm as (Hc & Hcur & Hlast & Hfull).
    set (tx0 := PortTransmitter.set_list ended tx).
    assert (H1 : PortTransmitter.appendToPacketList_newSequence P pktHdr length_ tx
                 = Some (PortTransmitter.appendNewSequence tx0)).
    { unfold PortTransmitter.appendToPacketList_newSequence.
      rewrite Hc. cbn [mbind option_bind]. rewrite Hcur. cbn [mbind option_bind].
      rewrite Hfull, Hlast. reflexivity. }
    assert (Hlen : length ended = length l) by apply length_insert.
    pose proof (write_after_appendNewSequence P pktHdr packet tx0) as H2.
    cbv zeta in H2.
    eexists _, _, _. split; [exact H1|].
    split; [reflexivity|].
    split; [cbn; rewrite Hlen; reflexivity|].
    split; [exact H2|].
    split; [reflexivity|].
    split; [cbn; rewrite Hlen; reflexivity|].
    assert (H3 : PortTransmitter.appendToPacketList P sec nsec packet length_ tx
                 = (tx3 ← PortTransmitter.appendToPacketList_closeGroup
                             (PortTransmitter.set_list
                                (PortTransmitter.packetSequenceList_ tx0
                                   ++ [fst (PacketSequence.appendPacket P
                                              PacketSequence.new pktHdr packet)])
                                (PortTransmitter.appendNewSequence tx0));
                    Some (tx3, negb (snd (PacketSequence.appendPacket P
                                            PacketSequence.new pktHdr packet) <? 0)))).
    { unfold PortTransmitter.appendToPacketList. fold pktHdr.
      rewrite H1. cbn [mbind option_bind]. rewrite H2. reflexivity. }
    split; [exact H3|].
    split.
    + intros Hopen. rewrite H3.
      unfold PortTransmitter.appendToPacketList_closeGroup.
      cbn [PortTransmitter.set_list PortTransmitter.appendNewSequence
           PortTransmitter.repeatSize_ PortTransmitter.packetCount_ tx0].
      rewrite Hopen. eexists. split; [reflexivity|].
      split; [reflexivity|]. cbn. rewrite Hlen. reflexivity.
    + assert (Hlt : (c < length l)%nat) by (eapply lookup_lt_Some; exact Hcur).
      eexists. split.
      * cbn [PortTransmitter.appendNewSequence PortTransmitter.packetSequenceList_
             PortTransmitter.set_list tx0].
        rewrite lookup_app_l by (rewrite Hlen; exact Hlt).
        subst ended. apply list_lookup_insert_eq. exact Hlt.
      * split; [reflexivity|]. split; [reflexivity|].
        intros Hfit. cbn. apply usecsBetween_exact. exact Hfit.
  - assert (H1 : PortTransmitter.appendToPacketList_newSequence P pktHdr length_ tx
                 = Some (PortTransmitter.appendNewSequence tx)).
    { unfold PortTransmitter.appendToPacketList_newSequence. rewrite Hm. reflexivity. }
    pose proof (write_after_appendNewSequence P pktHdr packet tx) as H2.
    cbv zeta in H2.
    eexists _, _, _. split; [exact H1|].
    split; [reflexivity|]. split; [reflexivity|].
    split; [exact H2|].
    split; [reflexivity|]. split; [reflexivity|].
    assert (H3 : PortTransmitter.appendToPacketList P sec nsec packet length_ tx
                 = (tx3 ← PortTransmitter.appendToPacketList_closeGroup
                             (PortTransmitter.set_list
                                (PortTransmitter.packetSequenceList_ tx
                                   ++ [fst (PacketSequence.appendPacket P
                                              PacketSequence.new pktHdr packet)])
                                (PortTransmitter.appendNewSequence tx));
                    Some (tx3, negb (snd (PacketSequence.appendPacket P
                                            PacketSequence.new pktHdr packet) <? 0)))).
    { unfold PortTransmitter.appendToPacketList. fold pktHdr.
      rewrite H1. cbn [mbind option_bind]. rewrite H2. reflexivity. }
    split; [exact H3|].
    split; [|exact I].
    intros Hopen. rewrite H3.
    unfold PortTransmitter.appendToPacketList_closeGroup.
    cbn [PortTransmitter.set_list PortTransmitter.appendNewSequence
         PortTransmitter.repeatSize_ PortTransmitter.packetCount_].
    rewrite Hopen. eexists. split; [reflexivity|].
    split; reflexivity.
Qed.

Lemma appendToPacketList_starts_sequence_witness :
  exists tx1 cur',
    PortTransmitter.appendToPacketList_newSequence Samples.tiny
      (PortTransmitter.makeHeader 0 300000 4) 4 Samples.onePacket = Some tx1 /\
    PortTransmitter.packetSequenceList_ tx1 !! 0%nat = Some cur' /\
    PacketSequence.usecDelay_ cur' = 300.
Proof.
  destruct (appendToPacketList_starts_sequence Samples.tiny Samples.onePacket
              0 300000 Samples.payload 4
              (Some (0%nat, Samples.firstSequence, Samples.firstHeader)))
    as (tx1 & tx2 & op & H1 & _ & _ & _ & _ & _ & _ & _ & cur' & Hc & Hd & _).
  - vm_compute. repeat split.
  - exists tx1, cur'. split; [exact H1|]. split; [exact Hc|].
    rewrite Hd. reflexivity.
Defined.

(** *** The list stays well formed *)

Lemma wellFormed_clearPacketList (tx tx' : PortTransmitter.t) :
  PortTransmitter.clearPacketList tx = Some tx' -> wellFormed tx'.
Proof.
  unfold PortTransmitter.clearPacketList.
  destruct (PortTransmitter.isRunning tx); [discriminate|].
  intros [= <-]. split; simpl; [discriminate | lia].
Qed.

Lemma wellFormed_loopNextPacketSet (P : Platform) (tx : PortTransmitter.t)
    (size repeats delaySec delayNsec : Z) :
  wellFormed (PortTransmitter.loopNextPacketSet P size repeats delaySec delayNsec tx).
Proof.
  split; simpl.
  - intros c [= <-]. rewrite length_app. simpl. lia.
  - intros _. rewrite length_app. simpl. lia.
Qed.

Lemma wellFormed_setPacketListLoopMode (tx : PortTransmitter.t) (enabled : bool)
    (returnIndex delayUsec : Z) :
  wellFormed tx ->
  wellFormed (PortTransmitter.setPacketListLoopMode enabled returnIndex delayUsec tx).
Proof. intros H. exact H. Qed.

Lemma wellFormed_appendNewSequence (tx : PortTransmitter.t) :
  (0 < PortTransmitter.repeatSize_ tx ->
   0 <= PortTransmitter.repeatSequenceStart_ tx
     < Z.of_nat (length (PortTransmitter.packetSequenceList_ tx))) ->
  wellFormed (PortTransmitter.appendNewSequence tx).
Proof.
  intros Hg. split; simpl.
  - intros c [= <-]. rewrite length_app. simpl. lia.
  - intros Hpos. rewrite length_app. simpl. specialize (Hg Hpos). lia.
Qed.

(** After the first part there is a current sequence, and the group
    counters are the same. *)
Lemma newSequence_wellFormed (P : Platform) (h : pcap_pkthdr) (length_ : Z)
    (tx tx1 : PortTransmitter.t) :
  wellFormed tx ->
  PortTransmitter.appendToPacketList_newSequence P h length_ tx = Some tx1 ->
  wellFormed tx1 /\
  (exists c, PortTransmitter.currentPacketSequence_ tx1 = Some c) /\
  PortTransmitter.repeatSize_ tx1 = PortTransmitter.repeatSize_ tx /\
  PortTransmitter.repeatSequenceStart_ tx1 = PortTransmitter.repeatSequenceStart_ tx /\
  PortTransmitter.packetCount_ tx1 = PortTransmitter.packetCount_ tx.
Proof.
  intros Hwf. pose proof Hwf as [Hc Hg].
  unfold PortTransmitter.appendToPacketList_newSequence.
  destruct (PortTransmitter.currentPacketSequence_ tx) as [c|] eqn:Ecur.
  - destruct (PortTransmitter.packetSequenceList_ tx !! c) as [cur|] eqn:El;
      cbn [mbind option_bind]; [|discriminate].
    destruct (PacketSequence.hasFreeSpace P cur _).
    + intros [= <-]. split; [exact Hwf|]. split; [eauto|]. auto.
    + destruct (PacketSequence.lastPacket_ cur) as [last|];
        cbn [mbind option_bind]; [|discriminate].
      intros [= <-]. split.
      * apply wellFormed_appendNewSequence. simpl. rewrite length_insert. exact Hg.
      * split; [simpl; eauto|]. auto.
  - intros [= <-]. split.
    + apply wellFormed_appendNewSequence. exact Hg.
    + split; [simpl; eauto|]. auto.
Qed.

Lemma newSequence_total (P : Platform) (h : pcap_pkthdr) (length_ : Z)
    (tx : PortTransmitter.t) :
  wellFormed tx -> canAppend P tx length_ ->
  exists tx1,
    PortTransmitter.appendToPacketList_newSequence P h length_ tx = Some tx1.
Proof.
  intros [Hc _] Hcan. unfold PortTransmitter.appendToPacketList_newSequence.
  destruct (PortTransmitter.currentPacketSequence_ tx) as [c|] eqn:Ecur; [|eauto].
  destruct (lookup_lt_is_Some_2 (PortTransmitter.packetSequenceList_ tx) c)
    as [cur El]; [specialize (Hc c eq_refl); lia|].
  rewrite El. cbn [mbind option_bind].
  destruct (PacketSequence.hasFreeSpace P cur _) eqn:Efree; [eauto|].
  specialize (Hcan c cur Ecur El Efree).
  destruct (PacketSequence.lastPacket_ cur); [|congruence].
  cbn [mbind option_bind]. eauto.
Qed.

(** The second part has a result when there is a current sequence; it
    changes that sequence only. *)
Lemma write_wellFormed (P : Platform) (h : pcap_pkthdr) (packet : list Byte.byte)
    (tx1 : PortTransmitter.t) (c : nat) :
  wellFormed tx1 ->
  PortTransmitter.currentPacketSequence_ tx1 = Some c ->
  exists tx2 op cur,
    PortTransmitter.appendToPacketList_write P h packet tx1 = Some (tx2, op) /\
    PortTransmitter.packetSequenceList_ tx1 !! c = Some cur /\
    PortTransmitter.packetSequenceList_ tx2
      = <[c := fst (PacketSequence.appendPacket P cur h packet)]>
          (PortTransmitter.packetSequenceList_ tx1) /\
    wellFormed tx2 /\
    PortTransmitter.currentPacketSequence_ tx2 = Some c /\
    PortTransmitter.repeatSize_ tx2 = PortTransmitter.repeatSize_ tx1 /\
    PortTransmitter.repeatSequenceStart_ tx2 = PortTransmitter.repeatSequenceStart_ tx1 /\
    PortTransmitter.packetCount_ tx2 = PortTransmitter.packetCount_ tx1.
Proof.
  intros [Hc Hg] Ecur. unfold PortTransmitter.appendToPacketList_write.
  rewrite Ecur. cbn [mbind option_bind].
  destruct (lookup_lt_is_Some_2 (PortTransmitter.packetSequenceList_ tx1) c)
    as [cur El]; [specialize (Hc c Ecur); lia|].
  rewrite El. cbn [mbind option_bind].
  eexists _, _, cur. split; [reflexivity|]. split; [reflexivity|].
  split; [reflexivity|]. split.
  - split; simpl; rewrite length_insert; assumption.
  - simpl. auto.
Qed.

(** The third part on a well-formed transmitter whose packet count reaches
    the size of the open group. *)
Lemma closeGroup_closes (tx2 : PortTransmitter.t) (c : nat) :
  wellFormed tx2 ->
  PortTransmitter.currentPacketSequence_ tx2 = Some c ->
  0 < PortTransmitter.repeatSize_ tx2 ->
  PortTransmitter.packetCount_ tx2 + 1 = PortTransmitter.repeatSize_ tx2 ->
  let l := PortTransmitter.packetSequenceList_ tx2 in
  let si := Z.to_nat (PortTransmitter.repeatSequenceStart_ tx2) in
  exists tx' start cur,
    PortTransmitter.appendToPacketList_closeGroup tx2 = Some tx' /\
    l !! si = Some start /\ l !! c = Some cur /\
    (si <= c)%nat /\ S c = length l /\
    PortTransmitter.packetSequenceList_ tx'
      = (if decide (c = si) then l
         else <[si := PacketSequence.set_repeatSize
                        (Z.of_nat (length l) - PortTransmitter.repeatSequenceStart_ tx2)
                        (PacketSequence.set_usecDelay 0 start)]>
                (<[c := PacketSequence.set_usecDelay
                          (PacketSequence.usecDelay_ start) cur]> l)) /\
    PortTransmitter.repeatSize_ tx' = 0 /\
    PortTransmitter.currentPacketSequence_ tx' = None /\
    PortTransmitter.packetCount_ tx' = PortTransmitter.packetCount_ tx2 + 1 /\
    PortTransmitter.repeatSequenceStart_ tx' = PortTransmitter.repeatSequenceStart_ tx2.
Proof.
  intros [Hc Hg] Ecur Hpos Hcount l si.
  specialize (Hc c Ecur). specialize (Hg Hpos). fold l in Hc, Hg.
  destruct (lookup_lt_is_Some_2 l si) as [start Es]; [subst si; lia|].
  destruct (lookup_lt_is_Some_2 l c) as [cur El]; [lia|].
  exists
    {| PortTransmitter.packetSequenceList_ :=
         if decide (c = si) then l
         else <[si := PacketSequence.set_repeatSize
                        (Z.of_nat (length l) - PortTransmitter.repeatSequenceStart_ tx2)
                        (PacketSequence.set_usecDelay 0 start)]>
                (<[c := PacketSequence.set_usecDelay
                          (PacketSequence.usecDelay_ start) cur]> l);
       PortTransmitter.currentPacketSequence_ := None;
       PortTransmitter.repeatSequenceStart_ := PortTransmitter.repeatSequenceStart_ tx2;
       PortTransmitter.repeatSize_ := 0;
       PortTransmitter.packetCount_ := PortTransmitter.packetCount_ tx2 + 1;
       PortTransmitter.returnToQIdx_ := PortTransmitter.returnToQIdx_ tx2;
       PortTransmitter.loopDelay_ := PortTransmitter.loopDelay_ tx2;
       PortTransmitter.state_ := PortTransmitter.state_ tx2;
       PortTransmitter.stop_ := PortTransmitter.stop_ tx2;
       PortTransmitter.stats_ := PortTransmitter.stats_ tx2 |}, start, cur.
  split.
  - unfold PortTransmitter.appendToPacketList_closeGroup. fold l. fold si.
    replace (0 <? PortTransmitter.repeatSize_ tx2) with true
      by (symmetry; apply Z.ltb_lt; lia).
    replace (PortTransmitter.packetCount_ tx2 + 1 =? PortTransmitter.repeatSize_ tx2)
      with true by (symmetry; apply Z.eqb_eq; lia).
    replace (0 <=? PortTransmitter.repeatSequenceStart_ tx2) with true
      by (symmetry; apply Z.leb_le; lia).
    replace (PortTransmitter.repeatSequenceStart_ tx2 <? Z.of_nat (length l))
      with true by (symmetry; apply Z.ltb_lt; lia).
    cbn [andb]. rewrite Es. cbn [mbind option_bind]. rewrite Ecur.
    cbn [mbind option_bind]. rewrite El. reflexivity.
  - split; [exact Es|]. split; [exact El|].
    split; [subst si; lia|]. split; [exact Hc|]. simpl. auto.
Qed.

Lemma closeGroup_wellFormed (tx2 : PortTransmitter.t) (c : nat) :
  wellFormed tx2 ->
  PortTransmitter.currentPacketSequence_ tx2 = Some c ->
  exists tx3,
    PortTransmitter.appendToPacketList_closeGroup tx2 = Some tx3 /\ wellFormed tx3.
Proof.
  intros Hwf Ecur.
  destruct ((0 <? PortTransmitter.repeatSize_ tx2)
            && (PortTransmitter.packetCount_ tx2 + 1 =? PortTransmitter.repeatSize_ tx2))
    eqn:Econd.
  - apply andb_prop in Econd as [Hpos Hcount].
    apply Z.ltb_lt in Hpos. apply Z.eqb_eq in Hcount.
    destruct (closeGroup_closes tx2 c Hwf Ecur Hpos Hcount)
      as (tx' & start & cur & H & _ & _ & _ & _ & _ & Hrs & Hcur & _).
    exists tx'. split; [exact H|]. split.
    + rewrite Hcur. discriminate.
    + rewrite Hrs. lia.
  - unfold PortTransmitter.appendToPacketList_closeGroup. rewrite Econd.
    eexists. split; [reflexivity|]. exact Hwf.
Qed.

Lemma appendToPacketList_wellFormed (P : Platform) (sec nsec : Z)
    (packet : list Byte.byte) (length_ : Z) (tx tx' : PortTransmitter.t) (op : bool) :
  wellFormed tx ->
  PortTransmitter.appendToPacketList P sec nsec packet length_ tx = Some (tx', op) ->
  wellFormed tx'.
Proof.
  intros Hwf. unfold PortTransmitter.appendToPacketList.
  destruct (PortTransmitter.appendToPacketList_newSequence P _ length_ tx)
    as [tx1|] eqn:E1; cbn [mbind option_bind]; [|discriminate].
  destruct (newSequence_wellFormed P _ length_ tx tx1 Hwf E1)
    as (Hwf1 & [c Ecur] & _).
  destruct (write_wellFormed P (PortTransmitter.makeHeader sec nsec length_)
              packet tx1 c Hwf1 Ecur)
    as (tx2 & op2 & cur & E2 & _ & _ & Hwf2 & Ecur2 & _).
  rewrite E2. cbn [mbind option_bind fst snd].
  destruct (closeGroup_wellFormed tx2 c Hwf2 Ecur2) as (tx3 & E3 & Hwf3).
  rewrite E3. cbn [mbind option_bind]. intros [= <- _]. exact Hwf3.
Qed.

Lemma built_wellFormed (P : Platform) (tx : PortTransmitter.t) :
  built P tx -> wellFormed tx.
Proof.
  induction 1 as [tx tx' Hclear | tx size repeats ds dn _ _
                 | tx sec nsec packet length_ tx' op _ IH Happ
                 | tx enabled ri du _ IH].
  - eapply wellFormed_clearPacketList; eassumption.
  - apply wellFormed_loopNextPacketSet.
  - eapply appendToPacketList_wellFormed; eassumption.
  - apply wellFormed_setPacketListLoopMode, IH.
Qed.

(** *** The end of a repeat group *)

(** C5, as stated, fails: when the packet that completes a repeat group is
    appended, the group packet counter is not reset; it keeps the value it
    has reached. *)
Lemma appendToPacketList_keeps_packetCount :
  0 < PortTransmitter.repeatSize_ Samples.groupOfOne /\
  PortTransmitter.packetCount_ Samples.groupOfOne + 1
    = PortTransmitter.repeatSize_ Samples.groupOfOne /\
  exists tx' op,
    PortTransmitter.appendToPacketList Samples.linux64 0 0 Samples.payload 4
      Samples.groupOfOne = Some (tx', op) /\
    PortTransmitter.currentPacketSequence_ tx' = None /\
    PortTransmitter.packetCount_ tx' <> 0.
Proof.
  split; [reflexivity|]. split; [reflexivity|].
  eexists _, _. split; [vm_compute; reflexivity|]. split; [reflexivity|].
  discriminate.
Qed.

(** C5, amended: on a transmitter built by the construction calls, with a
    repeat group open ([repeatSize_ > 0]), when [appendToPacketList] brings
    [packetCount_] to [repeatSize_] the group is closed.  If the current
    sequence is not the start sequence of the group, the [usecDelay] of the
    start sequence goes to the current sequence, the start sequence gets
    [usecDelay] 0 and [repeatSize = list.size - groupStart], and no other
    sequence changes; so a start sequence closed by that branch has
    [1 <= repeatSize <= listLen - groupStart].  If the current sequence is
    the start sequence, the list is left as it is.  Afterwards the group
    size [repeatSize_] is 0 and the current sequence is closed;
    [packetCount_] keeps the value it has reached. *)
Theorem appendToPacketList_closes_group (P : Platform) (tx : PortTransmitter.t)
    (sec nsec : Z) (packet : list Byte.byte) (length_ : Z) :
  built P tx ->
  canAppend P tx length_ ->
  0 < PortTransmitter.repeatSize_ tx ->
  PortTransmitter.packetCount_ tx + 1 = PortTransmitter.repeatSize_ tx ->
  let pktHdr := PortTransmitter.makeHeader sec nsec length_ in
  let groupStart := PortTransmitter.repeatSequenceStart_ tx in
  let si := Z.to_nat groupStart in
  exists tx1 tx2 tx' op c start cur,
    PortTransmitter.appendToPacketList P sec nsec packet length_ tx = Some (tx', op) /\
    PortTransmitter.appendToPacketList_newSequence P pktHdr length_ tx = Some tx1 /\
    PortTransmitter.appendToPacketList_write P pktHdr packet tx1 = Some (tx2, op) /\
    PortTransmitter.appendToPacketList_closeGroup tx2 = Some tx' /\
    PortTransmitter.currentPacketSequence_ tx2 = Some c /\
    PortTransmitter.packetSequenceList_ tx2 !! si = Some start /\
    PortTransmitter.packetSequenceList_ tx2 !! c = Some cur /\
    let l2 := PortTransmitter.packetSequenceList_ tx2 in
    let l' := PortTransmitter.packetSequenceList_ tx' in
    let listLen := Z.of_nat (length l') in
    length l' = length l2 /\
    (c <> si ->
       l' !! c = Some (PacketSequence.set_usecDelay (PacketSequence.usecDelay_ start) cur) /\
       l' !! si = Some (PacketSequence.set_repeatSize (listLen - groupStart)
                          (PacketSequence.set_usecDelay 0 start)) /\
       (forall s, l' !! si = Some s ->
          PacketSequence.usecDelay_ s = 0 /\
          1 <= PacketSequence.repeatSize_ s <= listLen - groupStart) /\
       (forall i, i <> c -> i <> si -> l' !! i = l2 !! i)) /\
    (c = si -> l' = l2) /\
    PortTransmitter.repeatSize_ tx' = 0 /\
    PortTransmitter.currentPacketSequence_ tx' = None /\
    PortTransmitter.packetCount_ tx' = PortTransmitter.packetCount_ tx + 1.
Proof.
  intros Hb Hcan Hpos Hcount pktHdr groupStart si.
  pose proof (built_wellFormed P tx Hb) as Hwf.
  destruct (newSequence_total P pktHdr length_ tx Hwf Hcan) as [tx1 E1].
  destruct (newSequence_wellFormed P pktHdr length_ tx tx1 Hwf E1)
    as (Hwf1 & [c Ecur] & Hrs1 & Hst1 & Hpc1).
  destruct (write_wellFormed P pktHdr packet tx1 c Hwf1 Ecur)
    as (tx2 & op & cur1 & E2 & _ & _ & Hwf2 & Ecur2 & Hrs2 & Hst2 & Hpc2).
  destruct (closeGroup_closes tx2 c Hwf2 Ecur2) as
    (tx' & start & cur & E3 & Es & El & Hle & Hlen & Hl' & Hrs' & Hcur' & Hpc' & _);
    [lia | lia |].
  assert (Hsi : Z.to_nat (PortTransmitter.repeatSequenceStart_ tx2) = si)
    by (subst si groupStart; congruence).
  rewrite Hsi in *.
  assert (Hgs : PortTransmitter.repeatSequenceStart_ tx2 = groupStart)
    by (subst groupStart; congruence).
  rewrite Hgs in *.
  exists tx1, tx2, tx', op, c, start, cur.
  split.
  { unfold PortTransmitter.appendToPacketList. fold pktHdr. rewrite E1.
    cbn [mbind option_bind]. rewrite E2. cbn [mbind option_bind fst snd].
    rewrite E3. reflexivity. }
  split; [exact E1|]. split; [exact E2|]. split; [exact E3|].
  split; [exact Ecur2|]. split; [exact Es|]. split; [exact El|].
  cbv zeta.
  assert (Hlen' : length (PortTransmitter.packetSequenceList_ tx')
                  = length (PortTransmitter.packetSequenceList_ tx2)).
  { rewrite Hl'. destruct (decide (c = si)); [reflexivity|].
    rewrite !length_insert. reflexivity. }
  split; [exact Hlen'|].
  assert (Hc_lt : (c < length (PortTransmitter.packetSequenceList_ tx2))%nat) by lia.
  assert (Hs_lt : (si < length (PortTransmitter.packetSequenceList_ tx2))%nat) by lia.
  split.
  { intros Hne. rewrite Hlen'. rewrite Hl'.
    destruct (decide (c = si)) as [Heq|_]; [contradiction|].
    assert (Hat_c :
      <[si := PacketSequence.set_repeatSize
                (Z.of_nat (length (PortTransmitter.packetSequenceList_ tx2)) - groupStart)
                (PacketSequence.set_usecDelay 0 start)]>
        (<[c := PacketSequence.set_usecDelay (PacketSequence.usecDelay_ start) cur]>
           (PortTransmitter.packetSequenceList_ tx2)) !! c
      = Some (PacketSequence.set_usecDelay (PacketSequence.usecDelay_ start) cur)).
    { rewrite list_lookup_insert_ne by congruence.
      apply list_lookup_insert_eq. exact Hc_lt. }
    assert (Hat_s :
      <[si := PacketSequence.set_repeatSize
                (Z.of_nat (length (PortTransmitter.packetSequenceList_ tx2)) - groupStart)
                (PacketSequence.set_usecDelay 0 start)]>
        (<[c := PacketSequence.set_usecDelay (PacketSequence.usecDelay_ start) cur]>
           (PortTransmitter.packetSequenceList_ tx2)) !! si
      = Some (PacketSequence.set_repeatSize
                (Z.of_nat (length (PortTransmitter.packetSequenceList_ tx2)) - groupStart)
                (PacketSequence.set_usecDelay 0 start))).
    { apply list_lookup_insert_eq. rewrite length_insert. exact Hs_lt. }
    split; [exact Hat_c|]. split; [exact Hat_s|]. split.
    - intros s Hs. rewrite Hat_s in Hs. injection Hs as <-. simpl.
      split; [reflexivity|]. subst groupStart si. lia.
    - intros i Hic His. rewrite !list_lookup_insert_ne by congruence. reflexivity. }
  split.
  { intros Heq. rewrite Hl'. destruct (decide (c = si)); [reflexivity|contradiction]. }
  split; [exact Hrs'|]. split; [exact Hcur'|]. lia.
Qed.

Lemma appendToPacketList_closes_group_witness :
  exists tx' op,
    PortTransmitter.appendToPacketList Samples.tiny 0 50000 Samples.payload 4
      Samples.groupHalf = Some (tx', op) /\
    PortTransmitter.repeatSize_ tx' = 0 /\
    PortTransmitter.currentPacketSequence_ tx' = None.
Proof.
  destruct (appendToPacketList_closes_group Samples.tiny Samples.groupHalf
              0 50000 Samples.payload 4)
    as (tx1 & tx2 & tx' & op & c & start & cur & H & _ & _ & _ & _ & _ & _
        & _ & _ & _ & Hrs & Hcur & _).
  - apply (built_append Samples.tiny Samples.groupOpen 0 0 Samples.payload 4
             Samples.groupHalf true); [|reflexivity].
    apply (built_loop Samples.tiny Samples.idle 2 3 0 1000000).
    apply (built_clear Samples.tiny Samples.idle Samples.idle). reflexivity.
  - intros c cur Hc Hl _. vm_compute in Hc. injection Hc as <-.
    vm_compute in Hl. injection Hl as <-. discriminate.
  - reflexivity.
  - reflexivity.
  - exists tx', op. split; [exact H|]. split; [exact Hrs | exact Hcur].
Defined.

(** ** The replay *)

(** *** Two executions that the assertions and the counters do not expect *)

(** C3: the counters of [sendQueueTransmit] do not follow the result of
    [pcap_sendpacket].  Two packets are sent and the first send fails: the
    run counts two packets and eight bytes, one send of four bytes has
    succeeded. *)
Theorem run_counts_failed_send :
  exists w,
    PortTransmitter.run Samples.linux64 3
      (PortTransmitter.boot Samples.twoPackets Samples.firstSendFails)
      = PortTransmitter.Returned w /\
    txPkts (PortTransmitter.stats_ (PortTransmitter.tx_ w)) = 2 /\
    sendsOk (PortTransmitter.trace_ w) = 1 /\
    txBytes (PortTransmitter.stats_ (PortTransmitter.tx_ w)) = 8 /\
    bytesOk (PortTransmitter.trace_ w) = 4.
Proof. eexists. split; [vm_compute; reflexivity|]. repeat split. Qed.

(** C2: the overhead is positive at the assertion of the fast path when the
    batch send takes less time than the sequence lasts.  On Win32, the batch
    send of a sequence of one millisecond answers after 400 microseconds
    with a result that is not negative: [Q_ASSERT(overHead <= 0)] meets
    600. *)
Theorem run_fast_path_positive_overHead :
  exists w,
    PortTransmitter.run Samples.win32 3
      (PortTransmitter.boot Samples.win32Pair Samples.fastKernel)
      = PortTransmitter.Returned w /\
    assertedOverHeads (PortTransmitter.trace_ w) = [600] /\
    ~ Forall (fun v => v <= 0) (assertedOverHeads (PortTransmitter.trace_ w)).
Proof.
  eexists. split; [vm_compute; reflexivity|]. split; [reflexivity|].
  intros H. simpl in H. apply Forall_inv in H. lia.
Qed.

(** *** What the calls leave in the trace *)

Lemma seqEvents_app (a b : list PortTransmitter.Event) :
  seqEvents (a ++ b) = seqEvents a ++ seqEvents b.
Proof. apply omap_app. Qed.

Lemma silent_refl (w : PortTransmitter.World) : silent w w.
Proof. exists []. split; [symmetry; apply app_nil_r | reflexivity]. Qed.

Lemma silent_trans (a b c : PortTransmitter.World) :
  silent a b -> silent b c -> silent a c.
Proof.
  intros (e1 & H1 & S1) (e2 & H2 & S2). exists (e1 ++ e2). split.
  - rewrite H2, H1. symmetry. apply app_assoc.
  - rewrite seqEvents_app, S1, S2. reflexivity.
Qed.

Lemma silent_same_trace (w w' : PortTransmitter.World) :
  PortTransmitter.trace_ w' = PortTransmitter.trace_ w -> silent w w'.
Proof. intros H. exists []. split; [rewrite H; symmetry; apply app_nil_r | reflexivity]. Qed.

Lemma silent_log (e : PortTransmitter.Event) (w : PortTransmitter.World) :
  seqEvents [e] = [] -> silent w (PortTransmitter.log e w).
Proof. intros H. exists [e]. split; [reflexivity | exact H]. Qed.

Lemma silent_seqEvents (w w' : PortTransmitter.World) :
  silent w w' ->
  seqEvents (PortTransmitter.trace_ w') = seqEvents (PortTransmitter.trace_ w).
Proof.
  intros (evs & H & S). rewrite H, seqEvents_app, S. apply app_nil_r.
Qed.

Lemma silent_noFail (w w' : PortTransmitter.World) :
  silent w w' -> noFail (PortTransmitter.trace_ w) -> noFail (PortTransmitter.trace_ w').
Proof. intros H. unfold noFail. rewrite (silent_seqEvents w w' H). auto. Qed.

Lemma getTimeStamp_silent (P : Platform) (w w' : PortTransmitter.World)
    (t : PortTransmitter.TimeStamp) :
  PortTransmitter.getTimeStamp P w = (t, w') -> silent w w'.
Proof.
  unfold PortTransmitter.getTimeStamp.
  destruct (os P); intros [= _ <-]; apply silent_same_trace; reflexivity.
Qed.

Lemma readStop_silent (w w' : PortTransmitter.World) (b : bool) :
  PortTransmitter.readStop w = (b, w') -> silent w w'.
Proof. intros [= _ <-]. apply silent_same_trace. reflexivity. Qed.

Lemma pcap_sendpacket_silent (n r : Z) (w w' : PortTransmitter.World) :
  PortTransmitter.pcap_sendpacket n w = (r, w') -> silent w w'.
Proof.
  intros [= _ <-]. eexists. split; [reflexivity | reflexivity].
Qed.

Lemma pcap_sendqueue_transmit_silent (r : Z) (w w' : PortTransmitter.World) :
  PortTransmitter.pcap_sendqueue_transmit w = (r, w') -> silent w w'.
Proof.
  intros [= _ <-]. eexists. split; [reflexivity | reflexivity].
Qed.

Lemma waitOrOwe_silent (u oh : Z) (w w' : PortTransmitter.World) :
  PortTransmitter.waitOrOwe u w = (oh, w') -> silent w w'.
Proof.
  unfold PortTransmitter.waitOrOwe. destruct (0 <? u); intros [= _ <-].
  - apply silent_log. reflexivity.
  - apply silent_refl.
Qed.

(** After a wait the overhead is never positive. *)
Lemma waitOrOwe_nonpositive (u oh : Z) (w w' : PortTransmitter.World) :
  PortTransmitter.waitOrOwe u w = (oh, w') -> oh <= 0.
Proof.
  unfold PortTransmitter.waitOrOwe. destruct (0 <? u) eqn:E; intros [= <- _].
  - lia.
  - apply Z.ltb_ge in E. exact E.
Qed.

Lemma sendQueueTransmit_loop_silent (P : Platform) (queue : list QueueRecord) :
  forall (sync : Z) (ts0 : timeval) (ovrStart : PortTransmitter.TimeStamp)
         (overHead : Z) (w : PortTransmitter.World) ret overHead' w',
    PortTransmitter.sendQueueTransmit_loop P queue sync ts0 ovrStart overHead w
      = (ret, overHead', w') ->
    silent w w'.
Proof.
  induction queue as [|[hdr pkt] rest IH]; intros sync ts0 ovrStart overHead w ret oh' w' H.
  - injection H as _ _ <-. apply silent_refl.
  - cbn [PortTransmitter.sendQueueTransmit_loop] in H.
    destruct (sync =? 0).
    + destruct (PortTransmitter.pcap_sendpacket _ w) as [r w2] eqn:E2.
      destruct (PortTransmitter.readStop _) as [stop w4] eqn:E4.
      apply pcap_sendpacket_silent in E2. apply readStop_silent in E4.
      assert (Hs : silent w w4).
      { eapply silent_trans; [exact E2|]. eapply silent_trans; [|exact E4].
        apply silent_same_trace. reflexivity. }
      destruct stop.
      * injection H as _ _ <-. exact Hs.
      * eapply silent_trans; [exact Hs|]. eapply IH. exact H.
    + destruct (PortTransmitter.getTimeStamp P w) as [ovrEnd wa] eqn:Ea.
      destruct (PortTransmitter.waitOrOwe _ _) as [oh2 wc] eqn:Ec.
      destruct (PortTransmitter.getTimeStamp P wc) as [ovrStart' wd] eqn:Ed.
      destruct (PortTransmitter.pcap_sendpacket _ wd) as [r w2] eqn:E2.
      destruct (PortTransmitter.readStop _) as [stop w4] eqn:E4.
      apply getTimeStamp_silent in Ea, Ed. apply waitOrOwe_silent in Ec.
      apply pcap_sendpacket_silent in E2. apply readStop_silent in E4.
      assert (Hs : silent w w4).
      { eapply silent_trans; [exact Ea|].
        eapply silent_trans; [|eapply silent_trans; [exact Ec|]];
          [apply silent_log; reflexivity|].
        eapply silent_trans; [exact Ed|].
        eapply silent_trans; [exact E2|]. eapply silent_trans; [|exact E4].
        apply silent_same_trace. reflexivity. }
      destruct stop.
      * injection H as _ _ <-. exact Hs.
      * eapply silent_trans; [exact Hs|]. eapply IH. exact H.
Qed.

Lemma sendQueueTransmit_silent (P : Platform) (queue : list QueueRecord)
    (overHead sync : Z) (w : PortTransmitter.World) ret overHead' w' :
  PortTransmitter.sendQueueTransmit P queue overHead sync w = (ret, overHead', w') ->
  silent w w'.
Proof.
  unfold PortTransmitter.sendQueueTransmit.
  destruct (PortTransmitter.getTimeStamp P w) as [ovrStart w1] eqn:E1.
  intros H. apply getTimeStamp_silent in E1.
  eapply silent_trans; [exact E1|].
  eapply sendQueueTransmit_loop_silent. exact H.
Qed.

Lemma transmit_silent (P : Platform) (seq : PacketSequence.t) (overHead : Z)
    (w : PortTransmitter.World) ret overHead' w' :
  PortTransmitter.transmit P seq overHead w = (ret, overHead', w') -> silent w w'.
Proof.
  unfold PortTransmitter.transmit.
  destruct (os P); try apply sendQueueTransmit_silent.
  destruct (PacketSequence.usecDuration_ seq <=? usecPerSec);
    [|apply sendQueueTransmit_silent].
  destruct (PortTransmitter.getTimeStamp P w) as [ovrStart w1] eqn:E1.
  destruct (PortTransmitter.pcap_sendqueue_transmit w1) as [r w2] eqn:E2.
  apply getTimeStamp_silent in E1. apply pcap_sendqueue_transmit_silent in E2.
  destruct (0 <=? r).
  - destruct (PortTransmitter.getTimeStamp P _) as [ovrEnd wb] eqn:Eb.
    destruct (PortTransmitter.readStop _) as [stop w4] eqn:E4.
    apply getTimeStamp_silent in Eb. apply readStop_silent in E4.
    intros [= _ _ <-].
    eapply silent_trans; [exact E1|]. eapply silent_trans; [exact E2|].
    eapply silent_trans; [|exact E4].
    eapply silent_trans; [|apply silent_log; reflexivity].
    eapply silent_trans; [|exact Eb]. apply silent_same_trace. reflexivity.
  - destruct (PortTransmitter.readStop _) as [stop w4] eqn:E4.
    apply readStop_silent in E4. intros [= _ _ <-].
    eapply silent_trans; [exact E1|]. eapply silent_trans; [exact E2|]. exact E4.
Qed.

(** *** One sequence transmitted, then its delay *)

Lemma transmitAndWait_Next (P : Platform) (l : list PacketSequence.t)
    (idx overHead : Z) (w : PortTransmitter.World) oh' w' :
  PortTransmitter.transmitAndWait P l idx overHead w = PortTransmitter.Next oh' w' ->
  exists ret,
    0 <= ret /\ oh' <= 0 /\
    seqEvents (PortTransmitter.trace_ w')
      = seqEvents (PortTransmitter.trace_ w) ++ [(idx, ret)].
Proof.
  unfold PortTransmitter.transmitAndWait.
  destruct (PortTransmitter.at_ l idx) as [seq|]; [|discriminate].
  destruct (PortTransmitter.transmit P seq overHead w) as [[ret oh1] w1] eqn:Et.
  apply transmit_silent in Et.
  destruct (0 <=? ret) eqn:Eret; [|discriminate].
  destruct (PortTransmitter.waitOrOwe _ _) as [oh2 w3] eqn:Ew.
  intros [= <- <-]. exists ret. split; [apply Z.leb_le; exact Eret|].
  split; [eapply waitOrOwe_nonpositive; exact Ew|].
  apply waitOrOwe_silent in Ew.
  rewrite (silent_seqEvents _ _ Ew). cbn [PortTransmitter.log PortTransmitter.trace_].
  rewrite seqEvents_app, (silent_seqEvents _ _ Et). reflexivity.
Qed.

Lemma transmitAndWait_ok (P : Platform) (l : list PacketSequence.t)
    (idx overHead : Z) (w : PortTransmitter.World) :
  noFail (PortTransmitter.trace_ w) ->
  flowOk (PortTransmitter.transmitAndWait P l idx overHead w).
Proof.
  intros Hw.
  destruct (PortTransmitter.transmitAndWait P l idx overHead w) as [oh' w'|w'|w'] eqn:E.
  - destruct (transmitAndWait_Next P l idx overHead w oh' w' E) as (ret & Hret & _ & Hs).
    simpl. unfold noFail. rewrite Hs. apply Forall_app. split; [exact Hw|].
    constructor; [exact Hret | constructor].
  - unfold PortTransmitter.transmitAndWait in E.
    destruct (PortTransmitter.at_ l idx) as [seq|]; [|discriminate].
    destruct (PortTransmitter.transmit P seq overHead w) as [[ret oh1] w1] eqn:Et.
    apply transmit_silent in Et.
    destruct (0 <=? ret) eqn:Eret.
    + destruct (PortTransmitter.waitOrOwe _ _); discriminate.
    + injection E as <-. simpl. exists (PortTransmitter.trace_ w1), idx, ret.
      split; [reflexivity|]. split; [eapply silent_noFail; eassumption|].
      split; [apply Z.leb_gt; exact Eret | reflexivity].
  - unfold PortTransmitter.transmitAndWait in E.
    destruct (PortTransmitter.at_ l idx) as [seq|].
    + destruct (PortTransmitter.transmit P seq overHead w) as [[ret oh1] w1].
      destruct (0 <=? ret); [destruct (PortTransmitter.waitOrOwe _ _)|]; discriminate.
    + injection E as <-. exact Hw.
Qed.

Lemma forK_ok (P : Platform) (l : list PacketSequence.t) (i : Z) (n : nat) :
  forall (k overHead : Z) (w : PortTransmitter.World),
    noFail (PortTransmitter.trace_ w) ->
    flowOk (PortTransmitter.forK P n l i k overHead w).
Proof.
  induction n as [|n IH]; intros k overHead w Hw; [exact Hw|].
  cbn [PortTransmitter.forK].
  pose proof (transmitAndWait_ok P l (to_int (i + k)) overHead w Hw) as Hstep.
  destruct (PortTransmitter.transmitAndWait P l (to_int (i + k)) overHead w)
    as [oh1 w1|w1|w1]; [apply IH; exact Hstep | exact Hstep | exact Hstep].
Qed.

Lemma forJ_ok (P : Platform) (l : list PacketSequence.t) (i rptSz : Z) (n : nat) :
  forall (overHead : Z) (w : PortTransmitter.World),
    noFail (PortTransmitter.trace_ w) ->
    flowOk (PortTransmitter.forJ P n l i rptSz overHead w).
Proof.
  induction n as [|n IH]; intros overHead w Hw; [exact Hw|].
  cbn [PortTransmitter.forJ].
  pose proof (forK_ok P l i (Z.to_nat rptSz) 0 overHead w Hw) as Hstep.
  destruct (PortTransmitter.forK P (Z.to_nat rptSz) l i 0 overHead w)
    as [oh1 w1|w1|w1]; [apply IH; exact Hstep | exact Hstep | exact Hstep].
Qed.

Lemma exit_ok (w : PortTransmitter.World) :
  noFail (PortTransmitter.trace_ w) \/ aborted w ->
  outcomeOk (PortTransmitter.exit_ w).
Proof.
  intros H. simpl. split; [reflexivity|]. exists w.
  split; [reflexivity|]. split; [reflexivity | exact H].
Qed.

Lemma restart_ok (P : Platform) (fuel : nat) :
  forall (i overHead : Z) (w : PortTransmitter.World),
    noFail (PortTransmitter.trace_ w) ->
    outcomeOk (PortTransmitter.restart P fuel i overHead w).
Proof.
  induction fuel as [|fuel IH]; intros i overHead w Hw; [exact Hw|].
  cbn [PortTransmitter.restart].
  destruct (PortTransmitter.at_ _ i) as [first|]; [|exact Hw].
  pose proof (forJ_ok P (PortTransmitter.packetSequenceList_ (PortTransmitter.tx_ w))
                i (to_int (PacketSequence.repeatSize_ first))
                (Z.to_nat (to_int (PacketSequence.repeatCount_ first)))
                overHead w Hw) as Hgroup.
  destruct (PortTransmitter.forJ P _ _ i _ overHead w) as [oh1 w1|w1|w1].
  - destruct (_ <? _); [apply IH; exact Hgroup|].
    destruct (0 <=? _).
    + destruct (PortTransmitter.waitOrOwe _ w1) as [oh2 w2] eqn:Ew.
      apply IH. eapply silent_noFail; [|exact Hgroup].
      eapply waitOrOwe_silent. exact Ew.
    + apply exit_ok. left. exact Hgroup.
  - apply exit_ok. right. exact Hgroup.
  - exact Hgroup.
Qed.

Lemma run_ok (P : Platform) (fuel : nat) (tx : PortTransmitter.t)
    (o : PortTransmitter.Oracle) :
  outcomeOk (PortTransmitter.run P fuel (PortTransmitter.boot tx o)).
Proof.
  unfold PortTransmitter.run. destruct (_ <=? 0).
  - apply exit_ok. left. constructor.
  - apply restart_ok. constructor.
Qed.

(** A trace has one place for an event that nothing else in it is like. *)
Lemma split_unique {A} (Q : A -> Prop) (pre post tr tl : list A) (x y : A) :
  pre ++ x :: post = tr ++ y :: tl ->
  Q x -> Forall (fun z => ~ Q z) tr -> Forall (fun z => ~ Q z) tl ->
  pre = tr /\ x = y /\ post = tl.
Proof.
  revert tr. induction pre as [|a pre IH]; intros [|b tr] Heq Hx Htr Htl.
  - injection Heq as -> ->. auto.
  - injection Heq as -> _. apply Forall_inv in Htr. contradiction.
  - injection Heq as -> Heq. exfalso.
    rewrite Forall_forall in Htl. apply (Htl x); [|exact Hx].
    rewrite <- Heq. apply list_elem_of_In, in_elt.
  - injection Heq as -> Heq. apply Forall_inv_tail in Htr.
    destruct (IH tr Heq Hx Htr Htl) as (-> & -> & ->). auto.
Qed.

Lemma noFail_no_failedSequence (tr : list PortTransmitter.Event) :
  noFail tr -> Forall (fun e => ~ failedSequence e) tr.
Proof.
  unfold noFail. induction tr as [|e tr IH]; intros H; [constructor|].
  destruct e; simpl in H; try (constructor; [intros (i & r & [=] & _) | apply IH; exact H]).
  constructor.
  - intros (i & r & [= -> ->] & Hr). apply Forall_inv in H. simpl in H. lia.
  - apply IH. eapply Forall_inv_tail. exact H.
Qed.

(** *** A transmission that fails *)

(** C7: whenever a sequence transmission of the replay ends with a negative
    result, [run] has returned, and the only thing it has done after that
    transmission is the write of [kFinished] to [state_]: no other sequence
    is transmitted, no repeat iteration and no pass of the outer loop
    follows.  The transmissions before it had all succeeded.  [stop_] is
    cleared, [state_] is [kFinished], [isRunning] is false; the worker has
    returned normally. *)
Theorem run_error_aborts (P : Platform) (fuel : nat) (tx : PortTransmitter.t)
    (o : PortTransmitter.Oracle) (pre post : list PortTransmitter.Event)
    (idx ret : Z) :
  let out := PortTransmitter.run P fuel (PortTransmitter.boot tx o) in
  let w := PortTransmitter.outcomeWorld out in
  PortTransmitter.trace_ w = pre ++ PortTransmitter.EvSequence idx ret :: post ->
  ret < 0 ->
  out = PortTransmitter.Returned w /\
  post = [PortTransmitter.EvState kFinished] /\
  noFail pre /\
  PortTransmitter.state_ (PortTransmitter.tx_ w) = kFinished /\
  PortTransmitter.isRunning (PortTransmitter.tx_ w) = false /\
  PortTransmitter.stop_ (PortTransmitter.tx_ w) = false.
Proof.
  intros out w Htr Hret.
  assert (Hq : failedSequence (PortTransmitter.EvSequence idx ret))
    by (exists idx, ret; auto).
  assert (Hclean : forall tr, noFail tr ->
            tr = pre ++ PortTransmitter.EvSequence idx ret :: post -> False).
  { intros tr Hn ->. apply noFail_no_failedSequence in Hn.
    apply Forall_app in Hn as [_ Hn]. apply Forall_inv in Hn. contradiction. }
  pose proof (run_ok P fuel tx o) as Hok. fold out in Hok.
  subst w. destruct out as [w|w|w]; cbn [PortTransmitter.outcomeWorld] in *.
  - destruct Hok as (Hstate & w0 & Hw & Hstop & [Hn | (tr & i' & r' & Ht & Hn & Hr & Hs)]).
    + exfalso. apply (Hclean (PortTransmitter.trace_ w)); [|exact Htr].
      rewrite Hw. unfold noFail. rewrite seqEvents_app. simpl.
      rewrite app_nil_r. exact Hn.
    + rewrite Hw, Ht, <- app_assoc in Htr. simpl in Htr. symmetry in Htr.
      destruct (split_unique failedSequence pre post tr
                  [PortTransmitter.EvState kFinished] _ _ Htr Hq)
        as (-> & _ & ->).
      * apply noFail_no_failedSequence. exact Hn.
      * constructor; [|constructor]. intros (i & r & [=] & _).
      * split; [reflexivity|]. split; [reflexivity|]. split; [exact Hn|].
        split; [exact Hstate|]. split.
        -- unfold PortTransmitter.isRunning. rewrite Hstate. reflexivity.
        -- rewrite Hstop. exact Hs.
  - exfalso. exact (Hclean _ Hok Htr).
  - exfalso. exact (Hclean _ Hok Htr).
Qed.

Lemma run_error_aborts_witness :
  exists w,
    PortTransmitter.run Samples.linux64 3
      (PortTransmitter.boot Samples.twoPackets Samples.stopAtOnce)
      = PortTransmitter.Returned w /\
    PortTransmitter.state_ (PortTransmitter.tx_ w) = kFinished /\
    PortTransmitter.stop_ (PortTransmitter.tx_ w) = false.
Proof.
  destruct (run_error_aborts Samples.linux64 3 Samples.twoPackets Samples.stopAtOnce
              [PortTransmitter.EvState kRunning;
               PortTransmitter.EvAssertOverHead 0;
               PortTransmitter.EvSendPacket 4 0]
              [PortTransmitter.EvState kFinished] 0 (-2))
    as (Hout & _ & _ & Hstate & _ & Hstop).
  - vm_compute. reflexivity.
  - lia.
  - eexists. split; [exact Hout|]. split; [exact Hstate | exact Hstop].
Defined.

(** *** While nobody stops the worker *)

Lemma calm_same (w w' : PortTransmitter.World) :
  PortTransmitter.stop_ (PortTransmitter.tx_ w')
    = PortTransmitter.stop_ (PortTransmitter.tx_ w) ->
  PortTransmitter.stopCalls_ (PortTransmitter.oracle_ w')
    = PortTransmitter.stopCalls_ (PortTransmitter.oracle_ w) ->
  PortTransmitter.pcap_sendqueue_transmit_ (PortTransmitter.oracle_ w')
    = PortTransmitter.pcap_sendqueue_transmit_ (PortTransmitter.oracle_ w) ->
  calm w -> calm w'.
Proof. unfold calm. intros -> -> ->. auto. Qed.

Lemma getTimeStamp_calm (P : Platform) (w w' : PortTransmitter.World)
    (t : PortTransmitter.TimeStamp) :
  PortTransmitter.getTimeStamp P w = (t, w') -> calm w -> calm w'.
Proof.
  unfold PortTransmitter.getTimeStamp.
  destruct (os P); intros [= _ <-]; apply calm_same; reflexivity.
Qed.

Lemma readStop_calm (w w' : PortTransmitter.World) (b : bool) :
  PortTransmitter.readStop w = (b, w') -> calm w -> b = false /\ calm w'.
Proof.
  intros [= <- <-] (Hs & Hc & Hq).
  assert (Hb : PortTransmitter.stop_ (PortTransmitter.tx_ w)
               || hd false (PortTransmitter.stopCalls_ (PortTransmitter.oracle_ w))
               = false).
  { rewrite Hs. simpl.
    destruct (PortTransmitter.stopCalls_ (PortTransmitter.oracle_ w)) as [|c cs];
      [reflexivity|]. apply Forall_inv in Hc. exact Hc. }
  split; [exact Hb|]. split; [exact Hb|]. split; [|exact Hq].
  simpl. destruct (PortTransmitter.stopCalls_ (PortTransmitter.oracle_ w)) as [|c cs];
    [constructor|]. eapply Forall_inv_tail. exact Hc.
Qed.

Lemma pcap_sendpacket_calm (n r : Z) (w w' : PortTransmitter.World) :
  PortTransmitter.pcap_sendpacket n w = (r, w') -> calm w -> calm w'.
Proof. intros [= _ <-]. apply calm_same; reflexivity. Qed.

Lemma pcap_sendqueue_transmit_calm (r : Z) (w w' : PortTransmitter.World) :
  PortTransmitter.pcap_sendqueue_transmit w = (r, w') -> calm w -> 0 <= r /\ calm w'.
Proof.
  intros [= <- <-] (Hs & Hc & Hq).
  destruct (PortTransmitter.pcap_sendqueue_transmit_ (PortTransmitter.oracle_ w))
    as [|q qs] eqn:E.
  - split; [simpl; lia|]. split; [exact Hs|]. split; [exact Hc|]. simpl.
    constructor.
  - split; [simpl; apply Forall_inv in Hq; exact Hq|].
    split; [exact Hs|]. split; [exact Hc|]. simpl.
    eapply Forall_inv_tail. exact Hq.
Qed.

Lemma waitOrOwe_calm (u oh : Z) (w w' : PortTransmitter.World) :
  PortTransmitter.waitOrOwe u w = (oh, w') -> calm w -> calm w'.
Proof.
  unfold PortTransmitter.waitOrOwe. destruct (0 <? u); intros [= _ <-]; auto.
Qed.

Lemma sendQueueTransmit_loop_calm (P : Platform) (queue : list QueueRecord) :
  forall (sync : Z) (ts0 : timeval) (ovrStart : PortTransmitter.TimeStamp)
         (overHead : Z) (w : PortTransmitter.World) ret overHead' w',
    PortTransmitter.sendQueueTransmit_loop P queue sync ts0 ovrStart overHead w
      = (ret, overHead', w') ->
    calm w -> ret = 0 /\ calm w'.
Proof.
  induction queue as [|[hdr pkt] rest IH];
    intros sync ts0 ovrStart overHead w ret oh' w' H Hw.
  - injection H as <- _ <-. auto.
  - cbn [PortTransmitter.sendQueueTransmit_loop] in H.
    destruct (sync =? 0).
    + destruct (PortTransmitter.pcap_sendpacket _ w) as [r w2] eqn:E2.
      destruct (PortTransmitter.readStop _) as [stop w4] eqn:E4.
      apply pcap_sendpacket_calm in E2; [|exact Hw].
      apply readStop_calm in E4 as [-> Hw4];
        [|revert E2; apply calm_same; reflexivity].
      eapply IH; eassumption.
    + destruct (PortTransmitter.getTimeStamp P w) as [ovrEnd wa] eqn:Ea.
      destruct (PortTransmitter.waitOrOwe _ _) as [oh2 wc] eqn:Ec.
      destruct (PortTransmitter.getTimeStamp P wc) as [ovrStart' wd] eqn:Ed.
      destruct (PortTransmitter.pcap_sendpacket _ wd) as [r w2] eqn:E2.
      destruct (PortTransmitter.readStop _) as [stop w4] eqn:E4.
      apply getTimeStamp_calm in Ea; [|exact Hw].
      apply waitOrOwe_calm in Ec; [|exact Ea].
      apply getTimeStamp_calm in Ed; [|exact Ec].
      apply pcap_sendpacket_calm in E2; [|exact Ed].
      apply readStop_calm in E4 as [-> Hw4];
        [|revert E2; apply calm_same; reflexivity].
      eapply IH; eassumption.
Qed.

Lemma transmit_calm (P : Platform) (seq : PacketSequence.t) (overHead : Z)
    (w : PortTransmitter.World) ret overHead' w' :
  PortTransmitter.transmit P seq overHead w = (ret, overHead', w') ->
  calm w -> 0 <= ret /\ calm w'.
Proof.
  assert (Hslow : PortTransmitter.sendQueueTransmit P (PacketSequence.sendQueue_ seq)
                    overHead PortTransmitter.kSyncTransmit w = (ret, overHead', w') ->
                  calm w -> 0 <= ret /\ calm w').
  { unfold PortTransmitter.sendQueueTransmit.
    destruct (PortTransmitter.getTimeStamp P w) as [ovrStart w1] eqn:E1.
    intros H Hw. apply getTimeStamp_calm in E1; [|exact Hw].
    destruct (sendQueueTransmit_loop_calm P _ _ _ _ _ _ _ _ _ H E1) as [-> Hw'].
    split; [lia | exact Hw']. }
  unfold PortTransmitter.transmit.
  destruct (os P); try exact Hslow.
  destruct (PacketSequence.usecDuration_ seq <=? usecPerSec); [|exact Hslow].
  destruct (PortTransmitter.getTimeStamp P w) as [ovrStart w1] eqn:E1.
  destruct (PortTransmitter.pcap_sendqueue_transmit w1) as [r w2] eqn:E2.
  intros H Hw.
  apply getTimeStamp_calm in E1; [|exact Hw].
  apply pcap_sendqueue_transmit_calm in E2 as [Hr Hw2]; [|exact E1].
  replace (0 <=? r) with true in H by (symmetry; apply Z.leb_le; exact Hr).
  destruct (PortTransmitter.getTimeStamp P _) as [ovrEnd wb] eqn:Eb.
  destruct (PortTransmitter.readStop _) as [stop w4] eqn:E4.
  apply getTimeStamp_calm in Eb; [|revert Hw2; apply calm_same; reflexivity].
  apply readStop_calm in E4 as [-> Hw4];
    [|revert Eb; apply calm_same; reflexivity].
  injection H as <- _ <-. auto.
Qed.

Lemma transmitAndWait_calm (P : Platform) (l : list PacketSequence.t)
    (idx overHead : Z) (w : PortTransmitter.World) :
  is_Some (PortTransmitter.at_ l idx) -> calm w ->
  exists oh' w',
    PortTransmitter.transmitAndWait P l idx overHead w = PortTransmitter.Next oh' w' /\
    calm w'.
Proof.
  intros [seq Hat] Hw. unfold PortTransmitter.transmitAndWait. rewrite Hat.
  destruct (PortTransmitter.transmit P seq overHead w) as [[ret oh1] w1] eqn:Et.
  apply transmit_calm in Et as [Hret Hw1]; [|exact Hw].
  replace (0 <=? ret) with true by (symmetry; apply Z.leb_le; exact Hret).
  destruct (PortTransmitter.waitOrOwe _ _) as [oh2 w3] eqn:Ew.
  exists oh2, w3. split; [reflexivity|].
  eapply waitOrOwe_calm; [exact Ew|]. revert Hw1. apply calm_same; reflexivity.
Qed.

(** *** The two [for] loops follow the plan of the group *)

Lemma to_int_fits (z : Z) : - 2 ^ 31 <= z < 2 ^ 31 -> to_int z = z.
Proof. intros H. apply wrap_signed_fits; [lia | exact H]. Qed.

Lemma at_in_range (l : list PacketSequence.t) (idx : Z) :
  0 <= idx < Z.of_nat (length l) -> is_Some (PortTransmitter.at_ l idx).
Proof.
  intros H. unfold PortTransmitter.at_.
  replace (idx <? 0) with false by (symmetry; apply Z.ltb_ge; lia).
  apply lookup_lt_is_Some_2. lia.
Qed.

Lemma at_Some_range (l : list PacketSequence.t) (idx : Z) (s : PacketSequence.t) :
  PortTransmitter.at_ l idx = Some s -> 0 <= idx < Z.of_nat (length l).
Proof.
  unfold PortTransmitter.at_. destruct (idx <? 0) eqn:E; [discriminate|].
  intros H. apply Z.ltb_ge in E. apply lookup_lt_Some in H. lia.
Qed.

Lemma thenPlay_stuck (P : Platform) (l : list PacketSequence.t) (plan : list Z)
    (f : PortTransmitter.Flow) :
  (forall oh w, f <> PortTransmitter.Next oh w) ->
  fold_left (thenPlay P l) plan f = f.
Proof.
  intros Hf. induction plan as [|idx plan IH]; [reflexivity|].
  simpl. destruct f as [oh w|w|w]; [exfalso; eapply Hf; reflexivity | exact IH | exact IH].
Qed.

Lemma forK_plan (P : Platform) (l : list PacketSequence.t) (i : Z) (n : nat) :
  forall (k0 : nat) (overHead : Z) (w : PortTransmitter.World),
    PortTransmitter.forK P n l i (Z.of_nat k0) overHead w
    = fold_left (thenPlay P l)
        (map (fun k : nat => to_int (i + Z.of_nat k)) (seq k0 n))
        (PortTransmitter.Next overHead w).
Proof.
  induction n as [|n IH]; intros k0 overHead w; [reflexivity|].
  cbn [PortTransmitter.forK seq map fold_left thenPlay].
  destruct (PortTransmitter.transmitAndWait P l (to_int (i + Z.of_nat k0)) overHead w)
    as [oh1 w1|w1|w1].
  - replace (Z.of_nat k0 + 1) with (Z.of_nat (S k0)) by lia. apply IH.
  - symmetry. apply thenPlay_stuck. discriminate.
  - symmetry. apply thenPlay_stuck. discriminate.
Qed.

Lemma forJ_plan (P : Platform) (l : list PacketSequence.t) (i rptSz : Z) (n : nat) :
  forall (j0 : nat) (overHead : Z) (w : PortTransmitter.World),
    PortTransmitter.forJ P n l i rptSz overHead w
    = fold_left (thenPlay P l)
        (flat_map (fun _ : nat =>
                     map (fun k : nat => to_int (i + Z.of_nat k))
                         (seq 0 (Z.to_nat rptSz)))
                  (seq j0 n))
        (PortTransmitter.Next overHead w).
Proof.
  induction n as [|n IH]; intros j0 overHead w; [reflexivity|].
  cbn [PortTransmitter.forJ seq flat_map]. rewrite fold_left_app.
  rewrite <- (forK_plan P l i (Z.to_nat rptSz) 0 overHead w).
  change (Z.of_nat 0) with 0.
  destruct (PortTransmitter.forK P (Z.to_nat rptSz) l i 0 overHead w)
    as [oh1 w1|w1|w1].
  - apply IH.
  - symmetry. apply thenPlay_stuck. discriminate.
  - symmetry. apply thenPlay_stuck. discriminate.
Qed.


(** A sequence that is not a group start is a group of one, played once. *)
Lemma groupPlan_single (i : Z) :
  groupPlan i (to_int (PacketSequence.repeatSize_ PacketSequence.new))
              (to_int (PacketSequence.repeatCount_ PacketSequence.new))
  = [to_int i].
Proof. unfold groupPlan. simpl. rewrite Z.add_0_r. reflexivity. Qed.

(** Inside the list and below 2^31 the index [i+k] is not wrapped. *)
Lemma groupPlan_exact (i rptSz rptCnt : Z) :
  0 <= i -> i + rptSz < 2 ^ 31 ->
  groupPlan i rptSz rptCnt
  = flat_map (fun _ : nat =>
                map (fun k : nat => i + Z.of_nat k) (seq 0 (Z.to_nat rptSz)))
             (seq 0 (Z.to_nat rptCnt)).
Proof.
  intros Hi Hlt. unfold groupPlan. f_equal.
  assert (Hrow : map (fun k : nat => to_int (i + Z.of_nat k)) (seq 0 (Z.to_nat rptSz))
                 = map (fun k : nat => i + Z.of_nat k) (seq 0 (Z.to_nat rptSz))).
  { apply map_ext_in. intros k Hk. apply in_seq in Hk. apply to_int_fits. lia. }
  rewrite Hrow. reflexivity.
Qed.

Lemma groupPlan_in_range (i rptSz rptCnt : Z) (n : Z) (idx : Z) :
  0 <= i -> i + rptSz <= n -> n < 2 ^ 31 ->
  In idx (groupPlan i rptSz rptCnt) -> 0 <= idx < n.
Proof.
  intros Hi Hle Hn. rewrite groupPlan_exact by lia.
  intros H. apply in_flat_map in H as (j & _ & H).
  apply in_map_iff in H as (k & <- & Hk). apply in_seq in Hk. lia.
Qed.

Lemma play_Next_events (P : Platform) (l : list PacketSequence.t) (plan : list Z) :
  forall (overHead : Z) (w : PortTransmitter.World) oh' w',
    fold_left (thenPlay P l) plan (PortTransmitter.Next overHead w)
      = PortTransmitter.Next oh' w' ->
    map fst (seqEvents (PortTransmitter.trace_ w'))
    = map fst (seqEvents (PortTransmitter.trace_ w)) ++ plan.
Proof.
  induction plan as [|idx plan IH]; intros overHead w oh' w' H.
  - injection H as _ <-. symmetry. apply app_nil_r.
  - cbn [fold_left thenPlay] in H.
    destruct (PortTransmitter.transmitAndWait P l idx overHead w)
      as [oh1 w1|w1|w1] eqn:E.
    + apply IH in H. rewrite H.
      destruct (transmitAndWait_Next P l idx overHead w oh1 w1 E) as (ret & _ & _ & ->).
      rewrite map_app. simpl. rewrite <- app_assoc. reflexivity.
    + rewrite thenPlay_stuck in H by discriminate. discriminate.
    + rewrite thenPlay_stuck in H by discriminate. discriminate.
Qed.

Lemma play_calm (P : Platform) (l : list PacketSequence.t) (plan : list Z) :
  forall (overHead : Z) (w : PortTransmitter.World),
    Forall (fun idx => is_Some (PortTransmitter.at_ l idx)) plan ->
    calm w ->
    exists oh' w',
      fold_left (thenPlay P l) plan (PortTransmitter.Next overHead w)
        = PortTransmitter.Next oh' w' /\ calm w'.
Proof.
  induction plan as [|idx plan IH]; intros overHead w Hplan Hw; [eauto|].
  cbn [fold_left thenPlay].
  destruct (transmitAndWait_calm P l idx overHead w) as (oh1 & w1 & -> & Hw1);
    [exact (Forall_inv Hplan) | exact Hw |].
  apply IH; [eapply Forall_inv_tail; exact Hplan | exact Hw1].
Qed.

(** *** What the counters of [sendQueueTransmit] count *)

Lemma sendsTried_app (a b : list PortTransmitter.Event) :
  sendsTried (a ++ b) = sendsTried a + sendsTried b.
Proof.
  induction a as [|e a IH]; simpl; [reflexivity|]. destruct e; lia.
Qed.

Lemma bytesTried_app (a b : list PortTransmitter.Event) :
  bytesTried (a ++ b) = bytesTried a + bytesTried b.
Proof.
  induction a as [|e a IH]; simpl; [reflexivity|]. destruct e; lia.
Qed.

Lemma countsCalls_refl (w : PortTransmitter.World) : countsCalls w w.
Proof. split; reflexivity. Qed.

Lemma countsCalls_trans (a b c : PortTransmitter.World) :
  countsCalls a b -> countsCalls b c -> countsCalls a c.
Proof. intros [H1 H2] [H3 H4]. split; congruence. Qed.

Lemma getTimeStamp_countsCalls (P : Platform) (w w' : PortTransmitter.World)
    (t : PortTransmitter.TimeStamp) :
  PortTransmitter.getTimeStamp P w = (t, w') -> countsCalls w w'.
Proof.
  unfold PortTransmitter.getTimeStamp.
  destruct (os P); intros [= _ <-]; split; reflexivity.
Qed.

Lemma waitOrOwe_countsCalls (u oh : Z) (w w' : PortTransmitter.World) :
  PortTransmitter.waitOrOwe u w = (oh, w') -> countsCalls w w'.
Proof.
  unfold PortTransmitter.waitOrOwe. destruct (0 <? u); intros [= _ <-].
  - split; simpl; [rewrite sendsTried_app | rewrite bytesTried_app]; simpl; lia.
  - apply countsCalls_refl.
Qed.

(** One packet: the send, then the two counters, then the read of [stop_]. *)
Lemma send_countsCalls (pktLen r : Z) (stop : bool)
    (w w2 w4 : PortTransmitter.World) :
  PortTransmitter.pcap_sendpacket pktLen w = (r, w2) ->
  PortTransmitter.readStop
    (PortTransmitter.with_tx
       (fun tx => PortTransmitter.set_stats
                    (PortTransmitter.countTx 1 pktLen (PortTransmitter.stats_ tx)) tx)
       w2) = (stop, w4) ->
  countsCalls w w4.
Proof.
  intros [= _ <-] [= _ <-].
  split; simpl; [rewrite sendsTried_app | rewrite bytesTried_app]; simpl; lia.
Qed.

Lemma sendQueueTransmit_loop_countsCalls (P : Platform) (queue : list QueueRecord) :
  forall (sync : Z) (ts0 : timeval) (ovrStart : PortTransmitter.TimeStamp)
         (overHead : Z) (w : PortTransmitter.World) ret overHead' w',
    PortTransmitter.sendQueueTransmit_loop P queue sync ts0 ovrStart overHead w
      = (ret, overHead', w') ->
    countsCalls w w'.
Proof.
  induction queue as [|[hdr pkt] rest IH];
    intros sync ts0 ovrStart overHead w ret oh' w' H.
  - injection H as _ _ <-. apply countsCalls_refl.
  - cbn [PortTransmitter.sendQueueTransmit_loop] in H.
    destruct (sync =? 0).
    + destruct (PortTransmitter.pcap_sendpacket _ w) as [r w2] eqn:E2.
      destruct (PortTransmitter.readStop _) as [stop w4] eqn:E4.
      pose proof (send_countsCalls _ _ _ _ _ _ E2 E4) as Hs.
      destruct stop.
      * injection H as _ _ <-. exact Hs.
      * eapply countsCalls_trans; [exact Hs|]. eapply IH. exact H.
    + destruct (PortTransmitter.getTimeStamp P w) as [ovrEnd wa] eqn:Ea.
      destruct (PortTransmitter.waitOrOwe _ _) as [oh2 wc] eqn:Ec.
      destruct (PortTransmitter.getTimeStamp P wc) as [ovrStart' wd] eqn:Ed.
      destruct (PortTransmitter.pcap_sendpacket _ wd) as [r w2] eqn:E2.
      destruct (PortTransmitter.readStop _) as [stop w4] eqn:E4.
      apply getTimeStamp_countsCalls in Ea, Ed. apply waitOrOwe_countsCalls in Ec.
      pose proof (send_countsCalls _ _ _ _ _ _ E2 E4) as Hs.
      assert (Hall : countsCalls w w4).
      { eapply countsCalls_trans; [exact Ea|].
        eapply countsCalls_trans; [|eapply countsCalls_trans; [exact Ec|]].
        - split; simpl; [rewrite sendsTried_app | rewrite bytesTried_app]; simpl; lia.
        - eapply countsCalls_trans; [exact Ed | exact Hs]. }
      destruct stop.
      * injection H as _ _ <-. exact Hall.
      * eapply countsCalls_trans; [exact Hall|]. eapply IH. exact H.
Qed.

(** [sendQueueTransmit] adds to [txPkts] the number of calls of
    [pcap_sendpacket] and to [txBytes] the bytes given to them, whatever the
    calls answer. *)
Lemma sendQueueTransmit_countsCalls (P : Platform) (queue : list QueueRecord)
    (overHead sync : Z) (w : PortTransmitter.World) ret overHead' w' :
  PortTransmitter.sendQueueTransmit P queue overHead sync w = (ret, overHead', w') ->
  countsCalls w w'.
Proof.
  unfold PortTransmitter.sendQueueTransmit.
  destruct (PortTransmitter.getTimeStamp P w) as [ovrStart w1] eqn:E1.
  intros H. apply getTimeStamp_countsCalls in E1.
  eapply countsCalls_trans; [exact E1|].
  eapply sendQueueTransmit_loop_countsCalls. exact H.
Qed.

(** *** The overhead at the assertion of [sendQueueTransmit] *)

(** With an overhead that is not positive and a clock that has not gone
    back, the overhead that meets the assertion is not positive. *)
Lemma overHead_after_clock_gap (P : Platform) (overHead udiff : Z) :
  overHead <= 0 -> 0 <= udiff -> fits_long P (overHead - udiff) ->
  to_long P (overHead - udiff) <= 0.
Proof. intros Ho Hd Hf. rewrite (to_long_fits P _ Hf). lia. Qed.

(** On Linux a wall clock that is set back makes the overhead positive at
    the assertion of [sendQueueTransmit]. *)
Lemma run_clock_back_positive_overHead :
  exists w,
    PortTransmitter.run Samples.linux64 3
      (PortTransmitter.boot Samples.twoPackets Samples.clockStepsBack)
      = PortTransmitter.Returned w /\
    hd_error (assertedOverHeads (PortTransmitter.trace_ w)) = Some 1000000.
Proof. eexists. split; [vm_compute; reflexivity | reflexivity]. Qed.

(** ** Further properties of the replay *)

(** *** What every step of [run] keeps *)

Section Kept.
Variable P : Platform.
Variable R : PortTransmitter.World -> PortTransmitter.World -> Prop.
Hypothesis R_refl : forall w, R w w.
Hypothesis R_trans : forall a b c, R a b -> R b c -> R a c.
Hypothesis R_time :
  forall w t w', PortTransmitter.getTimeStamp P w = (t, w') -> R w w'.
Hypothesis R_assert :
  forall v w, R w (PortTransmitter.log (PortTransmitter.EvAssertOverHead v) w).
Hypothesis R_wait :
  forall u oh w w', PortTransmitter.waitOrOwe u w = (oh, w') -> R w w'.
Hypothesis R_packet :
  forall n r stop w w2 w4,
    PortTransmitter.pcap_sendpacket n w = (r, w2) ->
    PortTransmitter.readStop
      (PortTransmitter.with_tx
         (fun tx => PortTransmitter.set_stats
                      (PortTransmitter.countTx 1 n (PortTransmitter.stats_ tx)) tx)
         w2) = (stop, w4) ->
    R w w4.
Hypothesis R_batch :
  forall r w w', PortTransmitter.pcap_sendqueue_transmit w = (r, w') -> R w w'.
Hypothesis R_batch_count :
  os P = Win32 ->
  forall pkts bytes w,
    R w (PortTransmitter.with_tx
           (fun tx => PortTransmitter.set_stats
                        (PortTransmitter.countTx pkts bytes (PortTransmitter.stats_ tx)) tx)
           w).
Hypothesis R_stop :
  forall b w w', PortTransmitter.readStop w = (b, w') -> R w w'.
Hypothesis R_sequence :
  forall idx ret w, R w (PortTransmitter.log (PortTransmitter.EvSequence idx ret) w).
Hypothesis R_clear :
  forall w, R w (PortTransmitter.with_tx (PortTransmitter.set_stop false) w).
Hypothesis R_state :
  forall s w, R w (PortTransmitter.writeState s w).

Lemma kept_sendQueueTransmit_loop (queue : list QueueRecord) :
  forall (sync : Z) (ts0 : timeval) (ovrStart : PortTransmitter.TimeStamp)
         (overHead : Z) (w : PortTransmitter.World) ret overHead' w',
    PortTransmitter.sendQueueTransmit_loop P queue sync ts0 ovrStart overHead w
      = (ret, overHead', w') ->
    R w w'.
Proof.
  induction queue as [|[hdr pkt] rest IH];
    intros sync ts0 ovrStart overHead w ret oh' w' H.
  - injection H as _ _ <-. apply R_refl.
  - cbn [PortTransmitter.sendQueueTransmit_loop] in H.
    destruct (sync =? 0).
    + destruct (PortTransmitter.pcap_sendpacket _ w) as [r w2] eqn:E2.
      destruct (PortTransmitter.readStop _) as [stop w4] eqn:E4.
      pose proof (R_packet _ _ _ _ _ _ E2 E4) as Hs.
      destruct stop.
      * injection H as _ _ <-. exact Hs.
      * eapply R_trans; [exact Hs|]. eapply IH. exact H.
    + destruct (PortTransmitter.getTimeStamp P w) as [ovrEnd wa] eqn:Ea.
      destruct (PortTransmitter.waitOrOwe _ _) as [oh2 wc] eqn:Ec.
      destruct (PortTransmitter.getTimeStamp P wc) as [ovrStart' wd] eqn:Ed.
      destruct (PortTransmitter.pcap_sendpacket _ wd) as [r w2] eqn:E2.
      destruct (PortTransmitter.readStop _) as [stop w4] eqn:E4.
      apply R_time in Ea, Ed. apply R_wait in Ec.
      pose proof (R_packet _ _ _ _ _ _ E2 E4) as Hs.
      assert (Hall : R w w4).
      { eapply R_trans; [exact Ea|].
        eapply R_trans; [apply R_assert|].
        eapply R_trans; [exact Ec|].
        eapply R_trans; [exact Ed | exact Hs]. }
      destruct stop.
      * injection H as _ _ <-. exact Hall.
      * eapply R_trans; [exact Hall|]. eapply IH. exact H.
Qed.

Lemma kept_sendQueueTransmit (queue : list QueueRecord)
    (overHead sync : Z) (w : PortTransmitter.World) ret overHead' w' :
  PortTransmitter.sendQueueTransmit P queue overHead sync w = (ret, overHead', w') ->
  R w w'.
Proof.
  unfold PortTransmitter.sendQueueTransmit.
  destruct (PortTransmitter.getTimeStamp P w) as [ovrStart w1] eqn:E1.
  intros H. apply R_time in E1.
  eapply R_trans; [exact E1|].
  eapply kept_sendQueueTransmit_loop. exact H.
Qed.

Lemma kept_transmit (seq : PacketSequence.t) (overHead : Z)
    (w : PortTransmitter.World) ret overHead' w' :
  PortTransmitter.transmit P seq overHead w = (ret, overHead', w') -> R w w'.
Proof.
  unfold PortTransmitter.transmit.
  destruct (os P) eqn:Eos; try apply kept_sendQueueTransmit.
  destruct (PacketSequence.usecDuration_ seq <=? usecPerSec);
    [|apply kept_sendQueueTransmit].
  destruct (PortTransmitter.getTimeStamp P w) as [ovrStart w1] eqn:E1.
  destruct (PortTransmitter.pcap_sendqueue_transmit w1) as [r w2] eqn:E2.
  apply R_time in E1. apply R_batch in E2.
  destruct (0 <=? r).
  - destruct (PortTransmitter.getTimeStamp P _) as [ovrEnd wb] eqn:Eb.
    destruct (PortTransmitter.readStop _) as [stop w4] eqn:E4.
    apply R_time in Eb. apply R_stop in E4.
    intros [= _ _ <-].
    eapply R_trans; [exact E1|]. eapply R_trans; [exact E2|].
    eapply R_trans; [apply (R_batch_count eq_refl)|].
    eapply R_trans; [exact Eb|].
    eapply R_trans; [apply R_assert | exact E4].
  - destruct (PortTransmitter.readStop _) as [stop w4] eqn:E4.
    apply R_stop in E4. intros [= _ _ <-].
    eapply R_trans; [exact E1|]. eapply R_trans; [exact E2 | exact E4].
Qed.

Lemma kept_transmitAndWait (l : list PacketSequence.t) (idx overHead : Z)
    (w : PortTransmitter.World) :
  R w (flowWorld (PortTransmitter.transmitAndWait P l idx overHead w)).
Proof.
  unfold PortTransmitter.transmitAndWait.
  destruct (PortTransmitter.at_ l idx) as [seq|]; [|apply R_refl].
  destruct (PortTransmitter.transmit P seq overHead w) as [[ret oh1] w1] eqn:Et.
  apply kept_transmit in Et.
  destruct (0 <=? ret).
  - destruct (PortTransmitter.waitOrOwe _ _) as [oh2 w3] eqn:Ew.
    apply R_wait in Ew. simpl.
    eapply R_trans; [exact Et|]. eapply R_trans; [apply R_sequence | exact Ew].
  - simpl. eapply R_trans; [exact Et|].
    eapply R_trans; [apply R_sequence | apply R_clear].
Qed.

Lemma kept_forK (l : list PacketSequence.t) (i : Z) (n : nat) :
  forall (k overHead : Z) (w : PortTransmitter.World),
    R w (flowWorld (PortTransmitter.forK P n l i k overHead w)).
Proof.
  induction n as [|n IH]; intros k overHead w; [apply R_refl|].
  cbn [PortTransmitter.forK].
  pose proof (kept_transmitAndWait l (to_int (i + k)) overHead w) as Hstep.
  destruct (PortTransmitter.transmitAndWait P l (to_int (i + k)) overHead w)
    as [oh1 w1|w1|w1]; [|exact Hstep|exact Hstep].
  eapply R_trans; [exact Hstep | apply IH].
Qed.

Lemma kept_forJ (l : list PacketSequence.t) (i rptSz : Z) (n : nat) :
  forall (overHead : Z) (w : PortTransmitter.World),
    R w (flowWorld (PortTransmitter.forJ P n l i rptSz overHead w)).
Proof.
  induction n as [|n IH]; intros overHead w; [apply R_refl|].
  cbn [PortTransmitter.forJ].
  pose proof (kept_forK l i (Z.to_nat rptSz) 0 overHead w) as Hstep.
  destruct (PortTransmitter.forK P (Z.to_nat rptSz) l i 0 overHead w)
    as [oh1 w1|w1|w1]; [|exact Hstep|exact Hstep].
  eapply R_trans; [exact Hstep | apply IH].
Qed.

Lemma kept_restart (fuel : nat) :
  forall (i overHead : Z) (w : PortTransmitter.World),
    R w (PortTransmitter.outcomeWorld (PortTransmitter.restart P fuel i overHead w)).
Proof.
  induction fuel as [|fuel IH]; intros i overHead w; [apply R_refl|].
  cbn [PortTransmitter.restart].
  destruct (PortTransmitter.at_ _ i) as [first|]; [|apply R_refl].
  pose proof (kept_forJ (PortTransmitter.packetSequenceList_ (PortTransmitter.tx_ w))
                i (to_int (PacketSequence.repeatSize_ first))
                (Z.to_nat (to_int (PacketSequence.repeatCount_ first)))
                overHead w) as Hgroup.
  destruct (PortTransmitter.forJ P _ _ i _ overHead w) as [oh1 w1|w1|w1];
    cbn [flowWorld] in Hgroup.
  - destruct (_ <? _); [eapply R_trans; [exact Hgroup | apply IH]|].
    destruct (0 <=? _).
    + destruct (PortTransmitter.waitOrOwe _ w1) as [oh2 w2] eqn:Ew.
      apply R_wait in Ew.
      eapply R_trans; [exact Hgroup|]. eapply R_trans; [exact Ew | apply IH].
    + simpl. eapply R_trans; [exact Hgroup | apply R_state].
  - simpl. eapply R_trans; [exact Hgroup | apply R_state].
  - exact Hgroup.
Qed.

Lemma kept_run (fuel : nat) (w : PortTransmitter.World) :
  R w (PortTransmitter.outcomeWorld (PortTransmitter.run P fuel w)).
Proof.
  unfold PortTransmitter.run. destruct (_ <=? 0).
  - simpl. apply R_state.
  - eapply R_trans; [apply R_state | apply kept_restart].
Qed.

End Kept.

(** *** The list, the loop mode and the Rx counters *)

Lemma settingsKept_refl (w : PortTransmitter.World) : settingsKept w w.
Proof. repeat split. Qed.

Lemma settingsKept_trans (a b c : PortTransmitter.World) :
  settingsKept a b -> settingsKept b c -> settingsKept a c.
Proof. intros (H1 & H2 & H3) (H4 & H5 & H6). repeat split; congruence. Qed.

Lemma settingsKept_run_steps (P : Platform) (fuel : nat) (w : PortTransmitter.World) :
  settingsKept w (PortTransmitter.outcomeWorld (PortTransmitter.run P fuel w)) /\
  forall i overHead,
    settingsKept w
      (PortTransmitter.outcomeWorld (PortTransmitter.restart P fuel i overHead w)).
Proof.
  assert (Htime : forall w0 t w', PortTransmitter.getTimeStamp P w0 = (t, w') ->
                                  settingsKept w0 w').
  { intros w0 t w'. unfold PortTransmitter.getTimeStamp.
    destruct (os P); intros [= _ <-]; repeat split. }
  assert (Hwait : forall u oh w0 w', PortTransmitter.waitOrOwe u w0 = (oh, w') ->
                                     settingsKept w0 w').
  { intros u oh w0 w'. unfold PortTransmitter.waitOrOwe.
    destruct (0 <? u); intros [= _ <-]; repeat split. }
  split; [apply (kept_run P settingsKept) | intros i overHead;
          apply (kept_restart P settingsKept)];
    try (exact settingsKept_refl); try (exact settingsKept_trans);
    try (exact Htime); try (exact Hwait);
    try (intros; repeat split; fail).
  all: try (intros n r stop w0 w2 w4 [= _ <-] [= _ <-]; repeat split).
  all: try (intros r w0 w' [= _ <-]; repeat split).
  all: try (intros b w0 w' [= _ <-]; repeat split).
Qed.

Lemma rxKept_run_steps (P : Platform) (fuel : nat) (w : PortTransmitter.World) :
  rxKept w (PortTransmitter.outcomeWorld (PortTransmitter.run P fuel w)).
Proof.
  assert (Htime : forall w0 t w', PortTransmitter.getTimeStamp P w0 = (t, w') ->
                                  rxKept w0 w').
  { intros w0 t w'. unfold PortTransmitter.getTimeStamp.
    destruct (os P); intros [= _ <-]; split; reflexivity. }
  assert (Hwait : forall u oh w0 w', PortTransmitter.waitOrOwe u w0 = (oh, w') ->
                                     rxKept w0 w').
  { intros u oh w0 w'. unfold PortTransmitter.waitOrOwe.
    destruct (0 <? u); intros [= _ <-]; split; reflexivity. }
  apply (kept_run P rxKept);
    try (exact Htime); try (exact Hwait);
    try (intros; split; reflexivity; fail).
  all: try (intros a b c [H1 H2] [H3 H4]; split; congruence).
  all: try (intros n r stop w0 w2 w4 [= _ <-] [= _ <-]; split; reflexivity).
  all: try (intros r w0 w' [= _ <-]; split; reflexivity).
  all: try (intros b w0 w' [= _ <-]; split; reflexivity).
Qed.

(** Whatever happens during it, [run] changes neither the sequence list nor
    the loop mode ([returnToQIdx_], [loopDelay_]), and it never touches the
    Rx counters of its statistics. *)
Theorem run_keeps_list_and_rx (P : Platform) (fuel : nat)
    (w : PortTransmitter.World) :
  let w' := PortTransmitter.outcomeWorld (PortTransmitter.run P fuel w) in
  PortTransmitter.packetSequenceList_ (PortTransmitter.tx_ w')
    = PortTransmitter.packetSequenceList_ (PortTransmitter.tx_ w) /\
  PortTransmitter.returnToQIdx_ (PortTransmitter.tx_ w')
    = PortTransmitter.returnToQIdx_ (PortTransmitter.tx_ w) /\
  PortTransmitter.loopDelay_ (PortTransmitter.tx_ w')
    = PortTransmitter.loopDelay_ (PortTransmitter.tx_ w) /\
  rxPkts (PortTransmitter.stats_ (PortTransmitter.tx_ w'))
    = rxPkts (PortTransmitter.stats_ (PortTransmitter.tx_ w)) /\
  rxBytes (PortTransmitter.stats_ (PortTransmitter.tx_ w'))
    = rxBytes (PortTransmitter.stats_ (PortTransmitter.tx_ w)).
Proof.
  intros w'. subst w'.
  destruct (settingsKept_run_steps P fuel w) as [(H1 & H2 & H3) _].
  destruct (rxKept_run_steps P fuel w) as [H4 H5].
  repeat split; assumption.
Qed.

(** *** The delays asked for *)

Lemma delays_app (a b : list PortTransmitter.Event) :
  delays (a ++ b) = delays a ++ delays b.
Proof. apply omap_app. Qed.

Lemma delaysStayPositive_same (w w' : PortTransmitter.World) :
  delays (PortTransmitter.trace_ w') = delays (PortTransmitter.trace_ w) ->
  delaysStayPositive w w'.
Proof. unfold delaysStayPositive. intros ->. auto. Qed.

Lemma delaysStayPositive_wait (u oh : Z) (w w' : PortTransmitter.World) :
  PortTransmitter.waitOrOwe u w = (oh, w') -> delaysStayPositive w w'.
Proof.
  unfold PortTransmitter.waitOrOwe. destruct (0 <? u) eqn:E; intros [= _ <-].
  - intros H. simpl. rewrite delays_app. apply Forall_app. split; [exact H|].
    constructor; [apply Z.ltb_lt; exact E | constructor].
  - intros H. exact H.
Qed.

(** [run] never asks [udelayFn_] for a delay that is zero or negative: every
    call is made with a positive number of microseconds. *)
Theorem run_delays_are_positive (P : Platform) (fuel : nat)
    (tx : PortTransmitter.t) (o : PortTransmitter.Oracle) :
  Forall (fun u => 0 < u)
    (delays (PortTransmitter.trace_
               (PortTransmitter.outcomeWorld
                  (PortTransmitter.run P fuel (PortTransmitter.boot tx o))))).
Proof.
  assert (Htime : forall w0 t w', PortTransmitter.getTimeStamp P w0 = (t, w') ->
                                  delaysStayPositive w0 w').
  { intros w0 t w'. unfold PortTransmitter.getTimeStamp.
    destruct (os P); intros [= _ <-]; apply delaysStayPositive_same; reflexivity. }
  assert (Hlog : forall e w0, delays [e] = [] ->
                   delaysStayPositive w0 (PortTransmitter.log e w0)).
  { intros e w0 He. apply delaysStayPositive_same. simpl.
    rewrite delays_app, He. apply app_nil_r. }
  assert (Hrun : delaysStayPositive (PortTransmitter.boot tx o)
                   (PortTransmitter.outcomeWorld
                      (PortTransmitter.run P fuel (PortTransmitter.boot tx o)))).
  { apply (kept_run P delaysStayPositive);
      try (exact Htime); try (exact delaysStayPositive_wait).
    - intros w0 H. exact H.
    - intros a b c H1 H2 H. apply H2, H1, H.
    - intros v w0. apply Hlog. reflexivity.
    - intros n r stop w0 w2 w4 [= _ <-] [= _ <-].
      apply delaysStayPositive_same. simpl. rewrite delays_app. apply app_nil_r.
    - intros r w0 w' [= _ <-]. apply delaysStayPositive_same. simpl.
      rewrite delays_app. apply app_nil_r.
    - intros _ pkts bytes w0. apply delaysStayPositive_same. reflexivity.
    - intros b w0 w' [= _ <-]. apply delaysStayPositive_same. reflexivity.
    - intros idx ret w0. apply Hlog. reflexivity.
    - intros w0. apply delaysStayPositive_same. reflexivity.
    - intros s w0. apply delaysStayPositive_same. simpl.
      rewrite delays_app. apply app_nil_r. }
  apply Hrun. constructor.
Qed.

(** *** The Tx counters over a whole run *)

(** On a build without the batch send of Win32, over a whole run and however
    it ends, [txPkts] grows by the number of calls of [pcap_sendpacket] and
    [txBytes] by the bytes given to them. *)
Theorem run_counts_every_send (P : Platform) (fuel : nat)
    (tx : PortTransmitter.t) (o : PortTransmitter.Oracle) :
  os P <> Win32 ->
  let w' := PortTransmitter.outcomeWorld
              (PortTransmitter.run P fuel (PortTransmitter.boot tx o)) in
  txPkts (PortTransmitter.stats_ (PortTransmitter.tx_ w'))
    = txPkts (PortTransmitter.stats_ tx) + sendsTried (PortTransmitter.trace_ w') /\
  txBytes (PortTransmitter.stats_ (PortTransmitter.tx_ w'))
    = txBytes (PortTransmitter.stats_ tx) + bytesTried (PortTransmitter.trace_ w').
Proof.
  intros Hos w'.
  assert (Hsame : forall w0 w1,
            PortTransmitter.stats_ (PortTransmitter.tx_ w1)
              = PortTransmitter.stats_ (PortTransmitter.tx_ w0) ->
            sendsTried (PortTransmitter.trace_ w1)
              = sendsTried (PortTransmitter.trace_ w0) ->
            bytesTried (PortTransmitter.trace_ w1)
              = bytesTried (PortTransmitter.trace_ w0) ->
            countsCalls w0 w1).
  { intros w0 w1 H1 H2 H3. unfold countsCalls. rewrite H1, H2, H3. auto. }
  assert (Hlog : forall e w0, sendsTried [e] = 0 -> bytesTried [e] = 0 ->
                   countsCalls w0 (PortTransmitter.log e w0)).
  { intros e w0 H1 H2. apply Hsame; simpl;
      [reflexivity | rewrite sendsTried_app | rewrite bytesTried_app]; lia. }
  assert (Hrun : countsCalls (PortTransmitter.boot tx o) w').
  { subst w'. apply (kept_run P countsCalls);
      try (exact countsCalls_refl); try (exact countsCalls_trans);
      try (exact waitOrOwe_countsCalls); try (exact send_countsCalls).
    - intros w0 t w1 H. eapply getTimeStamp_countsCalls. exact H.
    - intros v w0. apply Hlog; reflexivity.
    - intros r w0 w1 [= _ <-]. apply Hsame; simpl;
        [reflexivity | rewrite sendsTried_app | rewrite bytesTried_app]; simpl; lia.
    - intros Hwin. contradiction.
    - intros b w0 w1 [= _ <-]. apply Hsame; reflexivity.
    - intros idx ret w0. apply Hlog; reflexivity.
    - intros s w0. apply Hsame; simpl;
        [reflexivity | rewrite sendsTried_app | rewrite bytesTried_app]; simpl; lia. }
  destruct Hrun as [H1 H2]. simpl in H1, H2. lia.
Qed.

Lemma run_counts_every_send_witness :
  exists w,
    PortTransmitter.run Samples.linux64 3
      (PortTransmitter.boot Samples.twoPackets Samples.firstSendFails)
      = PortTransmitter.Returned w /\
    txPkts (PortTransmitter.stats_ (PortTransmitter.tx_ w))
      = 0 + sendsTried (PortTransmitter.trace_ w).
Proof.
  eexists. split; [vm_compute; reflexivity|].
  destruct (run_counts_every_send Samples.linux64 3 Samples.twoPackets
              Samples.firstSendFails) as [H _]; [discriminate|].
  exact H.
Defined.

(** *** The packets of one queue *)

Lemma sentLengths_app (a b : list PortTransmitter.Event) :
  sentLengths (a ++ b) = sentLengths a ++ sentLengths b.
Proof. apply omap_app. Qed.

Lemma getTimeStamp_trace (P : Platform) (w w' : PortTransmitter.World)
    (t : PortTransmitter.TimeStamp) :
  PortTransmitter.getTimeStamp P w = (t, w') ->
  PortTransmitter.trace_ w' = PortTransmitter.trace_ w.
Proof.
  unfold PortTransmitter.getTimeStamp. destruct (os P); intros [= _ <-]; reflexivity.
Qed.

Lemma waitOrOwe_sentLengths (u oh : Z) (w w' : PortTransmitter.World) :
  PortTransmitter.waitOrOwe u w = (oh, w') ->
  sentLengths (PortTransmitter.trace_ w') = sentLengths (PortTransmitter.trace_ w).
Proof.
  unfold PortTransmitter.waitOrOwe. destruct (0 <? u); intros [= _ <-]; [|reflexivity].
  simpl. rewrite sentLengths_app. apply app_nil_r.
Qed.

(** One packet: its length is the one more that was sent, and [stop_] is as
    it was read. *)
Lemma send_sentLengths (pktLen r : Z) (stop : bool)
    (w w2 w4 : PortTransmitter.World) :
  PortTransmitter.pcap_sendpacket pktLen w = (r, w2) ->
  PortTransmitter.readStop
    (PortTransmitter.with_tx
       (fun tx => PortTransmitter.set_stats
                    (PortTransmitter.countTx 1 pktLen (PortTransmitter.stats_ tx)) tx)
       w2) = (stop, w4) ->
  sentLengths (PortTransmitter.trace_ w4)
    = sentLengths (PortTransmitter.trace_ w) ++ [pktLen] /\
  PortTransmitter.stop_ (PortTransmitter.tx_ w4) = stop.
Proof.
  intros [= _ <-] [= <- <-]. split; [|reflexivity].
  simpl. rewrite sentLengths_app. reflexivity.
Qed.

Lemma sendQueueTransmit_loop_order (P : Platform) (queue : list QueueRecord) :
  forall (sync : Z) (ts0 : timeval) (ovrStart : PortTransmitter.TimeStamp)
         (overHead : Z) (w : PortTransmitter.World) ret overHead' w',
    PortTransmitter.sendQueueTransmit_loop P queue sync ts0 ovrStart overHead w
      = (ret, overHead', w') ->
    exists k : nat,
      sentLengths (PortTransmitter.trace_ w')
        = sentLengths (PortTransmitter.trace_ w)
          ++ map (fun r : QueueRecord => to_int (caplen (fst r))) (take k queue) /\
      ((ret = 0 /\ k = length queue /\
        (queue <> [] -> PortTransmitter.stop_ (PortTransmitter.tx_ w') = false)) \/
       (ret = -2 /\ (1 <= k <= length queue)%nat /\
        PortTransmitter.stop_ (PortTransmitter.tx_ w') = true)).
Proof.
  induction queue as [|[hdr pkt] rest IH];
    intros sync ts0 ovrStart overHead w ret oh' w' H.
  - injection H as <- _ <-. exists 0%nat. split; [symmetry; apply app_nil_r|].
    left. split; [reflexivity|]. split; [reflexivity|]. intros Hne. contradiction.
  - cbn [PortTransmitter.sendQueueTransmit_loop] in H.
    assert (Hstep : forall w1 r w2 stop w4 ts1 ovrStart1 overHead1,
              sentLengths (PortTransmitter.trace_ w1)
                = sentLengths (PortTransmitter.trace_ w) ->
              PortTransmitter.pcap_sendpacket (to_int (caplen hdr)) w1 = (r, w2) ->
              PortTransmitter.readStop
                (PortTransmitter.with_tx
                   (fun tx => PortTransmitter.set_stats
                      (PortTransmitter.countTx 1 (to_int (caplen hdr))
                         (PortTransmitter.stats_ tx)) tx) w2) = (stop, w4) ->
              (if stop then (-2, overHead1, w4)
               else PortTransmitter.sendQueueTransmit_loop P rest sync ts1 ovrStart1
                      overHead1 w4) = (ret, oh', w') ->
              exists k : nat,
                sentLengths (PortTransmitter.trace_ w')
                  = sentLengths (PortTransmitter.trace_ w)
                    ++ map (fun r : QueueRecord => to_int (caplen (fst r)))
                         (take k ((hdr, pkt) :: rest)) /\
                ((ret = 0 /\ k = length ((hdr, pkt) :: rest) /\
                  ((hdr, pkt) :: rest <> [] ->
                   PortTransmitter.stop_ (PortTransmitter.tx_ w') = false)) \/
                 (ret = -2 /\ (1 <= k <= length ((hdr, pkt) :: rest))%nat /\
                  PortTransmitter.stop_ (PortTransmitter.tx_ w') = true))).
    { intros w1 r w2 stop w4 ts1 ovrStart1 overHead1 Hw1 E2 E4 Hrest.
      destruct (send_sentLengths _ _ _ _ _ _ E2 E4) as [Hsent Hstop].
      rewrite Hw1 in Hsent. destruct stop.
      - injection Hrest as <- _ <-. exists 1%nat. split.
        + rewrite Hsent. simpl. destruct rest; reflexivity.
        + right. split; [reflexivity|]. split; [simpl; lia | exact Hstop].
      - destruct (IH _ _ _ _ _ _ _ _ Hrest) as (k & Hk & Hcase).
        exists (S k). split.
        + rewrite Hk, Hsent, <- app_assoc. reflexivity.
        + destruct Hcase as [(-> & -> & Hs) | (-> & Hkr & Hs)].
          * left. split; [reflexivity|]. split; [reflexivity|]. intros _.
            destruct rest as [|x rest']; [|apply Hs; discriminate].
            cbn in Hrest. assert (Hw : w4 = w') by congruence.
            rewrite <- Hw. exact Hstop.
          * right. split; [reflexivity|]. split; [|exact Hs].
            cbn [length]. destruct Hkr as [Hk1 Hk2].
            split; [lia | apply le_n_S; exact Hk2]. }
    destruct (sync =? 0).
    + destruct (PortTransmitter.pcap_sendpacket _ w) as [r w2] eqn:E2.
      destruct (PortTransmitter.readStop _) as [stop w4] eqn:E4.
      eapply Hstep; [reflexivity | exact E2 | exact E4 | exact H].
    + destruct (PortTransmitter.getTimeStamp P w) as [ovrEnd wa] eqn:Ea.
      destruct (PortTransmitter.waitOrOwe _ _) as [oh2 wc] eqn:Ec.
      destruct (PortTransmitter.getTimeStamp P wc) as [ovrStart' wd] eqn:Ed.
      destruct (PortTransmitter.pcap_sendpacket _ wd) as [r w2] eqn:E2.
      destruct (PortTransmitter.readStop _) as [stop w4] eqn:E4.
      eapply Hstep; [| exact E2 | exact E4 | exact H].
      rewrite (getTimeStamp_trace _ _ _ _ Ed), (waitOrOwe_sentLengths _ _ _ _ Ec).
      simpl. rewrite sentLengths_app, (getTimeStamp_trace _ _ _ _ Ea). apply app_nil_r.
Qed.

(** [sendQueueTransmit] gives the records of the queue to [pcap_sendpacket]
    in the order of the buffer, each with its [caplen], and stops after the
    first packet at which [stop_] is seen set.  Its result is 0, with the
    whole queue sent, or -2, with at least one packet sent and [stop_] set:
    it never answers anything else, whatever the sends answer. *)
Theorem sendQueueTransmit_sends_in_order (P : Platform) (queue : list QueueRecord)
    (overHead sync : Z) (w : PortTransmitter.World) :
  let result := PortTransmitter.sendQueueTransmit P queue overHead sync w in
  let ret := fst (fst result) in
  let w' := snd result in
  exists k : nat,
    sentLengths (PortTransmitter.trace_ w')
      = sentLengths (PortTransmitter.trace_ w)
        ++ map (fun r : QueueRecord => to_int (caplen (fst r))) (take k queue) /\
    ((ret = 0 /\ k = length queue /\
      (queue <> [] -> PortTransmitter.stop_ (PortTransmitter.tx_ w') = false)) \/
     (ret = -2 /\ (1 <= k <= length queue)%nat /\
      PortTransmitter.stop_ (PortTransmitter.tx_ w') = true)).
Proof.
  intros result ret w'. subst ret w' result.
  unfold PortTransmitter.sendQueueTransmit.
  destruct (PortTransmitter.getTimeStamp P w) as [ovrStart w1] eqn:E1.
  apply getTimeStamp_trace in E1.
  destruct (PortTransmitter.sendQueueTransmit_loop P queue sync _ ovrStart overHead w1)
    as [[ret oh'] w'] eqn:H.
  destruct (sendQueueTransmit_loop_order P queue _ _ _ _ _ _ _ _ H) as (k & Hk & Hcase).
  exists k. rewrite <- E1. split; [exact Hk | exact Hcase].
Qed.

(** *** The waits of one queue when the clock shows no time passing *)

Lemma to_long_0 (P : Platform) : to_long P 0 = 0.
Proof. unfold to_long. destruct (os P); reflexivity. Qed.

Lemma assertedOverHeads_app (a b : list PortTransmitter.Event) :
  assertedOverHeads (a ++ b) = assertedOverHeads a ++ assertedOverHeads b.
Proof. apply omap_app. Qed.

Lemma sendQueueTransmit_loop_gaps (P : Platform) (queue : list QueueRecord) :
  forall (sync : Z) (ts0 : timeval) (w : PortTransmitter.World),
    os P = OtherOS -> sync <> 0 -> calm w -> chronological P ts0 queue ->
    exists w',
      PortTransmitter.sendQueueTransmit_loop P queue sync ts0
        PortTransmitter.NoStamp 0 w = (0, 0, w') /\
      calm w' /\
      delays (PortTransmitter.trace_ w')
        = delays (PortTransmitter.trace_ w)
          ++ filter (fun g => 0 < g) (gapsFrom ts0 queue) /\
      assertedOverHeads (PortTransmitter.trace_ w')
        = assertedOverHeads (PortTransmitter.trace_ w)
          ++ map (fun _ => 0) queue.
Proof.
  induction queue as [|[hdr pkt] rest IH]; intros sync ts0 w Hos Hsync Hw Hchrono.
  - exists w. split; [reflexivity|]. split; [exact Hw|].
    split; symmetry; apply app_nil_r.
  - destruct Hchrono as (Hfit & Hpos & Hrest).
    cbn [PortTransmitter.sendQueueTransmit_loop].
    replace (sync =? 0) with false by (symmetry; apply Z.eqb_neq; exact Hsync).
    assert (Hstamp : forall w0, PortTransmitter.getTimeStamp P w0
                                = (PortTransmitter.NoStamp, w0)).
    { intros w0. unfold PortTransmitter.getTimeStamp. rewrite Hos. reflexivity. }
    rewrite Hstamp. cbn [PortTransmitter.udiffTimeStamp].
    rewrite (usecsBetween_exact P _ _ Hfit).
    replace (0 - 0) with 0 by lia. rewrite to_long_0, Z.add_0_r.
    destruct Hfit as (_ & _ & _ & Hfit). rewrite (to_long_fits P _ Hfit).
    set (g := exactUsecs ts0 (ts hdr)) in *.
    set (wb := PortTransmitter.log (PortTransmitter.EvAssertOverHead 0) w).
    assert (Hwb : calm wb) by (revert Hw; apply calm_same; reflexivity).
    destruct (PortTransmitter.waitOrOwe g wb) as [oh2 wc] eqn:Ec.
    assert (Hoh2 : oh2 = 0).
    { revert Ec. unfold PortTransmitter.waitOrOwe. destruct (0 <? g) eqn:Eg;
        intros [= <- _]; [reflexivity|]. apply Z.ltb_ge in Eg. lia. }
    assert (Hdel : delays (PortTransmitter.trace_ wc)
                   = delays (PortTransmitter.trace_ w)
                     ++ (if decide (0 < g) then [g] else [])).
    { revert Ec. unfold PortTransmitter.waitOrOwe.
      destruct (decide (0 < g)) as [Hg|Hg].
      - replace (0 <? g) with true by (symmetry; apply Z.ltb_lt; exact Hg).
        intros [= _ <-]. subst wb. simpl. rewrite !delays_app. simpl.
        rewrite app_nil_r. reflexivity.
      - replace (0 <? g) with false by (symmetry; apply Z.ltb_ge; lia).
        intros [= _ <-]. subst wb. simpl. rewrite delays_app. simpl.
        rewrite !app_nil_r. reflexivity. }
    assert (Hass : assertedOverHeads (PortTransmitter.trace_ wc)
                   = assertedOverHeads (PortTransmitter.trace_ w) ++ [0]).
    { revert Ec. unfold PortTransmitter.waitOrOwe, assertedOverHeads.
      destruct (0 <? g); intros [= _ <-]; subst wb; simpl;
        rewrite !omap_app; simpl; rewrite ?app_nil_r; reflexivity. }
    pose proof (waitOrOwe_calm _ _ _ _ Ec Hwb) as Hwc.
    subst oh2. rewrite Hstamp.
    destruct (PortTransmitter.pcap_sendpacket _ wc) as [r w2] eqn:E2.
    destruct (PortTransmitter.readStop _) as [stop w4] eqn:E4.
    assert (Hw2 : calm w2) by (eapply pcap_sendpacket_calm; eassumption).
    assert (Htr4 : PortTransmitter.trace_ w4
                   = PortTransmitter.trace_ wc
                     ++ [PortTransmitter.EvSendPacket (to_int (caplen hdr)) r]).
    { revert E2 E4. intros [= <- <-] [= _ <-]. reflexivity. }
    apply readStop_calm in E4 as [-> Hw4];
      [|revert Hw2; apply calm_same; reflexivity].
    destruct (IH sync (ts hdr) w4 Hos Hsync Hw4 Hrest) as (w' & Hrun & Hw' & Hd & Ha).
    exists w'. split; [exact Hrun|]. split; [exact Hw'|]. split.
    + rewrite Hd, Htr4, delays_app, Hdel. simpl. rewrite app_nil_r.
      cbn [gapsFrom]. fold g. rewrite filter_cons.
      destruct (decide (0 < g)); rewrite <- app_assoc; reflexivity.
    + rewrite Ha, Htr4, assertedOverHeads_app, Hass.
      simpl. rewrite app_nil_r, <- app_assoc. reflexivity.
Qed.

(** On the build without a clock, where [udiffTimeStamp] is always 0, with
    no overhead owed and nobody stopping the worker, [sendQueueTransmit] on
    a queue whose time stamps do not go back sends the whole queue, asks
    for exactly the positive gaps between one packet and the next, in
    order, meets every assertion with an overhead of 0 and returns an
    overhead of 0. *)
Theorem sendQueueTransmit_waits_the_gaps (P : Platform) (queue : list QueueRecord)
    (sync : Z) (w : PortTransmitter.World) :
  os P = OtherOS -> sync <> 0 -> calm w ->
  chronological P (firstStamp queue) queue ->
  exists w',
    PortTransmitter.sendQueueTransmit P queue 0 sync w = (0, 0, w') /\
    delays (PortTransmitter.trace_ w')
      = delays (PortTransmitter.trace_ w)
        ++ filter (fun g => 0 < g) (gapsFrom (firstStamp queue) queue) /\
    Forall (fun v => v = 0)
      (drop (length (assertedOverHeads (PortTransmitter.trace_ w)))
            (assertedOverHeads (PortTransmitter.trace_ w'))).
Proof.
  intros Hos Hsync Hw Hchrono.
  destruct (sendQueueTransmit_loop_gaps P queue sync (firstStamp queue) w
              Hos Hsync Hw Hchrono) as (w' & Hrun & _ & Hd & Ha).
  exists w'. split; [|split; [exact Hd|]].
  - unfold PortTransmitter.sendQueueTransmit, PortTransmitter.getTimeStamp.
    rewrite Hos. exact Hrun.
  - rewrite Ha, drop_app_length. apply Forall_forall. intros v Hv.
    apply list_elem_of_In, in_map_iff in Hv. destruct Hv as (_ & <- & _). reflexivity.
Qed.

Lemma sendQueueTransmit_waits_the_gaps_witness :
  exists w',
    PortTransmitter.sendQueueTransmit MoreSamples.noClock MoreSamples.threePackets
      0 1 (PortTransmitter.boot Samples.idle Samples.quiet) = (0, 0, w') /\
    delays (PortTransmitter.trace_ w') = [100; 200].
Proof.
  destruct (sendQueueTransmit_waits_the_gaps MoreSamples.noClock
              MoreSamples.threePackets 1
              (PortTransmitter.boot Samples.idle Samples.quiet))
    as (w' & Hrun & Hd & _).
  - reflexivity.
  - discriminate.
  - split; [reflexivity|]. split; constructor.
  - vm_compute. repeat split; congruence.
  - exists w'. split; [exact Hrun | exact Hd].
Defined.

(** *** A whole pass over the list *)

Lemma settingsKept_forJ (P : Platform) (l : list PacketSequence.t)
    (i rptSz overHead : Z) (n : nat) (w : PortTransmitter.World) :
  settingsKept w (flowWorld (PortTransmitter.forJ P n l i rptSz overHead w)).
Proof.
  assert (Htime : forall w0 t w', PortTransmitter.getTimeStamp P w0 = (t, w') ->
                                  settingsKept w0 w').
  { intros w0 t w'. unfold PortTransmitter.getTimeStamp.
    destruct (os P); intros [= _ <-]; repeat split. }
  assert (Hwait : forall u oh w0 w', PortTransmitter.waitOrOwe u w0 = (oh, w') ->
                                     settingsKept w0 w').
  { intros u oh w0 w'. unfold PortTransmitter.waitOrOwe.
    destruct (0 <? u); intros [= _ <-]; repeat split. }
  apply (kept_forJ P settingsKept);
    try (exact settingsKept_refl); try (exact settingsKept_trans);
    try (exact Htime); try (exact Hwait);
    try (intros; repeat split; fail).
  all: try (intros n0 r stop w0 w2 w4 [= _ <-] [= _ <-]; repeat split).
  all: try (intros r w0 w' [= _ <-]; repeat split).
  all: try (intros b w0 w' [= _ <-]; repeat split).
Qed.

(** The group at [i], when nobody stops the worker: it is played to its
    end, the list and the loop mode are as before. *)
Lemma group_played (P : Platform) (i overHead : Z) (w : PortTransmitter.World)
    (first : PacketSequence.t) :
  let l := PortTransmitter.packetSequenceList_ (PortTransmitter.tx_ w) in
  let rptSz := to_int (PacketSequence.repeatSize_ first) in
  let rptCnt := to_int (PacketSequence.repeatCount_ first) in
  PortTransmitter.at_ l i = Some first ->
  i + rptSz <= Z.of_nat (length l) -> Z.of_nat (length l) < 2 ^ 31 ->
  calm w ->
  exists oh' w',
    PortTransmitter.forJ P (Z.to_nat rptCnt) l i rptSz overHead w
      = PortTransmitter.Next oh' w' /\
    calm w' /\ settingsKept w w' /\
    map fst (seqEvents (PortTransmitter.trace_ w'))
      = map fst (seqEvents (PortTransmitter.trace_ w)) ++ groupPlan i rptSz rptCnt.
Proof.
  intros l rptSz rptCnt Hat Hin Hlen Hw.
  pose proof (at_Some_range l i first Hat) as Hi.
  pose proof (forJ_plan P l i rptSz (Z.to_nat rptCnt) 0 overHead w) as Hplan.
  fold (groupPlan i rptSz rptCnt) in Hplan.
  destruct (play_calm P l (groupPlan i rptSz rptCnt) overHead w) as (oh' & w' & Hnext & Hw').
  { apply Forall_forall. intros idx Hidx. apply list_elem_of_In in Hidx.
    apply at_in_range.
    apply (groupPlan_in_range i rptSz rptCnt (Z.of_nat (length l)) idx); try lia.
    exact Hidx. }
  { exact Hw. }
  exists oh', w'. rewrite Hplan. split; [exact Hnext|]. split; [exact Hw'|]. split.
  - pose proof (settingsKept_forJ P l i rptSz overHead (Z.to_nat rptCnt) w) as Hk.
    rewrite Hplan, Hnext in Hk. exact Hk.
  - eapply play_Next_events. exact Hnext.
Qed.

Lemma restart_plays_list (P : Platform) (fuel : nat) :
  forall (i overHead : Z) (w : PortTransmitter.World),
    let l := PortTransmitter.packetSequenceList_ (PortTransmitter.tx_ w) in
    calm w -> groupsFit l -> Z.of_nat (length l) < 2 ^ 31 ->
    PortTransmitter.returnToQIdx_ (PortTransmitter.tx_ w) < 0 ->
    0 <= i < Z.of_nat (length l) ->
    Z.of_nat (length l) - i <= Z.of_nat fuel ->
    exists w1,
      PortTransmitter.restart P fuel i overHead w
        = PortTransmitter.Returned (PortTransmitter.writeState kFinished w1) /\
      map fst (seqEvents (PortTransmitter.trace_ w1))
        = map fst (seqEvents (PortTransmitter.trace_ w)) ++ fullPlan fuel l i.
Proof.
  induction fuel as [|fuel IH]; intros i overHead w l Hw Hfit Hlen Hret Hi Hfuel;
    [simpl in Hfuel; lia|].
  unfold l in *. clear l.
  destruct (at_in_range _ i Hi) as [first Hat].
  destruct (Hfit i first Hat) as [Hsz Hin].
  destruct (group_played P i overHead w first Hat Hin Hlen Hw)
    as (oh' & w' & Hgroup & Hw' & (Hl & Hq & _) & Hev).
  cbn [PortTransmitter.restart fullPlan]. rewrite Hat. cbv zeta.
  rewrite Hgroup. rewrite to_int_fits by lia.
  destruct (i + to_int (PacketSequence.repeatSize_ first)
            <? Z.of_nat (length (PortTransmitter.packetSequenceList_
                                   (PortTransmitter.tx_ w)))) eqn:Emore.
  - apply Z.ltb_lt in Emore.
    destruct (IH (i + to_int (PacketSequence.repeatSize_ first)) oh' w')
      as (w1 & Hrun & Hev1); try (rewrite ?Hl, ?Hq; assumption || lia).
    exists w1. split; [exact Hrun|].
    rewrite Hev1, Hev, Hl, <- app_assoc. reflexivity.
  - replace (0 <=? PortTransmitter.returnToQIdx_ (PortTransmitter.tx_ w')) with false
      by (symmetry; apply Z.leb_gt; rewrite Hq; exact Hret).
    exists w'. split; [reflexivity|]. rewrite Hev, app_nil_r. reflexivity.
Qed.

Lemma seqEvents_state (tr : list PortTransmitter.Event) (s : State) :
  seqEvents (tr ++ [PortTransmitter.EvState s]) = seqEvents tr.
Proof. rewrite seqEvents_app. apply app_nil_r. Qed.

(** With the outer loop off and nobody stopping the worker, [run] on a list
    whose groups lie inside the list returns once it has played each group
    in list order: the sequences transmitted are the plan of the whole
    list, [state_] is [kFinished] and [stop_] is still clear.  A fuel of
    one turn per sequence is enough. *)
Theorem run_plays_the_list_once (P : Platform) (fuel : nat) (tx : PortTransmitter.t)
    (o : PortTransmitter.Oracle) :
  let l := PortTransmitter.packetSequenceList_ tx in
  let w := PortTransmitter.boot tx o in
  calm w -> groupsFit l -> 0 < Z.of_nat (length l) < 2 ^ 31 ->
  PortTransmitter.returnToQIdx_ tx < 0 ->
  (length l <= fuel)%nat ->
  exists w',
    PortTransmitter.run P fuel w = PortTransmitter.Returned w' /\
    map fst (seqEvents (PortTransmitter.trace_ w')) = fullPlan fuel l 0 /\
    PortTransmitter.state_ (PortTransmitter.tx_ w') = kFinished /\
    PortTransmitter.isRunning (PortTransmitter.tx_ w') = false.
Proof.
  intros l w Hw Hfit Hlen Hret Hfuel.
  unfold PortTransmitter.run.
  replace (Z.of_nat (length (PortTransmitter.packetSequenceList_ (PortTransmitter.tx_ w)))
           <=? 0) with false by (symmetry; apply Z.leb_gt; simpl; fold l; lia).
  assert (Hw0 : calm (PortTransmitter.writeState kRunning w))
    by (revert Hw; apply calm_same; reflexivity).
  destruct (restart_plays_list P fuel 0 0 (PortTransmitter.writeState kRunning w)
              Hw0 Hfit (proj2 Hlen) Hret)
    as (w1 & Hrun & Hev); [simpl; fold l; lia | simpl; fold l; lia |].
  exists (PortTransmitter.writeState kFinished w1).
  split; [exact Hrun|]. split; [|split; reflexivity].
  simpl. rewrite seqEvents_state, Hev. reflexivity.
Qed.

Lemma groupsFitFrom_lookup (size : Z) (l : list PacketSequence.t) :
  forall (n k : nat) (s : PacketSequence.t),
    groupsFitFrom n size l = true -> l !! k = Some s ->
    1 <= to_int (PacketSequence.repeatSize_ s) /\
    Z.of_nat (n + k) + to_int (PacketSequence.repeatSize_ s) <= size.
Proof.
  induction l as [|x l IH]; intros n k s Hfit Hk; [discriminate|].
  cbn [groupsFitFrom] in Hfit.
  apply andb_prop in Hfit as [Hfit Hrest]. apply andb_prop in Hfit as [H1 H2].
  destruct k as [|k].
  - injection Hk as <-. apply Z.leb_le in H1, H2.
    rewrite Nat.add_0_r. split; assumption.
  - replace (n + S k)%nat with (S n + k)%nat by lia.
    apply (IH (S n) k s Hrest). exact Hk.
Qed.

Lemma groupsFitFrom_groupsFit (l : list PacketSequence.t) :
  groupsFitFrom 0 (Z.of_nat (length l)) l = true -> groupsFit l.
Proof.
  intros Hfit i first Hat.
  pose proof (at_Some_range l i first Hat) as Hi.
  unfold PortTransmitter.at_ in Hat.
  replace (i <? 0) with false in Hat by (symmetry; apply Z.ltb_ge; lia).
  destruct (groupsFitFrom_lookup _ l 0 (Z.to_nat i) first Hfit Hat) as [H1 H2].
  split; [exact H1|]. simpl in H2. lia.
Qed.

Lemma run_plays_the_list_once_witness :
  exists w',
    PortTransmitter.run Samples.linux64 3
      (PortTransmitter.boot MoreSamples.threeSequences Samples.quiet)
      = PortTransmitter.Returned w' /\
    map fst (seqEvents (PortTransmitter.trace_ w')) = [0; 1; 1; 2].
Proof.
  destruct (run_plays_the_list_once Samples.linux64 3 MoreSamples.threeSequences
              Samples.quiet) as (w' & Hrun & Hev & _).
  - split; [reflexivity|]. split; constructor.
  - apply groupsFitFrom_groupsFit. reflexivity.
  - vm_compute. split; reflexivity.
  - reflexivity.
  - simpl. lia.
  - exists w'. split; [exact Hrun | exact Hev].
Defined.

(** *** The outer loop *)

Lemma stateKept_forJ (P : Platform) (l : list PacketSequence.t)
    (i rptSz overHead : Z) (n : nat) (w : PortTransmitter.World) :
  PortTransmitter.state_
    (PortTransmitter.tx_ (flowWorld (PortTransmitter.forJ P n l i rptSz overHead w)))
  = PortTransmitter.state_ (PortTransmitter.tx_ w).
Proof.
  apply (kept_forJ P
           (fun a b => PortTransmitter.state_ (PortTransmitter.tx_ b)
                       = PortTransmitter.state_ (PortTransmitter.tx_ a))).
  - reflexivity.
  - intros a b c H1 H2. congruence.
  - intros w0 t w2. unfold PortTransmitter.getTimeStamp.
    destruct (os P); intros [= _ <-]; reflexivity.
  - reflexivity.
  - intros u oh w0 w2. unfold PortTransmitter.waitOrOwe.
    destruct (0 <? u); intros [= _ <-]; reflexivity.
  - intros n0 r stop w0 w2 w4 [= _ <-] [= _ <-]. reflexivity.
  - intros r w0 w2 [= _ <-]. reflexivity.
  - reflexivity.
  - intros b w0 w2 [= _ <-]. reflexivity.
  - reflexivity.
  - reflexivity.
Qed.

Lemma restart_loops (P : Platform) (fuel : nat) :
  forall (i overHead : Z) (w : PortTransmitter.World),
    let l := PortTransmitter.packetSequenceList_ (PortTransmitter.tx_ w) in
    let q := PortTransmitter.returnToQIdx_ (PortTransmitter.tx_ w) in
    calm w -> groupsFit l -> Z.of_nat (length l) < 2 ^ 31 ->
    0 <= q < Z.of_nat (length l) ->
    0 <= i < Z.of_nat (length l) ->
    exists w1,
      PortTransmitter.restart P fuel i overHead w = PortTransmitter.StillRunning w1 /\
      map fst (seqEvents (PortTransmitter.trace_ w1))
        = map fst (seqEvents (PortTransmitter.trace_ w)) ++ loopPlan fuel l q i /\
      PortTransmitter.state_ (PortTransmitter.tx_ w1)
        = PortTransmitter.state_ (PortTransmitter.tx_ w).
Proof.
  induction fuel as [|fuel IH]; intros i overHead w l q Hw Hfit Hlen Hq Hi.
  { exists w. split; [reflexivity|]. split; [|reflexivity].
    symmetry. apply app_nil_r. }
  unfold l, q in *. clear l q.
  destruct (at_in_range _ i Hi) as [first Hat].
  destruct (Hfit i first Hat) as [Hsz Hin].
  destruct (group_played P i overHead w first Hat Hin Hlen Hw)
    as (oh' & w' & Hgroup & Hw' & (Hl & Hret & Hdelay) & Hev).
  pose proof (stateKept_forJ P
                (PortTransmitter.packetSequenceList_ (PortTransmitter.tx_ w))
                i (to_int (PacketSequence.repeatSize_ first)) overHead
                (Z.to_nat (to_int (PacketSequence.repeatCount_ first))) w) as Hst.
  rewrite Hgroup in Hst. cbn [flowWorld] in Hst.
  cbn [PortTransmitter.restart loopPlan]. rewrite Hat. cbv zeta.
  rewrite Hgroup. rewrite to_int_fits by lia.
  destruct (i + to_int (PacketSequence.repeatSize_ first)
            <? Z.of_nat (length (PortTransmitter.packetSequenceList_
                                   (PortTransmitter.tx_ w)))) eqn:Emore.
  - apply Z.ltb_lt in Emore.
    destruct (IH (i + to_int (PacketSequence.repeatSize_ first)) oh' w')
      as (w1 & Hrun & Hev1 & Hst1); try (rewrite ?Hl, ?Hret; assumption || lia).
    exists w1. split; [exact Hrun|]. split; [|congruence].
    rewrite Hev1, Hev, Hl, Hret, <- app_assoc. reflexivity.
  - replace (0 <=? PortTransmitter.returnToQIdx_ (PortTransmitter.tx_ w')) with true
      by (symmetry; apply Z.leb_le; rewrite Hret; lia).
    destruct (PortTransmitter.waitOrOwe _ w') as [oh2 w2] eqn:Ewait.
    assert (Hw2 : calm w2) by (eapply waitOrOwe_calm; eassumption).
    assert (Hk2 : settingsKept w' w2 /\
                  PortTransmitter.state_ (PortTransmitter.tx_ w2)
                  = PortTransmitter.state_ (PortTransmitter.tx_ w')).
    { revert Ewait. unfold PortTransmitter.waitOrOwe.
      destruct (0 <? _); intros [= _ <-]; repeat split. }
    destruct Hk2 as ((Hl2 & Hret2 & _) & Hst2).
    rewrite Hret, to_int_fits by lia.
    destruct (IH (PortTransmitter.returnToQIdx_ (PortTransmitter.tx_ w)) oh2 w2)
      as (w1 & Hrun & Hev1 & Hst1);
      try (rewrite ?Hl2, ?Hret2, ?Hl, ?Hret; assumption || lia).
    exists w1. split; [exact Hrun|]. split; [|congruence].
    rewrite Hev1, (silent_seqEvents w' w2 (waitOrOwe_silent _ _ _ _ Ewait)).
    rewrite Hev, Hl2, Hret2, Hl, Hret, <- app_assoc. reflexivity.
Qed.

(** With the outer loop on ([0 <= returnToQIdx_ < size]) and nobody stopping
    the worker, [run] on a list whose groups lie inside the list never
    returns: after any number of groups it is still in its loop, having
    played the list once from the start and then again and again from
    [returnToQIdx_] to the end. *)
Theorem run_with_loop_never_returns (P : Platform) (fuel : nat)
    (tx : PortTransmitter.t) (o : PortTransmitter.Oracle) :
  let l := PortTransmitter.packetSequenceList_ tx in
  let q := PortTransmitter.returnToQIdx_ tx in
  let w := PortTransmitter.boot tx o in
  calm w -> groupsFit l -> Z.of_nat (length l) < 2 ^ 31 ->
  0 <= q < Z.of_nat (length l) ->
  exists w',
    PortTransmitter.run P fuel w = PortTransmitter.StillRunning w' /\
    map fst (seqEvents (PortTransmitter.trace_ w')) = loopPlan fuel l q 0 /\
    PortTransmitter.state_ (PortTransmitter.tx_ w') = kRunning.
Proof.
  intros l q w Hw Hfit Hlen Hq.
  unfold PortTransmitter.run.
  replace (Z.of_nat (length (PortTransmitter.packetSequenceList_ (PortTransmitter.tx_ w)))
           <=? 0) with false by (symmetry; apply Z.leb_gt; simpl; fold l; lia).
  assert (Hw0 : calm (PortTransmitter.writeState kRunning w))
    by (revert Hw; apply calm_same; reflexivity).
  destruct (restart_loops P fuel 0 0 (PortTransmitter.writeState kRunning w)
              Hw0 Hfit Hlen Hq)
    as (w1 & Hrun & Hev & Hst); [simpl; fold l; lia |].
  exists w1. split; [exact Hrun|]. split; [exact Hev | exact Hst].
Qed.

Lemma run_with_loop_never_returns_witness :
  exists w',
    PortTransmitter.run Samples.linux64 5
      (PortTransmitter.boot MoreSamples.threeSequencesLooping Samples.quiet)
      = PortTransmitter.StillRunning w' /\
    map fst (seqEvents (PortTransmitter.trace_ w')) = [0; 1; 1; 2; 1; 1; 2].
Proof.
  destruct (run_with_loop_never_returns Samples.linux64 5
              MoreSamples.threeSequencesLooping Samples.quiet)
    as (w' & Hrun & Hev & _).
  - split; [reflexivity|]. split; constructor.
  - apply groupsFitFrom_groupsFit. reflexivity.
  - vm_compute. reflexivity.
  - vm_compute. split; [discriminate | reflexivity].
  - exists w'. split; [exact Hrun | exact Hev].
Defined.

(** ** Further properties of the construction calls *)

Lemma keepsPackets_refl (s : PacketSequence.t) : keepsPackets s s.
Proof. repeat split. Qed.

Lemma keepsPackets_trans (a b c : PacketSequence.t) :
  keepsPackets a b -> keepsPackets b c -> keepsPackets a c.
Proof.
  intros (H1 & H2 & H3 & H4 & H5 & H6) (G1 & G2 & G3 & G4 & G5 & G6).
  repeat split; congruence.
Qed.

Lemma allKept_refl (l : list PacketSequence.t) : allKept l l.
Proof. intros i s H. exists s. split; [exact H | apply keepsPackets_refl]. Qed.

Lemma allKept_trans (a b c : list PacketSequence.t) :
  allKept a b -> allKept b c -> allKept a c.
Proof.
  intros H1 H2 i s Hs. destruct (H1 i s Hs) as (s1 & Hs1 & K1).
  destruct (H2 i s1 Hs1) as (s2 & Hs2 & K2).
  exists s2. split; [exact Hs2 | eapply keepsPackets_trans; eassumption].
Qed.

Lemma allKept_snoc (l : list PacketSequence.t) (x : PacketSequence.t) :
  allKept l (l ++ [x]).
Proof.
  intros i s H. exists s. split; [|apply keepsPackets_refl].
  rewrite lookup_app_l; [exact H | eapply lookup_lt_Some; exact H].
Qed.

(** A sequence replaced by one that keeps its packets. *)
Lemma allKept_insert (l : list PacketSequence.t) (c : nat) (cur cur' : PacketSequence.t) :
  l !! c = Some cur -> keepsPackets cur cur' -> allKept l (<[c := cur']> l).
Proof.
  intros Hc Hk i s Hs. destruct (decide (i = c)) as [->|Hne].
  - exists cur'. split.
    + apply list_lookup_insert_eq. eapply lookup_lt_Some. exact Hc.
    + replace s with cur by congruence. exact Hk.
  - exists s. split; [|apply keepsPackets_refl].
    rewrite list_lookup_insert_ne by congruence. exact Hs.
Qed.

Lemma newSequence_keeps (P : Platform) (h : pcap_pkthdr) (length_ : Z)
    (tx tx1 : PortTransmitter.t) :
  PortTransmitter.appendToPacketList_newSequence P h length_ tx = Some tx1 ->
  let l := PortTransmitter.packetSequenceList_ tx in
  let l1 := PortTransmitter.packetSequenceList_ tx1 in
  allKept l l1 /\
  ((l1 = l /\ PortTransmitter.currentPacketSequence_ tx1
              = PortTransmitter.currentPacketSequence_ tx /\
    exists c cur, PortTransmitter.currentPacketSequence_ tx = Some c /\
                  l !! c = Some cur /\
                  PacketSequence.hasFreeSpace P cur (2 * sizeof_pcap_pkthdr P + length_)
                  = true) \/
   (length l1 = S (length l) /\
    PortTransmitter.currentPacketSequence_ tx1 = Some (length l))).
Proof.
  unfold PortTransmitter.appendToPacketList_newSequence.
  destruct (PortTransmitter.currentPacketSequence_ tx) as [c|] eqn:Ecur.
  - destruct (PortTransmitter.packetSequenceList_ tx !! c) as [cur|] eqn:El;
      cbn [mbind option_bind]; [|discriminate].
    destruct (PacketSequence.hasFreeSpace P cur _) eqn:Efree.
    + intros [= <-]. cbv zeta. split; [apply allKept_refl|]. left.
      split; [reflexivity|]. split; [exact Ecur|]. exists c, cur. auto.
    + destruct (PacketSequence.lastPacket_ cur) as [last|];
        cbn [mbind option_bind]; [|discriminate].
      intros [= <-]. cbn. split.
      * eapply allKept_trans; [|apply allKept_snoc].
        eapply allKept_insert; [exact El|]. repeat split.
      * right. rewrite length_app, length_insert. simpl. split; [lia | reflexivity].
  - intros [= <-]. cbn. split; [apply allKept_snoc|]. right.
    rewrite length_app. simpl. split; [lia | reflexivity].
Qed.

Lemma closeGroup_keeps (tx2 tx3 : PortTransmitter.t) :
  PortTransmitter.appendToPacketList_closeGroup tx2 = Some tx3 ->
  allKept (PortTransmitter.packetSequenceList_ tx2)
          (PortTransmitter.packetSequenceList_ tx3) /\
  length (PortTransmitter.packetSequenceList_ tx3)
    = length (PortTransmitter.packetSequenceList_ tx2) /\
  PortTransmitter.packetCount_ tx3 = PortTransmitter.packetCount_ tx2 + 1.
Proof.
  unfold PortTransmitter.appendToPacketList_closeGroup.
  destruct (_ && _).
  - destruct (_ && _); [|discriminate].
    destruct (PortTransmitter.packetSequenceList_ tx2 !! _) as [start|] eqn:Es;
      cbn [mbind option_bind]; [|discriminate].
    destruct (PortTransmitter.currentPacketSequence_ tx2) as [c|];
      cbn [mbind option_bind]; [|discriminate].
    destruct (PortTransmitter.packetSequenceList_ tx2 !! c) as [cur|] eqn:Ec;
      cbn [mbind option_bind]; [|discriminate].
    intros [= <-]. cbn.
    destruct (decide (c = _)) as [Heq|Hne].
    + split; [apply allKept_refl|]. split; reflexivity.
    + split; [|split; [rewrite !length_insert; reflexivity | reflexivity]].
      eapply allKept_trans.
      * apply (allKept_insert _ c cur
                 (PacketSequence.set_usecDelay (PacketSequence.usecDelay_ start) cur) Ec).
        repeat split.
      * apply (allKept_insert _ _ start); [|repeat split].
        rewrite list_lookup_insert_ne by congruence. exact Es.
  - intros [= <-]. cbn. split; [apply allKept_refl|]. split; reflexivity.
Qed.

(** [appendToPacketList] on a transmitter built by the construction calls
    has a result unless it has to read the last packet of a full sequence
    that has none; the two assertions on [repeatSequenceStart_] hold.  The
    list keeps its sequences in place and grows by at most one, the packet
    count grows by one, and every sequence but the one that takes the packet
    keeps its packets, its duration and its repeat count. *)
Theorem appendToPacketList_appends_only (P : Platform) (tx : PortTransmitter.t)
    (sec nsec : Z) (packet : list Byte.byte) (length_ : Z) :
  built P tx ->
  canAppend P tx length_ ->
  let l := PortTransmitter.packetSequenceList_ tx in
  exists tx' op,
    PortTransmitter.appendToPacketList P sec nsec packet length_ tx = Some (tx', op) /\
    let l' := PortTransmitter.packetSequenceList_ tx' in
    (length l <= length l' <= S (length l))%nat /\
    PortTransmitter.packetCount_ tx' = PortTransmitter.packetCount_ tx + 1 /\
    wellFormed tx' /\
    forall i s,
      l !! i = Some s ->
      (PortTransmitter.currentPacketSequence_ tx = Some i ->
       PacketSequence.hasFreeSpace P s (2 * sizeof_pcap_pkthdr P + length_) = false) ->
      exists s', l' !! i = Some s' /\ keepsPackets s s'.
Proof.
  intros Hb Hcan l.
  pose proof (built_wellFormed P tx Hb) as Hwf.
  set (h := PortTransmitter.makeHeader sec nsec length_).
  destruct (newSequence_total P h length_ tx Hwf Hcan) as [tx1 E1].
  destruct (newSequence_wellFormed P h length_ tx tx1 Hwf E1)
    as (Hwf1 & [r Er] & _ & _ & Hpc1).
  destruct (newSequence_keeps P h length_ tx tx1 E1) as [Hk1 Hshape].
  destruct (write_wellFormed P h packet tx1 r Hwf1 Er)
    as (tx2 & op & cur1 & E2 & Hcur1 & Hl2 & Hwf2 & Er2 & _ & _ & Hpc2).
  destruct (closeGroup_wellFormed tx2 r Hwf2 Er2) as (tx3 & E3 & Hwf3).
  destruct (closeGroup_keeps tx2 tx3 E3) as (Hk3 & Hlen3 & Hpc3).
  exists tx3, op. split.
  { unfold PortTransmitter.appendToPacketList. fold h. rewrite E1.
    cbn [mbind option_bind]. rewrite E2. cbn [mbind option_bind fst snd].
    rewrite E3. reflexivity. }
  cbv zeta.
  assert (Hlen2 : length (PortTransmitter.packetSequenceList_ tx2)
                  = length (PortTransmitter.packetSequenceList_ tx1))
    by (rewrite Hl2; apply length_insert).
  split.
  { rewrite Hlen3, Hlen2.
    destruct Hshape as [(Hsame & _) | (Hgrow & _)];
      [rewrite Hsame; fold l; lia | rewrite Hgrow; fold l; lia]. }
  split; [lia|]. split; [exact Hwf3|].
  intros i s Hs Hfull.
  destruct (Hk1 i s Hs) as (s1 & Hs1 & K1).
  assert (Hne : i <> r).
  { destruct Hshape as [(_ & Hcur & c & cur & Hc & Hlc & Hfree) | (_ & Hcur)].
    - intros ->. rewrite Hcur, Hc in Er. injection Er as ->.
      specialize (Hfull Hc). unfold l in Hs. congruence.
    - rewrite Hcur in Er. injection Er as <-.
      apply lookup_lt_Some in Hs. unfold l in Hs. lia. }
  assert (Hs2 : PortTransmitter.packetSequenceList_ tx2 !! i = Some s1).
  { rewrite Hl2, list_lookup_insert_ne by congruence. exact Hs1. }
  destruct (Hk3 i s1 Hs2) as (s3 & Hs3 & K3).
  exists s3. split; [exact Hs3 | eapply keepsPackets_trans; eassumption].
Qed.

Lemma appendToPacketList_appends_only_witness :
  exists tx' op,
    PortTransmitter.appendToPacketList Samples.tiny 0 50000 Samples.payload 4
      Samples.groupHalf = Some (tx', op) /\
    length (PortTransmitter.packetSequenceList_ tx') = 2%nat /\
    PortTransmitter.packetCount_ tx' = 2.
Proof.
  destruct (appendToPacketList_appends_only Samples.tiny Samples.groupHalf
              0 50000 Samples.payload 4)
    as (tx' & op & H & _ & Hpc & _).
  - apply (built_append Samples.tiny Samples.groupOpen 0 0 Samples.payload 4
             Samples.groupHalf true); [|reflexivity].
    apply (built_loop Samples.tiny Samples.idle 2 3 0 1000000).
    apply (built_clear Samples.tiny Samples.idle Samples.idle). reflexivity.
  - intros c cur Hc Hl _. vm_compute in Hc. injection Hc as <-.
    vm_compute in Hl. injection Hl as <-. discriminate.
  - exists tx', op. split; [exact H|]. split; [|exact Hpc].
    vm_compute in H. injection H as <- _. reflexivity.
Defined.

(** *** A repeat group, packet after packet *)

(** One more packet in an open group: what the three parts do to the
    counters. *)
Lemma append_in_group (P : Platform) (tx tx' : PortTransmitter.t)
    (sec nsec : Z) (packet : list Byte.byte) (length_ : Z) (op : bool) :
  wellFormed tx ->
  0 < PortTransmitter.repeatSize_ tx ->
  PortTransmitter.appendToPacketList P sec nsec packet length_ tx = Some (tx', op) ->
  wellFormed tx' /\
  PortTransmitter.packetCount_ tx' = PortTransmitter.packetCount_ tx + 1 /\
  PortTransmitter.repeatSequenceStart_ tx' = PortTransmitter.repeatSequenceStart_ tx /\
  (PortTransmitter.packetCount_ tx + 1 <> PortTransmitter.repeatSize_ tx ->
   PortTransmitter.repeatSize_ tx' = PortTransmitter.repeatSize_ tx /\
   is_Some (PortTransmitter.currentPacketSequence_ tx')) /\
  (PortTransmitter.packetCount_ tx + 1 = PortTransmitter.repeatSize_ tx ->
   PortTransmitter.repeatSize_ tx' = 0 /\
   PortTransmitter.currentPacketSequence_ tx' = None).
Proof.
  intros Hwf Hpos. unfold PortTransmitter.appendToPacketList.
  set (h := PortTransmitter.makeHeader sec nsec length_).
  destruct (PortTransmitter.appendToPacketList_newSequence P h length_ tx)
    as [tx1|] eqn:E1; cbn [mbind option_bind]; [|discriminate].
  destruct (newSequence_wellFormed P h length_ tx tx1 Hwf E1)
    as (Hwf1 & [r Er] & Hrs1 & Hst1 & Hpc1).
  destruct (write_wellFormed P h packet tx1 r Hwf1 Er)
    as (tx2 & op2 & cur1 & E2 & _ & _ & Hwf2 & Er2 & Hrs2 & Hst2 & Hpc2).
  rewrite E2. cbn [mbind option_bind fst snd].
  destruct (PortTransmitter.appendToPacketList_closeGroup tx2) as [tx3|] eqn:E3;
    cbn [mbind option_bind]; [|discriminate].
  intros [= <- _].
  destruct (closeGroup_wellFormed tx2 r Hwf2 Er2) as (tx3' & E3' & Hwf3).
  rewrite E3 in E3'. injection E3' as <-.
  destruct (closeGroup_keeps tx2 tx3 E3) as (_ & _ & Hpc3).
  split; [exact Hwf3|]. split; [lia|].
  assert (Hopen : PortTransmitter.packetCount_ tx + 1 <> PortTransmitter.repeatSize_ tx ->
                  PortTransmitter.repeatSize_ tx3 = PortTransmitter.repeatSize_ tx /\
                  PortTransmitter.currentPacketSequence_ tx3 = Some r /\
                  PortTransmitter.repeatSequenceStart_ tx3
                  = PortTransmitter.repeatSequenceStart_ tx).
  { intros Hne. revert E3. unfold PortTransmitter.appendToPacketList_closeGroup.
    replace (PortTransmitter.packetCount_ tx2 + 1 =? PortTransmitter.repeatSize_ tx2)
      with false by (symmetry; apply Z.eqb_neq; lia).
    rewrite andb_false_r. intros [= <-]. cbn. split; [lia|]. split; [exact Er2 | lia]. }
  assert (Hclose : PortTransmitter.packetCount_ tx + 1 = PortTransmitter.repeatSize_ tx ->
                   PortTransmitter.repeatSize_ tx3 = 0 /\
                   PortTransmitter.currentPacketSequence_ tx3 = None /\
                   PortTransmitter.repeatSequenceStart_ tx3
                   = PortTransmitter.repeatSequenceStart_ tx).
  { intros Heq.
    destruct (closeGroup_closes tx2 r Hwf2 Er2)
      as (tx4 & start & cur & E4 & _ & _ & _ & _ & _ & Hrs4 & Hcur4 & _ & Hst4);
      [lia | lia |].
    rewrite E3 in E4. injection E4 as <-. split; [exact Hrs4|].
    split; [exact Hcur4 | lia]. }
  split.
  { destruct (Z.eq_dec (PortTransmitter.packetCount_ tx + 1)
                       (PortTransmitter.repeatSize_ tx)) as [Heq|Hne];
      [apply Hclose in Heq | apply Hopen in Hne]; tauto. }
  split.
  - intros Hne. destruct (Hopen Hne) as (H1 & H2 & _). split; [exact H1 | eauto].
  - intros Heq. destruct (Hclose Heq) as (H1 & H2 & _). auto.
Qed.

Lemma appendAll_in_group (P : Platform) (n : Z) (pkts : list PacketArgs) :
  forall (tx tx' : PortTransmitter.t),
    wellFormed tx ->
    PortTransmitter.repeatSize_ tx = n ->
    is_Some (PortTransmitter.currentPacketSequence_ tx) ->
    PortTransmitter.packetCount_ tx + Z.of_nat (length pkts) <= n ->
    0 <= PortTransmitter.packetCount_ tx < n ->
    appendAll P pkts tx = Some tx' ->
    PortTransmitter.packetCount_ tx'
      = PortTransmitter.packetCount_ tx + Z.of_nat (length pkts) /\
    PortTransmitter.repeatSequenceStart_ tx' = PortTransmitter.repeatSequenceStart_ tx /\
    (PortTransmitter.packetCount_ tx' < n ->
     PortTransmitter.repeatSize_ tx' = n /\
     is_Some (PortTransmitter.currentPacketSequence_ tx')) /\
    (PortTransmitter.packetCount_ tx' = n ->
     PortTransmitter.repeatSize_ tx' = 0 /\
     PortTransmitter.currentPacketSequence_ tx' = None).
Proof.
  induction pkts as [|[[[sec nsec] packet] length_] rest IH];
    intros tx tx' Hwf Hrs Hcur Hroom Hpc Hall.
  - injection Hall as <-. simpl. split; [lia|]. split; [reflexivity|].
    split; [auto | lia].
  - cbn [appendAll] in Hall.
    destruct (PortTransmitter.appendToPacketList P sec nsec packet length_ tx)
      as [[tx1 op]|] eqn:E1; cbn [mbind option_bind fst] in Hall; [|discriminate].
    destruct (append_in_group P tx tx1 sec nsec packet length_ op Hwf)
      as (Hwf1 & Hpc1 & Hst1 & Hopen & Hclose); [lia | exact E1 |].
    cbn [length] in Hroom |- *.
    destruct (Z.eq_dec (PortTransmitter.packetCount_ tx + 1) n) as [Heq|Hne].
    + destruct rest as [|x rest]; [|cbn [length] in Hroom; lia].
      injection Hall as <-. destruct Hclose as [H1 H2]; [lia|].
      simpl. split; [lia|]. split; [exact Hst1|]. split; [lia | auto].
    + destruct Hopen as [H1 H2]; [lia|].
      destruct (IH tx1 tx' Hwf1) as (G1 & G2 & G3 & G4); try assumption; try lia.
      split; [lia|]. split; [congruence|]. split; assumption.
Qed.

(** After [loopNextPacketSet(size, ...)] the group stays open, with the
    current sequence set, while fewer than [size] packets have been
    appended, and it is closed by the packet that makes [size]: then
    [repeatSize_] is 0 and there is no current sequence.  The packet count
    is the number of packets appended and the start of the group does not
    move. *)
Theorem group_closes_at_its_last_packet (P : Platform) (tx0 tx' : PortTransmitter.t)
    (size repeats delaySec delayNsec : Z) (pkts : list PacketArgs) :
  Z.of_nat (length pkts) <= size ->
  0 < size ->
  appendAll P pkts
    (PortTransmitter.loopNextPacketSet P size repeats delaySec delayNsec tx0)
    = Some tx' ->
  PortTransmitter.packetCount_ tx' = Z.of_nat (length pkts) /\
  PortTransmitter.repeatSequenceStart_ tx'
    = Z.of_nat (length (PortTransmitter.packetSequenceList_ tx0)) /\
  (Z.of_nat (length pkts) < size ->
   PortTransmitter.repeatSize_ tx' = size /\
   is_Some (PortTransmitter.currentPacketSequence_ tx')) /\
  (Z.of_nat (length pkts) = size ->
   PortTransmitter.repeatSize_ tx' = 0 /\
   PortTransmitter.currentPacketSequence_ tx' = None).
Proof.
  intros Hlen Hsize Hall.
  destruct (appendAll_in_group P size pkts
              (PortTransmitter.loopNextPacketSet P size repeats delaySec delayNsec tx0)
              tx')
    as (H1 & H2 & H3 & H4);
    try (simpl; lia); try exact Hall.
  - apply wellFormed_loopNextPacketSet.
  - simpl. unfold to_quint64.
    destruct (size <? 0) eqn:E; [apply Z.ltb_lt in E; lia | reflexivity].
  - simpl. eauto.
  - simpl in H1, H2. split; [lia|]. split; [exact H2|].
    split; [intros H; apply H3; lia | intros H; apply H4; lia].
Qed.

Lemma group_closes_at_its_last_packet_witness :
  exists tx',
    appendAll Samples.tiny [(0, 0, Samples.payload, 4); (0, 50000, Samples.payload, 4)]
      (PortTransmitter.loopNextPacketSet Samples.tiny 2 3 0 1000000 Samples.idle)
      = Some tx' /\
    PortTransmitter.repeatSize_ tx' = 0 /\
    PortTransmitter.currentPacketSequence_ tx' = None.
Proof.
  eexists. split; [vm_compute; reflexivity|].
  destruct (group_closes_at_its_last_packet Samples.tiny Samples.idle
              Samples.groupReady 2 3 0 1000000
              [(0, 0, Samples.payload, 4); (0, 50000, Samples.payload, 4)])
    as (_ & _ & _ & Hclose).
  - simpl. lia.
  - lia.
  - vm_compute. reflexivity.
  - apply Hclose. reflexivity.
Defined.

(** *** A group whose first sequence fills up *)

(** When the start sequence of an open group is still the current sequence,
    is full, and the packet appended completes the group, the gap from its
    last packet to the new packet is written over the delay that
    [loopNextPacketSet] stored on it and is then moved to the new sequence:
    the start sequence ends with [usecDelay] 0 and [repeatSize] 2, the new
    sequence with that gap as its [usecDelay], whatever delay the group was
    opened with. *)
Theorem full_group_start_hands_over_the_gap (P : Platform) (tx : PortTransmitter.t)
    (sec nsec : Z) (packet : list Byte.byte) (length_ : Z)
    (c : nat) (start : PacketSequence.t) (last : pcap_pkthdr) :
  built P tx ->
  PortTransmitter.currentPacketSequence_ tx = Some c ->
  PortTransmitter.repeatSequenceStart_ tx = Z.of_nat c ->
  PortTransmitter.packetSequenceList_ tx !! c = Some start ->
  PacketSequence.lastPacket_ start = Some last ->
  PacketSequence.hasFreeSpace P start (2 * sizeof_pcap_pkthdr P + length_) = false ->
  0 < PortTransmitter.repeatSize_ tx ->
  PortTransmitter.packetCount_ tx + 1 = PortTransmitter.repeatSize_ tx ->
  exists tx' op s0 s1,
    PortTransmitter.appendToPacketList P sec nsec packet length_ tx = Some (tx', op) /\
    length (PortTransmitter.packetSequenceList_ tx') = S (S c) /\
    PortTransmitter.packetSequenceList_ tx' !! c = Some s0 /\
    PacketSequence.usecDelay_ s0 = 0 /\
    PacketSequence.repeatSize_ s0 = 2 /\
    PortTransmitter.packetSequenceList_ tx' !! S c = Some s1 /\
    PacketSequence.usecDelay_ s1
      = PacketSequence.usecsBetween P (ts last)
          (ts (PortTransmitter.makeHeader sec nsec length_)).
Proof.
  intros Hb Hcur Hstart Hlc Hlast Hfull Hpos Hcount.
  pose proof (built_wellFormed P tx Hb) as Hwf.
  assert (Hlen : S c = length (PortTransmitter.packetSequenceList_ tx))
    by (apply (proj1 Hwf); exact Hcur).
  set (h := PortTransmitter.makeHeader sec nsec length_).
  set (gap := PacketSequence.usecsBetween P (ts last) (ts h)).
  set (l0 := <[c := PacketSequence.set_usecDelay gap start]>
               (PortTransmitter.packetSequenceList_ tx)).
  set (tx0 := PortTransmitter.set_list l0 tx).
  assert (E1 : PortTransmitter.appendToPacketList_newSequence P h length_ tx
               = Some (PortTransmitter.appendNewSequence tx0)).
  { unfold PortTransmitter.appendToPacketList_newSequence.
    rewrite Hcur. cbn [mbind option_bind]. rewrite Hlc. cbn [mbind option_bind].
    rewrite Hfull, Hlast. reflexivity. }
  pose proof (write_after_appendNewSequence P h packet tx0) as E2. cbv zeta in E2.
  set (written := fst (PacketSequence.appendPacket P PacketSequence.new h packet)) in *.
  set (tx2 := PortTransmitter.set_list
                (PortTransmitter.packetSequenceList_ tx0 ++ [written])
                (PortTransmitter.appendNewSequence tx0)) in *.
  assert (Hlen0 : length l0 = S c) by (unfold l0; rewrite length_insert; lia).
  assert (Hwf2 : wellFormed tx2).
  { split; cbn.
    - intros r [= <-]. rewrite length_app, Hlen0. simpl. lia.
    - intros _. rewrite length_app, Hlen0, Hstart. simpl. lia. }
  assert (Ecur2 : PortTransmitter.currentPacketSequence_ tx2 = Some (S c)).
  { cbn. rewrite Hlen0. reflexivity. }
  destruct (closeGroup_closes tx2 (S c) Hwf2 Ecur2)
    as (tx' & start' & cur & E3 & Es & Ec & _ & _ & Hl' & _);
    [exact Hpos | exact Hcount |].
  assert (Hsi : Z.to_nat (PortTransmitter.repeatSequenceStart_ tx2) = c)
    by (cbn; rewrite Hstart; lia).
  rewrite Hsi in Es, Hl'.
  assert (Hs' : start' = PacketSequence.set_usecDelay gap start).
  { cbn in Es. rewrite lookup_app_l in Es by lia.
    unfold l0 in Es. rewrite list_lookup_insert_eq in Es by lia. congruence. }
  destruct (decide (S c = c)) as [Habs|_]; [lia|].
  assert (Hlen2 : length (PortTransmitter.packetSequenceList_ tx2) = S (S c)).
  { cbn. rewrite length_app, Hlen0. simpl. lia. }
  eexists tx', _, _, _. split.
  { unfold PortTransmitter.appendToPacketList. fold h. rewrite E1.
    cbn [mbind option_bind]. rewrite E2. cbn [mbind option_bind fst snd].
    rewrite E3. reflexivity. }
  rewrite Hl'. split; [rewrite !length_insert; exact Hlen2|].
  split; [apply list_lookup_insert_eq; rewrite length_insert; lia|].
  split; [reflexivity|].
  split; [cbn [PacketSequence.set_repeatSize PacketSequence.repeatSize_];
          rewrite Hlen2; cbn [PortTransmitter.repeatSequenceStart_ tx2
            PortTransmitter.set_list PortTransmitter.appendNewSequence tx0];
          rewrite Hstart; lia|].
  split.
  - rewrite list_lookup_insert_ne by lia. apply list_lookup_insert_eq. lia.
  - rewrite Hs'. reflexivity.
Qed.

Lemma full_group_start_hands_over_the_gap_witness :
  exists tx' op s1,
    PortTransmitter.appendToPacketList Samples.tiny 0 50000 Samples.payload 4
      Samples.groupHalf = Some (tx', op) /\
    PortTransmitter.packetSequenceList_ tx' !! 1%nat = Some s1 /\
    PacketSequence.usecDelay_ s1 = 50.
Proof.
  destruct (full_group_start_hands_over_the_gap Samples.tiny Samples.groupHalf
              0 50000 Samples.payload 4 0
              (PacketSequence.set_usecDelay 1000
                 (PacketSequence.set_repeatCount 3 Samples.firstSequence))
              Samples.firstHeader)
    as (tx' & op & s0 & s1 & H & _ & _ & _ & _ & Hs1 & Hd).
  - apply (built_append Samples.tiny Samples.groupOpen 0 0 Samples.payload 4
             Samples.groupHalf true); [|reflexivity].
    apply (built_loop Samples.tiny Samples.idle 2 3 0 1000000).
    apply (built_clear Samples.tiny Samples.idle Samples.idle). reflexivity.
  - reflexivity.
  - reflexivity.
  - reflexivity.
  - reflexivity.
  - reflexivity.
  - reflexivity.
  - reflexivity.
  - exists tx', op, s1. split; [exact H|]. split; [exact Hs1|].
    rewrite Hd. reflexivity.
Defined.

(** ** The clock difference on Linux *)

Lemma to_double_small (z : Z) : Z.abs z < 2 ^ 53 -> to_double z = z.
Proof.
  intros H. unfold to_double. cbv zeta.
  destruct (Z.abs z <? 2 ^ 53) eqn:E; [reflexivity|].
  apply Z.ltb_ge in E. lia.
Qed.

(** On Linux, for two time stamps as [gettimeofday] gives them (the
    microseconds in [0, 1000000)) that are less than [2 ^ 53 - 1000000]
    microseconds apart, [udiffTimeStamp] is the exact difference in
    microseconds, end minus start, negative when the clock has gone back:
    in that range neither the borrow of [timersub], nor the skipping of a
    zero [tv_sec], nor the sum in [double] changes the value. *)
Theorem udiffTimeStamp_linux_is_the_difference (P : Platform) (s e : timeval) :
  os P = Linux ->
  normal s -> normal e ->
  Z.abs (exactUsecs s e) < 2 ^ 53 - 1000000 ->
  PortTransmitter.udiffTimeStamp P (PortTransmitter.Timeval s) (PortTransmitter.Timeval e)
    = (tv_sec e * 1000000 + tv_usec e) - (tv_sec s * 1000000 + tv_usec s).
Proof.
  unfold normal, exactUsecs. intros Hos Hs He Hd.
  assert (H53 : 2 ^ 53 = 9007199254740992) by reflexivity.
  unfold PortTransmitter.udiffTimeStamp, to_long. rewrite Hos. cbn [long_bits].
  assert (Hw : forall z, Z.abs z < 2 ^ 53 -> wrap_signed 64 z = z).
  { intros z Hz. unfold wrap_signed. change (64 - 1) with 63.
    assert (2 ^ 63 = 9223372036854775808) by reflexivity.
    assert (2 ^ 64 = 18446744073709551616) by reflexivity.
    rewrite Z.mod_small by lia. lia. }
  destruct (tv_usec e - tv_usec s <? 0) eqn:Eu; cbn [tv_sec tv_usec];
    [apply Z.ltb_lt in Eu | apply Z.ltb_ge in Eu].
  - destruct (tv_sec e - tv_sec s - 1 =? 0) eqn:E0.
    + apply Z.eqb_eq in E0. rewrite Hw by lia. lia.
    + rewrite (to_double_small (tv_usec e - tv_usec s + 1000000)) by lia.
      rewrite (to_double_small (tv_sec e - tv_sec s - 1)) by lia.
      rewrite (to_double_small ((tv_sec e - tv_sec s - 1) * 1000000)) by lia.
      rewrite to_double_small by lia. rewrite Hw by lia. lia.
  - destruct (tv_sec e - tv_sec s =? 0) eqn:E0.
    + apply Z.eqb_eq in E0. rewrite Hw by lia. lia.
    + rewrite (to_double_small (tv_usec e - tv_usec s)) by lia.
      rewrite (to_double_small (tv_sec e - tv_sec s)) by lia.
      rewrite (to_double_small ((tv_sec e - tv_sec s) * 1000000)) by lia.
      rewrite to_double_small by lia. rewrite Hw by lia. lia.
Qed.

Lemma udiffTimeStamp_linux_is_the_difference_witness :
  PortTransmitter.udiffTimeStamp Samples.linux64
    (PortTransmitter.Timeval {| tv_sec := 10; tv_usec := 900000 |})
    (PortTransmitter.Timeval {| tv_sec := 12; tv_usec := 100000 |})
  = 1200000.
Proof.
  apply (udiffTimeStamp_linux_is_the_difference Samples.linux64
           {| tv_sec := 10; tv_usec := 900000 |}
           {| tv_sec := 12; tv_usec := 100000 |}).
  - reflexivity.
  - unfold normal; simpl; lia.
  - unfold normal; simpl; lia.
  - vm_compute. reflexivity.
Defined.

(** ** Further properties of the monitor *)

Lemma monitor_run_counts (reads : list (bool * PortMonitor.Read)) :
  forall m : PortMonitor.t,
    PortMonitor.stop_ m = false ->
    Forall knownResult (readsBeforeStop reads) ->
    exists m',
      PortMonitor.run reads m = Some m' /\
      PortMonitor.direction_ m' = PortMonitor.direction_ m /\
      PortMonitor.isDirectional_ m' = PortMonitor.isDirectional_ m /\
      PortMonitor.stats_ m'
        = match PortMonitor.direction_ m, PortMonitor.isDirectional_ m with
          | kDirectionRx, _ =>
              {| rxPkts := rxPkts (PortMonitor.stats_ m)
                           + packetsRead (readsBeforeStop reads);
                 rxBytes := rxBytes (PortMonitor.stats_ m)
                            + bytesRead (readsBeforeStop reads);
                 txPkts := txPkts (PortMonitor.stats_ m);
                 txBytes := txBytes (PortMonitor.stats_ m) |}
          | kDirectionTx, true =>
              {| rxPkts := rxPkts (PortMonitor.stats_ m);
                 rxBytes := rxBytes (PortMonitor.stats_ m);
                 txPkts := txPkts (PortMonitor.stats_ m)
                           + packetsRead (readsBeforeStop reads);
                 txBytes := txBytes (PortMonitor.stats_ m)
                            + bytesRead (readsBeforeStop reads) |}
          | kDirectionTx, false => PortMonitor.stats_ m
          end.
Proof.
  induction reads as [|[stopCalled r] rest IH]; intros m Hstop Hknown.
  - exists m. split; [reflexivity|]. split; [reflexivity|]. split; [reflexivity|].
    destruct m as [d dir s [a b c e]]. simpl.
    destruct d, dir; simpl; f_equal; lia.
  - cbn [PortMonitor.run readsBeforeStop] in *. rewrite Hstop. simpl orb.
    destruct stopCalled.
    + simpl. eexists. split; [reflexivity|]. split; [reflexivity|].
      split; [reflexivity|].
      destruct m as [d dir s [a b c e]]. simpl.
      destruct d, dir; simpl; f_equal; lia.
    + replace (PortMonitor.set_stop false m) with m
        by (destruct m; simpl in *; subst; reflexivity).
      rewrite Hstop.
      pose proof (Forall_inv Hknown) as Hr. apply Forall_inv_tail in Hknown.
      unfold PortMonitor.handleRead.
      destruct (PortMonitor.ret r =? 1) eqn:E1; cbn [mbind option_bind].
      * destruct (IH (PortMonitor.countPacket (PortMonitor.hdr r) m)) as (m' & Hrun & Hd & Hdir & Hst);
          [destruct m as [d dir s st]; simpl in *; destruct d, dir; exact Hstop
          | exact Hknown |].
        exists m'. split; [exact Hrun|].
        assert (Hd0 : PortMonitor.direction_ (PortMonitor.countPacket (PortMonitor.hdr r) m)
                      = PortMonitor.direction_ m)
          by (destruct m as [d dir s st]; simpl; destruct d, dir; reflexivity).
        assert (Hdir0 : PortMonitor.isDirectional_
                          (PortMonitor.countPacket (PortMonitor.hdr r) m)
                        = PortMonitor.isDirectional_ m)
          by (destruct m as [d dir s st]; simpl; destruct d, dir; reflexivity).
        split; [congruence|]. split; [congruence|].
        rewrite Hst, Hd0, Hdir0. simpl. rewrite E1.
        destruct m as [d dir s [a b c e]]. simpl.
        destruct d, dir; simpl; f_equal; lia.
      * assert (Hother : (PortMonitor.ret r =? 0) || (PortMonitor.ret r =? -1)
                         || (PortMonitor.ret r =? -2) = true).
        { apply Z.eqb_neq in E1. destruct Hr as [H|[H|[H|H]]];
            [contradiction | rewrite H | rewrite H | rewrite H]; reflexivity. }
        rewrite Hother. cbn [mbind option_bind].
        destruct (IH m Hstop Hknown) as (m' & Hrun & Hd & Hdir & Hst).
        exists m'. split; [exact Hrun|]. split; [exact Hd|]. split; [exact Hdir|].
        rewrite Hst. simpl. rewrite E1. reflexivity.
Qed.

(** Over a whole run of the monitor loop, whose reads before the stop all
    have a result the [switch] knows: an Rx monitor adds to [rxPkts] the
    number of packets read before [stop()] was called and to [rxBytes]
    their wire lengths; a directional Tx monitor does the same to the Tx
    counters; a non-directional Tx monitor changes nothing.  Time-outs,
    read errors and whatever comes after the stop count for nothing. *)
Theorem monitor_run_counts_until_stop (reads : list (bool * PortMonitor.Read))
    (m : PortMonitor.t) :
  PortMonitor.stop_ m = false ->
  Forall knownResult (readsBeforeStop reads) ->
  exists m',
    PortMonitor.run reads m = Some m' /\
    let seen := readsBeforeStop reads in
    let st := PortMonitor.stats_ m in
    let st' := PortMonitor.stats_ m' in
    match PortMonitor.direction_ m, PortMonitor.isDirectional_ m with
    | kDirectionRx, _ =>
        rxPkts st' = rxPkts st + packetsRead seen /\
        rxBytes st' = rxBytes st + bytesRead seen /\
        txPkts st' = txPkts st /\ txBytes st' = txBytes st
    | kDirectionTx, true =>
        txPkts st' = txPkts st + packetsRead seen /\
        txBytes st' = txBytes st + bytesRead seen /\
        rxPkts st' = rxPkts st /\ rxBytes st' = rxBytes st
    | kDirectionTx, false => st' = st
    end.
Proof.
  intros Hstop Hknown.
  destruct (monitor_run_counts reads m Hstop Hknown) as (m' & Hrun & _ & _ & Hst).
  exists m'. split; [exact Hrun|]. cbv zeta. rewrite Hst.
  destruct (PortMonitor.direction_ m), (PortMonitor.isDirectional_ m); simpl; auto.
Qed.

Lemma monitor_run_counts_until_stop_witness :
  exists m',
    PortMonitor.run [(false, Samples.packet60); (true, Samples.packet60)]
      Samples.rxMonitor = Some m' /\
    rxPkts (PortMonitor.stats_ m') = 1.
Proof.
  destruct (monitor_run_counts_until_stop
              [(false, Samples.packet60); (true, Samples.packet60)] Samples.rxMonitor)
    as (m' & Hrun & Hpk & _).
  - reflexivity.
  - repeat constructor.
  - exists m'. split; [exact Hrun | exact Hpk].
Defined.

(** ** The busy wait of the transmitter *)

Lemma normalise_divides (fuel : nat) :
  forall d : timeval,
    0 <= tv_usec d ->
    tv_usec d / 1000000 <= Z.of_nat fuel ->
    BusyWait.normalise fuel d
      = Some {| tv_sec := tv_sec d + tv_usec d / 1000000;
                tv_usec := tv_usec d mod 1000000 |}.
Proof.
  induction fuel as [|fuel IH]; intros d H0 Hfuel.
  - assert (Hlt : tv_usec d < 1000000).
    { destruct (Z_lt_ge_dec (tv_usec d) 1000000) as [|Hge]; [assumption|].
      pose proof (Z.div_le_mono 1000000 (tv_usec d) 1000000 ltac:(lia) ltac:(lia)) as H.
      rewrite Z.div_same in H by lia. simpl in Hfuel. lia. }
    simpl. destruct (1000000 <=? tv_usec d) eqn:E; [apply Z.leb_le in E; lia|].
    rewrite Z.div_small, Z.mod_small by lia. destruct d; simpl. f_equal. f_equal. lia.
  - cbn [BusyWait.normalise].
    destruct (1000000 <=? tv_usec d) eqn:E.
    + apply Z.leb_le in E.
      assert (Hq : tv_usec d / 1000000 = (tv_usec d - 1000000) / 1000000 + 1).
      { replace (tv_usec d) with ((tv_usec d - 1000000) + 1 * 1000000) at 1 by lia.
        rewrite Z.div_add by lia. reflexivity. }
      assert (Hr : tv_usec d mod 1000000 = (tv_usec d - 1000000) mod 1000000).
      { replace (tv_usec d) with ((tv_usec d - 1000000) + 1 * 1000000) at 1 by lia.
        rewrite Z.mod_add by lia. reflexivity. }
      rewrite IH; cbn [tv_sec tv_usec]; [| lia | lia].
      f_equal. f_equal; lia.
    + apply Z.leb_gt in E.
      rewrite Z.div_small, Z.mod_small by lia. destruct d; simpl. f_equal. f_equal. lia.
Qed.

Lemma timercmp_lt_inUsecs (a b : timeval) :
  normal a -> normal b ->
  BusyWait.timercmp_lt a b = (inUsecs a <? inUsecs b).
Proof.
  unfold normal, inUsecs, BusyWait.timercmp_lt. intros Ha Hb.
  destruct (tv_sec a =? tv_sec b) eqn:E.
  - apply Z.eqb_eq in E. rewrite E.
    destruct (tv_usec a <? tv_usec b) eqn:E1; symmetry;
      [apply Z.ltb_lt; apply Z.ltb_lt in E1 | apply Z.ltb_ge; apply Z.ltb_ge in E1]; lia.
  - apply Z.eqb_neq in E.
    destruct (tv_sec a <? tv_sec b) eqn:E1; symmetry;
      [apply Z.ltb_lt; apply Z.ltb_lt in E1 | apply Z.ltb_ge; apply Z.ltb_ge in E1]; lia.
Qed.

Lemma timeradd_inUsecs (a b : timeval) :
  normal a -> normal b ->
  normal (BusyWait.timeradd a b) /\
  inUsecs (BusyWait.timeradd a b) = inUsecs a + inUsecs b.
Proof.
  unfold normal, inUsecs, BusyWait.timeradd. intros Ha Hb. cbv zeta.
  destruct (1000000 <=? tv_usec a + tv_usec b) eqn:E; cbn [tv_sec tv_usec];
    [apply Z.leb_le in E | apply Z.leb_gt in E]; lia.
Qed.

Lemma spin_until (target : timeval) (early : list timeval) :
  forall (hit : timeval) (rest : list timeval),
    normal target ->
    Forall normal early -> normal hit ->
    Forall (fun t => inUsecs t < inUsecs target) early ->
    inUsecs target <= inUsecs hit ->
    BusyWait.spin target (early ++ hit :: rest) = Some rest.
Proof.
  induction early as [|t early IH]; intros hit rest Ht Hn Hh Hearly Hhit.
  - simpl. rewrite (timercmp_lt_inUsecs _ _ Hh Ht).
    destruct (inUsecs hit <? inUsecs target) eqn:E; [apply Z.ltb_lt in E; lia|].
    reflexivity.
  - simpl. rewrite (timercmp_lt_inUsecs _ _ (Forall_inv Hn) Ht).
    pose proof (Forall_inv Hearly) as Hlt. cbv beta in Hlt.
    apply Z.ltb_lt in Hlt. rewrite Hlt.
    apply IH; try assumption.
    + exact (Forall_inv_tail Hn).
    + exact (Forall_inv_tail Hearly).
Qed.

Lemma spin_still (target : timeval) (later : list timeval) :
  normal target ->
  Forall normal later ->
  Forall (fun t => inUsecs t < inUsecs target) later ->
  BusyWait.spin target later = None.
Proof.
  intros Ht. induction later as [|t later IH]; intros Hn Hl.
  - reflexivity.
  - simpl. rewrite (timercmp_lt_inUsecs _ _ (Forall_inv Hn) Ht).
    pose proof (Forall_inv Hl) as Hlt. cbv beta in Hlt.
    apply Z.ltb_lt in Hlt. rewrite Hlt.
    apply IH; [exact (Forall_inv_tail Hn) | exact (Forall_inv_tail Hl)].
Qed.

(** On Linux [udelay(usec)], for a delay below [2 ^ 63] and a clock that
    gives normal time stamps, returns at the first reading, after the one
    it starts from, that is [usec] microseconds or more after that one: the
    readings before it are used up, those after it are left; and it is
    still waiting as long as every reading is less than [usec] after the
    start.  The loop that splits the delay into seconds and microseconds
    needs one turn for each whole second of the delay. *)
Theorem udelay_returns_at_the_target (fuel : nat) (usec : Z)
    (now0 hit : timeval) (early rest later : list timeval) :
  0 <= usec < 2 ^ 63 ->
  usec / 1000000 <= Z.of_nat fuel ->
  normal now0 -> Forall normal early -> normal hit -> Forall normal later ->
  Forall (fun t => inUsecs t < inUsecs now0 + usec) early ->
  inUsecs now0 + usec <= inUsecs hit ->
  Forall (fun t => inUsecs t < inUsecs now0 + usec) later ->
  BusyWait.udelay fuel usec (now0 :: early ++ hit :: rest) = Some rest /\
  BusyWait.udelay fuel usec (now0 :: later) = None.
Proof.
  intros Hu Hfuel Hn0 Hne Hnh Hnl Hearly Hhit Hlater.
  assert (Hw : wrap_signed 64 usec = usec).
  { unfold wrap_signed. change (64 - 1) with 63.
    change (2 ^ 64) with (2 ^ 63 + 2 ^ 63).
    rewrite Z.mod_small by lia. lia. }
  unfold BusyWait.udelay. rewrite Hw.
  rewrite normalise_divides by (cbn [tv_usec]; lia).
  cbn [mbind option_bind tv_sec tv_usec].
  set (delay := {| tv_sec := 0 + usec / 1000000; tv_usec := usec mod 1000000 |}).
  assert (Hd : normal delay).
  { unfold normal, delay. cbn [tv_usec]. apply Z.mod_pos_bound. lia. }
  assert (Hdu : inUsecs delay = usec).
  { unfold inUsecs, delay. cbn [tv_sec tv_usec].
    pose proof (Z.div_mod usec 1000000 ltac:(lia)). lia. }
  destruct (timeradd_inUsecs now0 delay Hn0 Hd) as [Hnt Htu].
  rewrite Hdu in Htu.
  split.
  - apply spin_until; try assumption.
    + rewrite Htu. exact Hearly.
    + rewrite Htu. exact Hhit.
  - apply spin_still; try assumption.
    rewrite Htu. exact Hlater.
Qed.

Lemma udelay_returns_at_the_target_witness :
  BusyWait.udelay 2 2500000
    [ {| tv_sec := 10; tv_usec := 600000 |};
      {| tv_sec := 12; tv_usec := 900000 |};
      {| tv_sec := 13; tv_usec := 100000 |};
      {| tv_sec := 14; tv_usec := 0 |} ]
    = Some [ {| tv_sec := 14; tv_usec := 0 |} ] /\
  BusyWait.udelay 2 2500000
    [ {| tv_sec := 10; tv_usec := 600000 |};
      {| tv_sec := 12; tv_usec := 900000 |} ] = None.
Proof.
  apply (udelay_returns_at_the_target 2 2500000
           {| tv_sec := 10; tv_usec := 600000 |}
           {| tv_sec := 13; tv_usec := 100000 |}
           [ {| tv_sec := 12; tv_usec := 900000 |} ]
           [ {| tv_sec := 14; tv_usec := 0 |} ]
           [ {| tv_sec := 12; tv_usec := 900000 |} ]).
  - vm_compute. split; [discriminate | reflexivity].
  - vm_compute. discriminate.
  - unfold normal; simpl; lia.
  - repeat constructor; simpl; lia.
  - unfold normal; simpl; lia.
  - repeat constructor; simpl; lia.
  - repeat constructor; vm_compute; reflexivity.
  - vm_compute. discriminate.
  - repeat constructor; vm_compute; reflexivity.
Defined.

Lemma spinTicks_until (tgt : Z) (early : list Z) :
  forall (cur hit : Z) (rest : list Z),
    cur < tgt ->
    Forall (fun t => t < tgt) early ->
    tgt <= hit ->
    BusyWait.spinTicks tgt cur (early ++ hit :: rest) = Some rest.
Proof.
  induction early as [|t early IH]; intros cur hit rest Hcur Hearly Hhit.
  - simpl. apply Z.ltb_lt in Hcur. rewrite Hcur.
    destruct rest; simpl; (destruct (hit <? tgt) eqn:E; [apply Z.ltb_lt in E; lia|]);
      reflexivity.
  - cbn [app BusyWait.spinTicks]. apply Z.ltb_lt in Hcur. rewrite Hcur.
    apply IH; [exact (Forall_inv Hearly) | exact (Forall_inv_tail Hearly) | exact Hhit].
Qed.

(** On Win32 [udelay(usec)] waits whole ticks only: with the product
    [usec * gTicksFreq] in 64 bits and the target in a [LONGLONG], the
    target is the first reading of the counter plus [usec * gTicksFreq /
    1000000] rounded down.  A delay shorter than one tick returns after
    that first reading without reading the counter again; otherwise the
    call returns at the first later reading that has reached the target. *)
Theorem udelay_win32_waits_whole_ticks (P : Platform) (usec cur hit : Z)
    (early rest : list Z) :
  0 <= usec -> 0 <= gTicksFreq P ->
  usec * gTicksFreq P < 2 ^ 64 ->
  0 <= cur -> cur + usec * gTicksFreq P / 1000000 < 2 ^ 63 ->
  Forall (fun t => t < cur + usec * gTicksFreq P / 1000000) early ->
  cur + usec * gTicksFreq P / 1000000 <= hit ->
  (usec * gTicksFreq P < 1000000 ->
   BusyWait.udelayTicks P usec (cur :: rest) = Some rest) /\
  (1000000 <= usec * gTicksFreq P ->
   BusyWait.udelayTicks P usec (cur :: early ++ hit :: rest) = Some rest).
Proof.
  intros Hu Hf Hprod Hcur Htgt Hearly Hhit.
  assert (Hq : 0 <= usec * gTicksFreq P / 1000000)
    by (apply Z.div_pos; nia).
  assert (Hw : wrap_signed 64 (cur + (usec * gTicksFreq P) mod 2 ^ 64 / 1000000)
               = cur + usec * gTicksFreq P / 1000000).
  { rewrite (Z.mod_small (usec * gTicksFreq P)) by nia.
    unfold wrap_signed. change (64 - 1) with 63.
    change (2 ^ 64) with (2 ^ 63 + 2 ^ 63).
    rewrite Z.mod_small by lia. lia. }
  unfold BusyWait.udelayTicks. cbv zeta. rewrite Hw. split.
  - intros Hsmall. rewrite Z.div_small by nia.
    destruct rest; simpl; (destruct (cur <? cur + 0) eqn:E; [apply Z.ltb_lt in E; lia|]);
      reflexivity.
  - intros Hbig. apply spinTicks_until; try assumption.
    assert (1 <= usec * gTicksFreq P / 1000000).
    { pose proof (Z.div_le_mono 1000000 (usec * gTicksFreq P) 1000000
                    ltac:(lia) Hbig) as H.
      rewrite Z.div_same in H by lia. exact H. }
    lia.
Qed.

Lemma udelay_win32_waits_whole_ticks_witness :
  BusyWait.udelayTicks Samples.win32 3 [100; 101; 102; 104; 7] = Some [7].
Proof.
  apply (udelay_win32_waits_whole_ticks Samples.win32 3 100 104 [101; 102] [7]).
  - lia.
  - vm_compute. discriminate.
  - vm_compute. reflexivity.
  - lia.
  - vm_compute. reflexivity.
  - repeat constructor; vm_compute; reflexivity.
  - vm_compute. discriminate.
  - vm_compute. discriminate.
Defined.

(** ** Opening the device *)

Lemma opens_app (a b : list Pcap.Call) : opens (a ++ b) = opens a ++ opens b.
Proof. apply omap_app. Qed.

Lemma closed_app (a b : list Pcap.Call) : closed (a ++ b) = closed a ++ closed b.
Proof. apply omap_app. Qed.

Lemma wrote_app (a b : list Pcap.Call) : wrote (a ++ b) = wrote a ++ wrote b.
Proof. apply omap_app. Qed.

Lemma received_app (a b : list Pcap.Call) :
  received (a ++ b) = received a ++ received b.
Proof. apply omap_app. Qed.

Lemma open_no_close (P : Platform) (answers : list Pcap.Opened) :
  forall (isPromisc noLocalCapture : bool) h p calls,
    MonitorSetup.open_ P answers isPromisc noLocalCapture = Some (h, p, calls) ->
    opens calls = calls.
Proof.
  induction answers as [|a rest IH]; intros isPromisc noLocalCapture h p calls H.
  - discriminate.
  - cbn [MonitorSetup.open_] in H.
    assert (Hcall : forall tl,
              opens ((match os P with
                      | Win32 => Pcap.Open isPromisc noLocalCapture
                      | _ => Pcap.OpenLive isPromisc
                      end) :: tl)
              = (match os P with
                 | Win32 => Pcap.Open isPromisc noLocalCapture
                 | _ => Pcap.OpenLive isPromisc
                 end) :: opens tl)
      by (intros tl; destruct (os P); reflexivity).
    destruct (Pcap.handle a).
    + injection H as <- <- <-. rewrite Hcall. reflexivity.
    + destruct (isPromisc && Text.contains (Pcap.errbuf a) Text.promiscuous).
      * destruct (MonitorSetup.open_ P rest false noLocalCapture)
          as [[[h1 p1] c1]|] eqn:E; [|discriminate].
        cbn in H. injection H as <- <- <-. rewrite Hcall. f_equal.
        exact (IH _ _ _ _ _ E).
      * destruct (noLocalCapture && Text.contains (Pcap.errbuf a) Text.loopback).
        -- destruct (MonitorSetup.open_ P rest isPromisc false)
             as [[[h1 p1] c1]|] eqn:E; [|discriminate].
           cbn in H. injection H as <- <- <-. rewrite Hcall. f_equal.
           exact (IH _ _ _ _ _ E).
        -- injection H as <- <- <-. rewrite Hcall. reflexivity.
Qed.

Lemma open_within_budget (P : Platform) (answers : list Pcap.Opened) :
  forall (isPromisc noLocalCapture : bool),
    (1 + (if isPromisc then 1 else 0) + (if noLocalCapture then 1 else 0)
     <= length answers)%nat ->
    exists h p calls,
      MonitorSetup.open_ P answers isPromisc noLocalCapture = Some (h, p, calls) /\
      (1 <= length calls
       <= 1 + (if isPromisc then 1 else 0) + (if noLocalCapture then 1 else 0))%nat /\
      MonitorSetup.open_ P
        (take (1 + (if isPromisc then 1 else 0) + (if noLocalCapture then 1 else 0))
           answers) isPromisc noLocalCapture = Some (h, p, calls) /\
      (p = true -> isPromisc = true) /\
      (isPromisc = true -> p = false ->
       exists a, a ∈ answers /\ Pcap.handle a = None /\
                 Text.contains (Pcap.errbuf a) Text.promiscuous = true).
Proof.
  induction answers as [|a rest IH]; intros isPromisc noLocalCapture Hlen.
  - simpl in Hlen. lia.
  - cbn [MonitorSetup.open_].
    replace (take (1 + (if isPromisc then 1 else 0) + (if noLocalCapture then 1 else 0))
               (a :: rest))
      with (a :: take ((if isPromisc then 1 else 0) + (if noLocalCapture then 1 else 0))
                  rest) by reflexivity.
    cbn [MonitorSetup.open_].
    destruct (Pcap.handle a) eqn:Eh.
    + eexists _, _, _. split; [reflexivity|]. split; [simpl; lia|].
      split; [reflexivity|]. split; [tauto|]. intros -> Hp. discriminate.
    + destruct isPromisc; cbn [andb].
      * destruct (Text.contains (Pcap.errbuf a) Text.promiscuous) eqn:Ep.
        -- destruct (IH false noLocalCapture) as (h & p & calls & Ho & Hl & Ht & Hp & _).
           { simpl in Hlen |- *. destruct noLocalCapture; lia. }
           rewrite Ho. cbn [mbind option_bind fst snd].
           eexists _, _, _. split; [reflexivity|].
           split; [cbn [length]; destruct noLocalCapture; simpl in *; lia|].
           split.
           { replace (1 + (if noLocalCapture then 1 else 0))%nat
               with (1 + 0 + (if noLocalCapture then 1 else 0))%nat by lia.
             change (if false then 1%nat else 0%nat) with 0%nat in Ht.
             rewrite Ht. reflexivity. }
           split; [tauto|]. intros _ _. exists a.
           split; [apply list_elem_of_here|]. split; assumption.
        -- destruct noLocalCapture; cbn [andb].
           ++ destruct (Text.contains (Pcap.errbuf a) Text.loopback) eqn:El.
              ** destruct (IH true false) as (h & p & calls & Ho & Hl & Ht & Hp & Hx).
                 { simpl in Hlen |- *. lia. }
                 rewrite Ho. cbn [mbind option_bind fst snd].
                 eexists _, _, _. split; [reflexivity|].
                 split; [cbn [length]; simpl in *; lia|].
                 split.
                 { change (1 + 1)%nat with (1 + 1 + 0)%nat.
                   rewrite Ht. reflexivity. }
                 split; [tauto|]. intros _ Hpf.
                 destruct (Hx eq_refl Hpf) as (b & Hb & Hbh & Hbp).
                 exists b. split; [apply list_elem_of_further; exact Hb|].
                 split; assumption.
              ** eexists _, _, _. split; [reflexivity|]. split; [simpl; lia|].
                 split; [reflexivity|]. split; [tauto|]. intros _ Hp. discriminate.
           ++ eexists _, _, _. split; [reflexivity|]. split; [simpl; lia|].
              split; [reflexivity|]. split; [tauto|]. intros _ Hp. discriminate.
      * destruct noLocalCapture; cbn [andb].
        -- destruct (Text.contains (Pcap.errbuf a) Text.loopback) eqn:El.
           ++ destruct (IH false false) as (h & p & calls & Ho & Hl & Ht & Hp & _).
              { simpl in Hlen |- *. lia. }
              rewrite Ho. cbn [mbind option_bind fst snd].
              eexists _, _, _. split; [reflexivity|].
              split; [cbn [length]; simpl in *; lia|].
              split.
              { change (0 + 1)%nat with (1 + 0 + 0)%nat.
                rewrite Ht. reflexivity. }
              split; [exact Hp|]. intros Hf. discriminate.
           ++ eexists _, _, _. split; [reflexivity|]. split; [simpl; lia|].
              split; [reflexivity|]. split; [tauto|]. intros Hf. discriminate.
        -- eexists _, _, _. split; [reflexivity|]. split; [simpl; lia|].
           split; [reflexivity|]. split; [tauto|]. intros Hf. discriminate.
Qed.

(** The constructor of the monitor opens the device at most three times,
    whatever the device answers: with three answers at hand it has a
    result, the same as with more, and it makes between one and three
    opening calls.  A monitor whose handle is NULL has made no call but
    those, and is left with [isDirectional_] true; on Win32 a monitor that
    has a handle is never directional, and [pcap_setdirection] is not
    called; and [isPromisc_] is false only if an answer was NULL with
    promiscuous in its text. *)
Theorem monitor_opens_at_most_three_times (P : Platform) (d : Direction)
    (a1 a2 a3 : Pcap.Opened) (more : list Pcap.Opened) (setdirection : Z) :
  exists m calls,
    MonitorSetup.new P d (a1 :: a2 :: a3 :: more) setdirection = Some (m, calls) /\
    MonitorSetup.new P d [a1; a2; a3] setdirection = Some (m, calls) /\
    (1 <= length (opens calls) <= 3)%nat /\
    closed calls = [] /\
    (MonitorSetup.handle_ m = None ->
     MonitorSetup.isDirectional_ m = true /\ opens calls = calls) /\
    (os P = Win32 ->
     opens calls = calls /\
     (is_Some (MonitorSetup.handle_ m) -> MonitorSetup.isDirectional_ m = false)) /\
    (MonitorSetup.isPromisc_ m = false ->
     exists a, a ∈ [a1; a2; a3] /\ Pcap.handle a = None /\
               Text.contains (Pcap.errbuf a) Text.promiscuous = true).
Proof.
  destruct (open_within_budget P (a1 :: a2 :: a3 :: more) true true)
    as (h & p & calls & Ho & Hl & Ht & _ & Hx); [simpl; lia|].
  change (take (1 + 1 + 1) (a1 :: a2 :: a3 :: more)) with [a1; a2; a3] in Ht.
  pose proof (open_no_close _ _ _ _ _ _ _ Ho) as Hopens.
  assert (Hclosed : closed calls = []).
  { rewrite <- Hopens. clear. induction calls as [|c calls IH]; [reflexivity|].
    destruct c; simpl; try exact IH; reflexivity. }
  assert (Hprom : p = false ->
            exists a, a ∈ [a1; a2; a3] /\ Pcap.handle a = None /\
                      Text.contains (Pcap.errbuf a) Text.promiscuous = true).
  { intros Hp.
    destruct (open_within_budget P [a1; a2; a3] true true)
      as (h' & p' & calls' & Ho' & _ & _ & _ & Hx'); [simpl; lia|].
    rewrite Ht in Ho'. injection Ho' as <- <- <-. exact (Hx' eq_refl Hp). }
  unfold MonitorSetup.new. rewrite Ho, Ht. cbn [mbind option_bind].
  destruct h as [h|].
  - destruct (os P) eqn:Eos.
    + eexists _, _. split; [reflexivity|]. split; [reflexivity|].
      split.
      { rewrite opens_app, Hopens. simpl. rewrite app_nil_r. exact Hl. }
      split.
      { rewrite closed_app, Hclosed. reflexivity. }
      split; [discriminate|]. split; [discriminate|]. exact Hprom.
    + eexists _, _. split; [reflexivity|]. split; [reflexivity|].
      split; [rewrite Hopens; exact Hl|]. split; [exact Hclosed|].
      split; [discriminate|]. split; [|exact Hprom].
      intros _. split; [exact Hopens | reflexivity].
    + eexists _, _. split; [reflexivity|]. split; [reflexivity|].
      split.
      { rewrite opens_app, Hopens. simpl. rewrite app_nil_r. exact Hl. }
      split.
      { rewrite closed_app, Hclosed. reflexivity. }
      split; [discriminate|]. split; [discriminate|]. exact Hprom.
  - eexists _, _. split; [reflexivity|]. split; [reflexivity|].
    split; [rewrite Hopens; exact Hl|]. split; [exact Hclosed|].
    split; [intros _; split; [reflexivity | exact Hopens]|].
    split; [|exact Hprom].
    intros _. split; [exact Hopens|]. intros [x Hx']. discriminate.
Qed.

(** ** The port: its monitors, its transmitter and their statistics *)

Lemma opens_only_no_close (calls : list Pcap.Call) :
  opens calls = calls -> closed calls = [].
Proof.
  intros <-. induction calls as [|c calls IH]; [reflexivity|].
  destruct c; simpl; try exact IH; reflexivity.
Qed.

Lemma monitor_new_facts (P : Platform) (d : Direction) (answers : list Pcap.Opened)
    (setdirection : Z) (m : MonitorSetup.t) (calls : list Pcap.Call) :
  MonitorSetup.new P d answers setdirection = Some (m, calls) ->
  MonitorSetup.direction_ m = d /\ MonitorSetup.stop_ m = false /\
  closed calls = [].
Proof.
  unfold MonitorSetup.new.
  destruct (MonitorSetup.open_ P answers true true) as [[[h p] c]|] eqn:Ho;
    [|discriminate].
  pose proof (opens_only_no_close _ (open_no_close _ _ _ _ _ _ _ Ho)) as Hc.
  cbn [mbind option_bind]. destruct h as [h|].
  - destruct (os P); intros [= <- <-]; cbn; repeat split;
      try exact Hc; rewrite closed_app, Hc; reflexivity.
  - intros [= <- <-]. cbn. repeat split. exact Hc.
Qed.

Lemma init_idempotent (p p1 : PcapPort.t) :
  PcapPort.init p = Some p1 -> PcapPort.init p1 = Some p1.
Proof.
  destruct p as [ps os rx tx [ptr uis h uih] del cl].
  destruct tx as [td th tp tdir tstop].
  unfold PcapPort.init, PcapPort.useExternalStats, PcapPort.setHandle,
    PcapPort.closeHandle, PcapPort.deleteStats, PcapPort.set_transmitter,
    PcapPort.called.
  destruct tdir, uis, uih, h as [h|], ptr; cbn; intros H;
    try discriminate; injection H as <-; reflexivity.
Qed.

Lemma initTimes_first (n : nat) (p p1 : PcapPort.t) :
  PcapPort.init p = Some p1 -> PcapPort.initTimes (S n) p = Some p1.
Proof.
  intros H. cbn [PcapPort.initTimes]. rewrite H. cbn [mbind option_bind].
  pose proof (init_idempotent _ _ H) as Hi. clear H.
  induction n as [|n IH]; [reflexivity|].
  cbn [PcapPort.initTimes]. rewrite Hi. exact IH.
Qed.

(** Whether [init()] is never called, called once or called again, the
    port releases what its constructor got exactly once: over its life it
    closes the handle the transmitter opened and the handles of the two
    monitors, each once and none other, and the only object it deletes is
    the statistics object the transmitter made itself, never the member of
    the port the transmitter may have been pointed at.  After [init()] the
    transmitter holds the handle of the Rx monitor and does not own it. *)
Theorem port_releases_each_object_once (P : Platform) (stats0 fresh : PortStats)
    (rxAnswers txAnswers : list Pcap.Opened) (rxSetdirection txSetdirection : Z)
    (txOpened : Pcap.Opened) (p0 : PcapPort.t) (n : nat) :
  PcapPort.new P stats0 fresh rxAnswers txAnswers rxSetdirection txSetdirection
    txOpened = Some p0 ->
  exists p1 p2,
    PcapPort.initTimes n p0 = Some p1 /\
    PcapPort.delete p1 = Some p2 /\
    closed (PcapPort.calls p2)
      = omap id [Pcap.handle txOpened;
                 MonitorSetup.handle_ (PcapPort.monitorRx_ p0);
                 MonitorSetup.handle_ (PcapPort.monitorTx_ p0)] /\
    PcapPort.deleted p2 = [PcapPort.OwnStats] /\
    PcapPort.ownStats p2 = None /\
    ((0 < n)%nat ->
     PcapPort.handle_ (PcapPort.transmitter_ p1)
       = MonitorSetup.handle_ (PcapPort.monitorRx_ p0) /\
     PcapPort.usingInternalHandle_ (PcapPort.transmitter_ p1) = false).
Proof.
  unfold PcapPort.new.
  destruct (MonitorSetup.new P kDirectionRx rxAnswers rxSetdirection)
    as [[rx rxc]|] eqn:Erx; [|discriminate].
  destruct (MonitorSetup.new P kDirectionTx txAnswers txSetdirection)
    as [[tx txc]|] eqn:Etx; [|discriminate].
  destruct (monitor_new_facts _ _ _ _ _ _ Erx) as (_ & _ & Hrxc).
  destruct (monitor_new_facts _ _ _ _ _ _ Etx) as (_ & _ & Htxc).
  cbn [mbind option_bind fst snd]. intros [= <-].
  destruct rx as [rd rh rp rdir rstop], tx as [td th tp tdir tstop].
  destruct txOpened as [oh oe].
  destruct n as [|n].
  - destruct oh as [oh|], rh as [rh|], th as [th|];
      (eexists _, _; split; [reflexivity|]);
      unfold PcapPort.delete, PcapPort.deleteTransmitter, PcapPort.closeHandle,
        PcapPort.deleteStats, PcapPort.called, MonitorSetup.delete; cbn;
      (split; [reflexivity|]);
      (split; [cbn [PcapPort.calls]; rewrite !closed_app, Hrxc, Htxc; reflexivity|]);
      (split; [reflexivity|]); (split; [reflexivity|]); intros H; inversion H.
  - destruct (PcapPort.init
                {| PcapPort.portStats := stats0; PcapPort.ownStats := Some fresh;
                   PcapPort.monitorRx_ :=
                     {| MonitorSetup.direction_ := rd; MonitorSetup.handle_ := rh;
                        MonitorSetup.isPromisc_ := rp;
                        MonitorSetup.isDirectional_ := rdir;
                        MonitorSetup.stop_ := rstop |};
                   PcapPort.monitorTx_ :=
                     {| MonitorSetup.direction_ := td; MonitorSetup.handle_ := th;
                        MonitorSetup.isPromisc_ := tp;
                        MonitorSetup.isDirectional_ := tdir;
                        MonitorSetup.stop_ := tstop |};
                   PcapPort.transmitter_ :=
                     fst (PcapPort.newTransmitter
                            {| Pcap.handle := oh; Pcap.errbuf := oe |});
                   PcapPort.deleted := [];
                   PcapPort.calls :=
                     rxc ++ txc ++
                     snd (PcapPort.newTransmitter
                            {| Pcap.handle := oh; Pcap.errbuf := oe |}) |})
      as [p1|] eqn:Ei.
    + pose proof (initTimes_first n _ _ Ei) as Hi.
      revert Ei.
      unfold PcapPort.init, PcapPort.useExternalStats, PcapPort.setHandle,
        PcapPort.closeHandle, PcapPort.deleteStats, PcapPort.set_transmitter,
        PcapPort.called.
      destruct tdir, oh as [oh|], rh as [rh|], th as [th|]; cbn; intros [= <-];
        (eexists _, _; split; [exact Hi|]);
        unfold PcapPort.delete, PcapPort.deleteTransmitter, PcapPort.closeHandle,
          PcapPort.deleteStats, PcapPort.called, MonitorSetup.delete; cbn;
        (split; [reflexivity|]);
        (split; [cbn [PcapPort.calls]; rewrite !closed_app, Hrxc, Htxc; reflexivity|]);
        (split; [reflexivity|]); (split; [reflexivity|]);
        intros _; split; reflexivity.
    + exfalso. revert Ei.
      unfold PcapPort.init, PcapPort.useExternalStats, PcapPort.setHandle,
        PcapPort.closeHandle, PcapPort.deleteStats, PcapPort.set_transmitter,
        PcapPort.called.
      destruct tdir, oh as [oh|]; cbn; discriminate.
Qed.

Lemma port_releases_each_object_once_witness :
  exists p0 p1 p2,
    PortSamples.windows = Some p0 /\
    PcapPort.initTimes 2 p0 = Some p1 /\
    PcapPort.delete p1 = Some p2 /\
    closed (PcapPort.calls p2) = [3; 1; 2] /\
    PcapPort.deleted p2 = [PcapPort.OwnStats].
Proof.
  destruct (PcapPort.new Samples.win32 Samples.noStats Samples.noStats
              [PortSamples.opensAs 1]
              [PortSamples.refusesPromiscuous; PortSamples.opensAs 2] 0 0
              (PortSamples.opensAs 3)) as [p0|] eqn:E; [|discriminate].
  destruct (port_releases_each_object_once _ _ _ _ _ _ _ _ p0 2 E)
    as (p1 & p2 & Hi & Hd & Hc & Hdel & _).
  exists p0, p1, p2. split; [exact E|]. split; [exact Hi|]. split; [exact Hd|].
  split; [|exact Hdel].
  rewrite Hc. vm_compute in E. injection E as <-. reflexivity.
Defined.

Lemma step_counts (a : PcapPort.Activity) (p : PcapPort.t) :
  MonitorSetup.direction_ (PcapPort.monitorRx_ p) = kDirectionRx ->
  MonitorSetup.direction_ (PcapPort.monitorTx_ p) = kDirectionTx ->
  (PcapPort.stats_ (PcapPort.transmitter_ p) = PcapPort.OwnStats ->
   is_Some (PcapPort.ownStats p)) ->
  knownReads [a] ->
  exists p',
    PcapPort.step a p = Some p' /\
    PcapPort.monitorRx_ p' = PcapPort.monitorRx_ p /\
    PcapPort.monitorTx_ p' = PcapPort.monitorTx_ p /\
    PcapPort.transmitter_ p' = PcapPort.transmitter_ p /\
    (is_Some (PcapPort.ownStats p) -> is_Some (PcapPort.ownStats p')) /\
    rxPkts (PcapPort.portStats p')
      = rxPkts (PcapPort.portStats p) + packetsRead (rxReads [a]) /\
    rxBytes (PcapPort.portStats p')
      = rxBytes (PcapPort.portStats p) + bytesRead (rxReads [a]) /\
    txPkts (PcapPort.portStats p')
      = txPkts (PcapPort.portStats p)
        + (if MonitorSetup.isDirectional_ (PcapPort.monitorTx_ p)
           then packetsRead (txReads [a]) else 0)
        + match PcapPort.stats_ (PcapPort.transmitter_ p) with
          | PcapPort.PortStatsMember => sentPkts [a]
          | PcapPort.OwnStats => 0
          end /\
    txBytes (PcapPort.portStats p')
      = txBytes (PcapPort.portStats p)
        + (if MonitorSetup.isDirectional_ (PcapPort.monitorTx_ p)
           then bytesRead (txReads [a]) else 0)
        + match PcapPort.stats_ (PcapPort.transmitter_ p) with
          | PcapPort.PortStatsMember => sentBytes [a]
          | PcapPort.OwnStats => 0
          end.
Proof.
  intros Hrx Htx Hown [Hkr Hkt].
  destruct p as [ps own rx tx [ptr uis h uih] del cl].
  destruct rx as [rd rh rp rdir rstop], tx as [td th tp tdir tstop].
  cbn in Hrx, Htx, Hown. subst rd td.
  destruct a as [r|r|pkts bytes].
  - cbn in Hkr. pose proof (Forall_inv Hkr) as Hr. clear Hkr Hkt.
    cbn. unfold PortMonitor.handleRead. cbn.
    destruct (PortMonitor.ret r =? 1) eqn:E1.
    + eexists. split; [reflexivity|]. cbn. destruct ptr, tdir; repeat split; try lia; exact (fun H => H).
    + assert (Hother : (PortMonitor.ret r =? 0) || (PortMonitor.ret r =? -1)
                       || (PortMonitor.ret r =? -2) = true).
      { apply Z.eqb_neq in E1. destruct Hr as [H|[H|[H|H]]];
          [contradiction | rewrite H | rewrite H | rewrite H]; reflexivity. }
      rewrite Hother. eexists. split; [reflexivity|]. cbn.
      destruct ptr, tdir; repeat split; try lia; exact (fun H => H).
  - cbn in Hkt. pose proof (Forall_inv Hkt) as Hr. clear Hkr Hkt.
    cbn. unfold PortMonitor.handleRead. cbn.
    destruct (PortMonitor.ret r =? 1) eqn:E1.
    + eexists. split; [reflexivity|]. cbn.
      destruct ptr, tdir; cbn; repeat split; try lia; exact (fun H => H).
    + assert (Hother : (PortMonitor.ret r =? 0) || (PortMonitor.ret r =? -1)
                       || (PortMonitor.ret r =? -2) = true).
      { apply Z.eqb_neq in E1. destruct Hr as [H|[H|[H|H]]];
          [contradiction | rewrite H | rewrite H | rewrite H]; reflexivity. }
      rewrite Hother. eexists. split; [reflexivity|]. cbn.
      destruct ptr, tdir; repeat split; try lia; exact (fun H => H).
  - destruct ptr.
    + destruct (Hown eq_refl) as [st Hst]. subst own. cbn.
      eexists. split; [reflexivity|]. cbn.
      destruct tdir; repeat split; try lia; intros _; eexists; reflexivity.
    + cbn. eexists. split; [reflexivity|]. cbn.
      destruct tdir; repeat split; try lia; exact (fun H => H).
Qed.

Lemma packetsRead_app (a b : list PortMonitor.Read) :
  packetsRead (a ++ b) = packetsRead a + packetsRead b.
Proof.
  induction a as [|r a IH]; simpl; [lia|].
  destruct (PortMonitor.ret r =? 1); lia.
Qed.

Lemma bytesRead_app (a b : list PortMonitor.Read) :
  bytesRead (a ++ b) = bytesRead a + bytesRead b.
Proof.
  induction a as [|r a IH]; simpl; [lia|].
  destruct (PortMonitor.ret r =? 1); lia.
Qed.

Lemma monitor_new_win32 (P : Platform) (d : Direction) (answers : list Pcap.Opened)
    (setdirection : Z) (m : MonitorSetup.t) (calls : list Pcap.Call) :
  MonitorSetup.new P d answers setdirection = Some (m, calls) ->
  os P = Win32 ->
  is_Some (MonitorSetup.handle_ m) ->
  MonitorSetup.isDirectional_ m = false.
Proof.
  unfold MonitorSetup.new. intros H Hos.
  destruct (MonitorSetup.open_ P answers true true) as [[[h p] c]|];
    [|discriminate].
  cbn [mbind option_bind] in H. rewrite Hos in H. destruct h as [h|].
  - injection H as <- <-. reflexivity.
  - injection H as <- <-. intros [x Hx]. discriminate.
Qed.

Lemma steps_count (acts : list PcapPort.Activity) :
  forall p : PcapPort.t,
    MonitorSetup.direction_ (PcapPort.monitorRx_ p) = kDirectionRx ->
    MonitorSetup.direction_ (PcapPort.monitorTx_ p) = kDirectionTx ->
    (PcapPort.stats_ (PcapPort.transmitter_ p) = PcapPort.OwnStats ->
     is_Some (PcapPort.ownStats p)) ->
    knownReads acts ->
    exists p',
      PcapPort.steps acts p = Some p' /\
      rxPkts (PcapPort.portStats p')
        = rxPkts (PcapPort.portStats p) + packetsRead (rxReads acts) /\
      rxBytes (PcapPort.portStats p')
        = rxBytes (PcapPort.portStats p) + bytesRead (rxReads acts) /\
      txPkts (PcapPort.portStats p')
        = txPkts (PcapPort.portStats p)
          + (if MonitorSetup.isDirectional_ (PcapPort.monitorTx_ p)
             then packetsRead (txReads acts) else 0)
          + match PcapPort.stats_ (PcapPort.transmitter_ p) with
            | PcapPort.PortStatsMember => sentPkts acts
            | PcapPort.OwnStats => 0
            end /\
      txBytes (PcapPort.portStats p')
        = txBytes (PcapPort.portStats p)
          + (if MonitorSetup.isDirectional_ (PcapPort.monitorTx_ p)
             then bytesRead (txReads acts) else 0)
          + match PcapPort.stats_ (PcapPort.transmitter_ p) with
            | PcapPort.PortStatsMember => sentBytes acts
            | PcapPort.OwnStats => 0
            end.
Proof.
  induction acts as [|a rest IH]; intros p Hrx Htx Hown [Hkr Hkt].
  - exists p. split; [reflexivity|]. cbn.
    destruct (MonitorSetup.isDirectional_ (PcapPort.monitorTx_ p)),
      (PcapPort.stats_ (PcapPort.transmitter_ p)); repeat split; lia.
  - assert (Hka : knownReads [a]).
    { split.
      - destruct a; cbn in *; try constructor; [exact (Forall_inv Hkr) | constructor].
      - destruct a; cbn in *; try constructor; [exact (Forall_inv Hkt) | constructor]. }
    assert (Hkrest : knownReads rest).
    { split.
      - destruct a; cbn in *; try exact Hkr. exact (Forall_inv_tail Hkr).
      - destruct a; cbn in *; try exact Hkt. exact (Forall_inv_tail Hkt). }
    destruct (step_counts a p Hrx Htx Hown Hka)
      as (p1 & Hs & Hmrx & Hmtx & Htr & Hown1 & H1 & H2 & H3 & H4).
    destruct (IH p1) as (p' & Hss & G1 & G2 & G3 & G4).
    { rewrite Hmrx. exact Hrx. }
    { rewrite Hmtx. exact Htx. }
    { rewrite Htr. intros Hp. apply Hown1, Hown, Hp. }
    { exact Hkrest. }
    exists p'. cbn [PcapPort.steps]. rewrite Hs. cbn [mbind option_bind].
    split; [exact Hss|].
    rewrite Hmtx, Htr in G3, G4.
    change (a :: rest) with ([a] ++ rest).
    unfold rxReads, txReads in *. rewrite !omap_app.
    rewrite !packetsRead_app, !bytesRead_app.
    assert (Hsp : sentPkts ([a] ++ rest) = sentPkts [a] + sentPkts rest)
      by (unfold sentPkts; destruct a; cbn [fold_right app]; lia).
    assert (Hsb : sentBytes ([a] ++ rest) = sentBytes [a] + sentBytes rest)
      by (unfold sentBytes; destruct a; cbn [fold_right app]; lia).
    rewrite Hsp, Hsb.
    destruct (MonitorSetup.isDirectional_ (PcapPort.monitorTx_ p)),
      (PcapPort.stats_ (PcapPort.transmitter_ p)); repeat split; lia.
Qed.

(** Once [init()] has run, each counter of the port has one writer, for
    any interleaving of what the two monitors read and what the
    transmitter sends: the Rx counters grow by the packets the Rx monitor
    reads; the Tx counters grow by the packets the Tx monitor reads when
    that monitor is directional, and otherwise by what the transmitter
    counts, in which case the transmitter writes into the member of the
    port.  Nothing is counted twice and the transmitter never writes
    through a pointer to its deleted object.  On Win32 a Tx monitor that
    has a handle is never the writer. *)
Theorem port_counters_have_one_writer (P : Platform) (stats0 fresh : PortStats)
    (rxAnswers txAnswers : list Pcap.Opened) (rxSetdirection txSetdirection : Z)
    (txOpened : Pcap.Opened) (p0 : PcapPort.t) (acts : list PcapPort.Activity) :
  PcapPort.new P stats0 fresh rxAnswers txAnswers rxSetdirection txSetdirection
    txOpened = Some p0 ->
  knownReads acts ->
  exists p p',
    PcapPort.init p0 = Some p /\
    PcapPort.steps acts p = Some p' /\
    rxPkts (PcapPort.portStats p') = rxPkts stats0 + packetsRead (rxReads acts) /\
    rxBytes (PcapPort.portStats p') = rxBytes stats0 + bytesRead (rxReads acts) /\
    txPkts (PcapPort.portStats p')
      = txPkts stats0
        + (if MonitorSetup.isDirectional_ (PcapPort.monitorTx_ p0)
           then packetsRead (txReads acts) else sentPkts acts) /\
    txBytes (PcapPort.portStats p')
      = txBytes stats0
        + (if MonitorSetup.isDirectional_ (PcapPort.monitorTx_ p0)
           then bytesRead (txReads acts) else sentBytes acts) /\
    (os P = Win32 ->
     is_Some (MonitorSetup.handle_ (PcapPort.monitorTx_ p0)) ->
     MonitorSetup.isDirectional_ (PcapPort.monitorTx_ p0) = false).
Proof.
  unfold PcapPort.new. intros Hnew Hknown.
  destruct (MonitorSetup.new P kDirectionRx rxAnswers rxSetdirection)
    as [[rx rxc]|] eqn:Erx; [|discriminate].
  destruct (MonitorSetup.new P kDirectionTx txAnswers txSetdirection)
    as [[tx txc]|] eqn:Etx; [|discriminate].
  destruct (monitor_new_facts _ _ _ _ _ _ Erx) as (Hrd & _ & _).
  destruct (monitor_new_facts _ _ _ _ _ _ Etx) as (Htd & _ & _).
  pose proof (monitor_new_win32 _ _ _ _ _ _ Etx) as Hwin.
  cbn [mbind option_bind fst snd] in Hnew. injection Hnew as <-.
  destruct rx as [rd rh rp rdir rstop], tx as [td th tp tdir tstop].
  destruct txOpened as [oh oe]. cbn in Hrd, Htd, Hwin. subst rd td.
  unfold PcapPort.init, PcapPort.useExternalStats, PcapPort.setHandle,
    PcapPort.closeHandle, PcapPort.deleteStats, PcapPort.set_transmitter,
    PcapPort.called.
  destruct tdir, oh as [oh|]; cbn;
    (eexists; 
     match goal with
     | |- exists p', Some ?q = Some _ /\ _ =>
         destruct (steps_count acts q) as (p' & Hs & G1 & G2 & G3 & G4);
         [reflexivity | reflexivity
          | cbn; first [discriminate | intros _; eexists; reflexivity]
          | exact Hknown |];
         exists p'; split; [reflexivity|]; split; [exact Hs|];
         cbn in G1, G2, G3, G4;
         repeat split; try lia; try exact Hwin
     end).
Qed.

Lemma port_counters_have_one_writer_witness :
  exists p0 p p',
    PortSamples.windows = Some p0 /\
    PcapPort.init p0 = Some p /\
    PcapPort.steps [PcapPort.TxRead Samples.packet60; PcapPort.Sent 2 128;
                    PcapPort.RxRead Samples.packet60] p = Some p' /\
    txPkts (PcapPort.portStats p') = 2 /\
    rxPkts (PcapPort.portStats p') = 1.
Proof.
  destruct (PcapPort.new Samples.win32 Samples.noStats Samples.noStats
              [PortSamples.opensAs 1]
              [PortSamples.refusesPromiscuous; PortSamples.opensAs 2] 0 0
              (PortSamples.opensAs 3)) as [p0|] eqn:E; [|discriminate].
  destruct (port_counters_have_one_writer _ _ _ _ _ _ _ _ p0
              [PcapPort.TxRead Samples.packet60; PcapPort.Sent 2 128;
               PcapPort.RxRead Samples.packet60] E)
    as (p & p' & Hi & Hs & Hrx & _ & Htx & _).
  - split; repeat constructor.
  - exists p0, p, p'. split; [exact E|]. split; [exact Hi|]. split; [exact Hs|].
    vm_compute in E. injection E as <-. split.
    + rewrite Htx. reflexivity.
    + rewrite Hrx. reflexivity.
Defined.

(** ** The capturer *)

Lemma loopCalls_app (a b : list Pcap.Call) :
  loopCalls (a ++ b) = (loopCalls a + loopCalls b)%nat.
Proof. unfold loopCalls. rewrite omap_app, length_app. reflexivity. Qed.

Lemma capturer_open_calls (answers : list Pcap.Opened) :
  forall (flag : bool) h calls,
    PortCapturer.open_ answers flag = Some (h, calls) ->
    closed calls = [] /\ wrote calls = [] /\ loopCalls calls = 0%nat /\
    received calls = [] /\
    (1 <= length calls <= 2)%nat /\ opens calls = calls.
Proof.
  assert (Hlast : forall answers h calls,
            PortCapturer.open_ answers false = Some (h, calls) ->
            calls = [Pcap.OpenLive false]).
  { intros [|a rest] h calls H; [discriminate|]. cbn in H.
    destruct (Pcap.handle a); injection H as <- <-; reflexivity. }
  intros flag h calls H. destruct answers as [|a rest]; [discriminate|].
  cbn [PortCapturer.open_] in H. destruct (Pcap.handle a).
  - injection H as <- <-. cbn. repeat split; lia.
  - destruct (flag && Text.contains (Pcap.errbuf a) Text.promiscuous).
    + destruct (PortCapturer.open_ rest false) as [[h1 c1]|] eqn:E; [|discriminate].
      cbn in H. injection H as <- <-. rewrite (Hlast _ _ _ E).
      cbn. repeat split; lia.
    + injection H as <- <-. cbn. repeat split; lia.
Qed.

Lemma capturer_loop_left (h : Pcap.Handle) (dump : option Z) (n : nat)
    (r : Z) (more : list Z) :
  r = -1 \/ r = -2 ->
  PortCapturer.loop h dump (repeat 0 n ++ r :: more)
    = Some (repeat (Pcap.Loop h dump) (S n), true).
Proof.
  intros Hr. induction n as [|n IH].
  - cbn. destruct Hr as [-> | ->]; reflexivity.
  - cbn [repeat app PortCapturer.loop]. change (0 =? 0) with true. cbv iota.
    rewrite IH. reflexivity.
Qed.

Lemma capturer_loop_turning (h : Pcap.Handle) (dump : option Z) (n : nat) :
  PortCapturer.loop h dump (repeat 0 n) = None.
Proof.
  induction n as [|n IH]; [reflexivity|].
  cbn [repeat PortCapturer.loop]. change (0 =? 0) with true. cbv iota.
  rewrite IH. reflexivity.
Qed.

Lemma loopCalls_repeat (h : Pcap.Handle) (dump : option Z) (n : nat) :
  loopCalls (repeat (Pcap.Loop h dump) n) = n /\
  closed (repeat (Pcap.Loop h dump) n) = [] /\
  wrote (repeat (Pcap.Loop h dump) n) = [].
Proof.
  induction n as [|n (IH1 & IH2 & IH3)]; [repeat split|].
  unfold loopCalls in *. cbn. rewrite IH1. repeat split; assumption.
Qed.

(** A capture that starts ends by giving back what it took.  With the
    capture file open, the device opened (at the first attempt or, after a
    refusal of promiscuous mode, at the second), and the filter compiled
    and set: as long as [pcap_loop] answers 0 the worker stays in its loop;
    at the first answer -1 or -2 it returns, having closed the dump and
    then the handle, once each, with [handle_] and [dumpHandle_] NULL,
    [stop_] false and [state_] kFinished, written after kRunning; it has
    called [pcap_loop] once for each answer up to that one. *)
Theorem capturer_run_closes_what_it_opens (o : PortCapturer.Oracle)
    (c : PortCapturer.t) (h : Pcap.Handle) (tried : list Pcap.Call)
    (n : nat) (r : Z) (more : list Z) :
  PortCapturer.capFileIsOpen c = true ->
  PortCapturer.open_ (PortCapturer.opened o) true = Some (Some h, tried) ->
  PortCapturer.compile o <> -1 ->
  PortCapturer.setfilter o <> -1 ->
  PortCapturer.loops o = repeat 0 n ++ r :: more ->
  r = -1 \/ r = -2 ->
  (exists c' calls,
     PortCapturer.run o c = Some (PortCapturer.Returned c' calls) /\
     PortCapturer.state_ c' = kFinished /\
     PortCapturer.handle_ c' = None /\
     PortCapturer.dumpHandle_ c' = None /\
     PortCapturer.stop_ c' = false /\
     closed calls = [h] /\
     wrote calls = [kRunning; kFinished] /\
     loopCalls calls = S n /\
     exists before,
       calls = before ++ [Pcap.DumpClose (PortCapturer.dumpOpen o);
                          Pcap.Close h; Pcap.Wrote kFinished]) /\
  PortCapturer.run
    {| PortCapturer.lookupnet := PortCapturer.lookupnet o;
       PortCapturer.lookupnetMask := PortCapturer.lookupnetMask o;
       PortCapturer.opened := PortCapturer.opened o;
       PortCapturer.compile := PortCapturer.compile o;
       PortCapturer.setfilter := PortCapturer.setfilter o;
       PortCapturer.dumpOpen := PortCapturer.dumpOpen o;
       PortCapturer.loops := repeat 0 n |} c = None.
Proof.
  intros Hfile Hopen Hcomp Hset Hloops Hr.
  destruct (capturer_open_calls _ _ _ _ Hopen) as (Hc & Hw & Hl & _ & _ & _).
  destruct (loopCalls_repeat h (PortCapturer.dumpOpen o) (S n)) as (L1 & L2 & L3).
  apply Z.eqb_neq in Hcomp, Hset.
  split.
  - unfold PortCapturer.run. rewrite Hfile. cbn [negb].
    rewrite Hopen. cbn [mbind option_bind fst snd].
    rewrite Hcomp, Hset, Hloops, (capturer_loop_left _ _ _ _ _ Hr).
    unfold PortCapturer.exit_.
    eexists _, _. split; [reflexivity|]. cbn [PortCapturer.state_
      PortCapturer.handle_ PortCapturer.dumpHandle_ PortCapturer.stop_].
    split; [reflexivity|]. split; [reflexivity|]. split; [reflexivity|].
    split; [reflexivity|].
    split; [rewrite !closed_app, Hc, L2; reflexivity|].
    split; [rewrite !wrote_app, Hw, L3; reflexivity|].
    split.
    + rewrite !loopCalls_app, Hl, L1. cbn. lia.
    + exists (tried
              ++ [Pcap.Compile h (if PortCapturer.lookupnet o =? -1 then 0
                                  else to_u32 (PortCapturer.lookupnetMask o));
                  Pcap.SetFilter h; Pcap.FreeCode; Pcap.SetNonBlock h;
                  Pcap.DumpOpen h; Pcap.Wrote kRunning]
              ++ repeat (Pcap.Loop h (PortCapturer.dumpOpen o)) (S n)).
      rewrite <- !app_assoc. reflexivity.
  - unfold PortCapturer.run. rewrite Hfile. cbn [negb PortCapturer.opened
      PortCapturer.compile PortCapturer.setfilter PortCapturer.loops
      PortCapturer.lookupnet PortCapturer.lookupnetMask PortCapturer.dumpOpen].
    rewrite Hopen. cbn [mbind option_bind fst snd].
    rewrite Hcomp, Hset, capturer_loop_turning. reflexivity.
Qed.

Lemma capturer_run_closes_what_it_opens_witness :
  exists c' calls,
    PortCapturer.run WorkerSamples.capture WorkerSamples.capturer
      = Some (PortCapturer.Returned c' calls) /\
    closed calls = [5] /\ loopCalls calls = 3%nat.
Proof.
  destruct (capturer_run_closes_what_it_opens WorkerSamples.capture
              WorkerSamples.capturer 5
              [Pcap.OpenLive true; Pcap.OpenLive false] 2 (-2) [0])
    as [(c' & calls & Hrun & _ & _ & _ & _ & Hc & _ & Hl & _) _].
  - reflexivity.
  - reflexivity.
  - vm_compute. discriminate.
  - vm_compute. discriminate.
  - reflexivity.
  - right. reflexivity.
  - exists c', calls. split; [exact Hrun|]. split; [exact Hc | exact Hl].
Defined.

(** A filter that is refused leaves the handle open.  With the capture
    file open and the device opened, if [pcap_compile] or [pcap_setfilter]
    answers -1 the worker returns at once with [state_] kFinished, without
    having been kRunning and without a call of [pcap_loop]; the handle it
    opened is not closed and stays in [handle_]; what [pcap_loop] would
    answer plays no part. *)
Theorem capturer_keeps_handle_on_filter_error (o : PortCapturer.Oracle)
    (c : PortCapturer.t) (h : Pcap.Handle) (tried : list Pcap.Call) :
  PortCapturer.capFileIsOpen c = true ->
  PortCapturer.open_ (PortCapturer.opened o) true = Some (Some h, tried) ->
  PortCapturer.compile o = -1 \/ PortCapturer.setfilter o = -1 ->
  exists c' calls,
    PortCapturer.run o c = Some (PortCapturer.Returned c' calls) /\
    PortCapturer.state_ c' = kFinished /\
    PortCapturer.handle_ c' = Some h /\
    PortCapturer.dumpHandle_ c' = PortCapturer.dumpHandle_ c /\
    closed calls = [] /\
    wrote calls = [kFinished] /\
    loopCalls calls = 0%nat.
Proof.
  intros Hfile Hopen Hbad.
  destruct (capturer_open_calls _ _ _ _ Hopen) as (Hc & Hw & Hl & _ & _ & _).
  unfold PortCapturer.run. rewrite Hfile. cbn [negb].
  rewrite Hopen. cbn [mbind option_bind fst snd].
  unfold PortCapturer.exit_.
  destruct (PortCapturer.compile o =? -1) eqn:Ec.
  - eexists _, _. split; [reflexivity|]. cbn [PortCapturer.state_
      PortCapturer.handle_ PortCapturer.dumpHandle_].
    split; [reflexivity|]. split; [reflexivity|]. split; [reflexivity|].
    split; [rewrite !closed_app, Hc; reflexivity|].
    split; [rewrite !wrote_app, Hw; reflexivity|].
    rewrite !loopCalls_app, Hl. reflexivity.
  - destruct Hbad as [Hbad|Hbad]; [apply Z.eqb_neq in Ec; contradiction|].
    rewrite Hbad. change (-1 =? -1) with true. cbv iota.
    eexists _, _. split; [reflexivity|]. cbn [PortCapturer.state_
      PortCapturer.handle_ PortCapturer.dumpHandle_].
    split; [reflexivity|]. split; [reflexivity|]. split; [reflexivity|].
    split; [rewrite !closed_app, Hc; reflexivity|].
    split; [rewrite !wrote_app, Hw; reflexivity|].
    rewrite !loopCalls_app, Hl. reflexivity.
Qed.

Lemma capturer_keeps_handle_on_filter_error_witness :
  exists c' calls,
    PortCapturer.run WorkerSamples.badFilter WorkerSamples.capturer
      = Some (PortCapturer.Returned c' calls) /\
    PortCapturer.handle_ c' = Some 5 /\ closed calls = [].
Proof.
  destruct (capturer_keeps_handle_on_filter_error WorkerSamples.badFilter
              WorkerSamples.capturer 5 [Pcap.OpenLive true])
    as (c' & calls & Hrun & _ & Hh & _ & Hc & _).
  - reflexivity.
  - reflexivity.
  - left. reflexivity.
  - exists c', calls. split; [exact Hrun|]. split; [exact Hh | exact Hc].
Defined.

(** ** The transceiver of the device emulation *)

Lemma transceiver_open_calls (P : Platform) (answers : list Pcap.Opened) :
  forall (noCaptureLocal : bool) h calls,
    EmulationTransceiver.open_ P answers noCaptureLocal = Some (h, calls) ->
    closed calls = [] /\ wrote calls = [] /\ received calls = [].
Proof.
  induction answers as [|a rest IH]; intros f h calls H; [discriminate|].
  cbn [EmulationTransceiver.open_] in H.
  assert (Hone : forall tl,
            closed ((match os P with
                     | Win32 => Pcap.Open true f
                     | _ => Pcap.OpenLive true
                     end) :: tl) = closed tl /\
            wrote ((match os P with
                    | Win32 => Pcap.Open true f
                    | _ => Pcap.OpenLive true
                    end) :: tl) = wrote tl /\
            received ((match os P with
                       | Win32 => Pcap.Open true f
                       | _ => Pcap.OpenLive true
                       end) :: tl) = received tl)
    by (intros tl; destruct (os P); repeat split).
  destruct (Pcap.handle a).
  - injection H as <- <-. exact (Hone []).
  - destruct (Text.contains (Pcap.errbuf a) Text.promiscuous).
    + injection H as <- <-. exact (Hone []).
    + destruct (os P) eqn:Eos; try (injection H as <- <-; repeat split).
      destruct (f && Text.contains (Pcap.errbuf a) Text.loopback).
      * destruct (EmulationTransceiver.open_ P rest false) as [[h1 c1]|] eqn:E;
          [|discriminate].
        cbn in H. injection H as <- <-.
        destruct (IH _ _ _ E) as (I1 & I2 & I3). repeat split; assumption.
      * injection H as <- <-. repeat split.
Qed.

Lemma packetsOf_cons (t : EmulationTransceiver.Turn)
    (l : list EmulationTransceiver.Turn) :
  packetsOf (t :: l)
  = (if PortMonitor.ret (EmulationTransceiver.read t) =? 1
     then [(EmulationTransceiver.data t,
            caplen (PortMonitor.hdr (EmulationTransceiver.read t)))]
     else []) ++ packetsOf l.
Proof.
  unfold packetsOf. cbn [omap list_omap].
  destruct (PortMonitor.ret (EmulationTransceiver.read t) =? 1); reflexivity.
Qed.

Lemma transceiver_loop_until_stop (h : Pcap.Handle)
    (early : list EmulationTransceiver.Turn) :
  forall (last : EmulationTransceiver.Turn) (rest : list EmulationTransceiver.Turn),
    Forall (fun t => EmulationTransceiver.stopCalled t = false) early ->
    EmulationTransceiver.stopCalled last = true ->
    Forall goodTurn (early ++ [last]) ->
    exists calls,
      EmulationTransceiver.loop h false (early ++ last :: rest) = Some (calls, true) /\
      received calls = packetsOf (early ++ [last]) /\
      closed calls = [] /\ wrote calls = [] /\
      length (omap (fun c => match c with Pcap.NextEx _ => Some tt | _ => None end)
                calls) = S (length early).
Proof.
  assert (Hgood : forall t, goodTurn t ->
            (PortMonitor.ret (EmulationTransceiver.read t) =? 1)
            || (PortMonitor.ret (EmulationTransceiver.read t) =? 0)
            || (PortMonitor.ret (EmulationTransceiver.read t) =? -1) = true).
  { intros t [H|[H|H]]; rewrite H; reflexivity. }
  induction early as [|t early IH]; intros last rest Hearly Hlast Hall.
  - cbn [app EmulationTransceiver.loop].
    rewrite (Hgood last (Forall_inv Hall)), Hlast. cbn [orb].
    eexists. split; [reflexivity|]. rewrite packetsOf_cons.
    destruct (PortMonitor.ret (EmulationTransceiver.read last) =? 1);
      repeat split.
  - cbn [app EmulationTransceiver.loop].
    rewrite (Hgood t (Forall_inv Hall)), (Forall_inv Hearly). cbn [orb].
    destruct (IH last rest (Forall_inv_tail Hearly) Hlast (Forall_inv_tail Hall))
      as (calls & Hl & Hr & Hc & Hw & Hn).
    rewrite Hl. cbn [mbind option_bind fst snd].
    eexists. split; [reflexivity|].
    rewrite received_app, closed_app, wrote_app, omap_app, length_app, Hr, Hc, Hw, Hn.
    cbn [app]. rewrite (packetsOf_cons t).
    destruct (PortMonitor.ret (EmulationTransceiver.read t) =? 1);
      repeat split.
Qed.

(** Once the device is open the transceiver runs, whether or not the
    filter was accepted, and hands every packet it reads to the device
    manager, in the order read and with [caplen] as its length, up to and
    including the one read in the turn in which the stop is seen: [stop_]
    is tested after the packet of the turn is handled.  It then closes the
    handle, once, and returns with [handle_] NULL, [stop_] false and
    [state_] kFinished written after kRunning; it calls [pcap_next_ex]
    once a turn. *)
Theorem transceiver_delivers_until_stop (P : Platform)
    (o : EmulationTransceiver.Oracle) (x : EmulationTransceiver.t)
    (h : Pcap.Handle) (tried : list Pcap.Call)
    (early rest : list EmulationTransceiver.Turn)
    (last : EmulationTransceiver.Turn) :
  EmulationTransceiver.open_ P (EmulationTransceiver.opened o)
    (match os P with Win32 => true | _ => false end) = Some (Some h, tried) ->
  EmulationTransceiver.stop_ x = false ->
  EmulationTransceiver.turns o = early ++ last :: rest ->
  Forall (fun t => EmulationTransceiver.stopCalled t = false) early ->
  EmulationTransceiver.stopCalled last = true ->
  Forall goodTurn (early ++ [last]) ->
  exists x' calls,
    EmulationTransceiver.run P o x = Some (EmulationTransceiver.Returned x' calls) /\
    received calls = packetsOf (early ++ [last]) /\
    closed calls = [h] /\
    wrote calls = [kRunning; kFinished] /\
    EmulationTransceiver.state_ x' = kFinished /\
    EmulationTransceiver.handle_ x' = None /\
    EmulationTransceiver.stop_ x' = false /\
    length (omap (fun c => match c with Pcap.NextEx _ => Some tt | _ => None end)
              calls) = S (length early).
Proof.
  intros Hopen Hstop Hturns Hearly Hlast Hgood.
  destruct (transceiver_open_calls _ _ _ _ _ Hopen) as (Hc & Hw & Hr).
  destruct (transceiver_loop_until_stop h early last rest Hearly Hlast Hgood)
    as (reads & Hl & Lr & Lc & Lw & Ln).
  assert (Hn : omap (fun c => match c with Pcap.NextEx _ => Some tt | _ => None end)
                 tried = []).
  { clear - Hopen. revert Hopen.
    generalize (match os P with Win32 => true | _ => false end).
    generalize (Some h). revert tried.
    induction (EmulationTransceiver.opened o) as [|a l IH]; intros tried oh f H;
      [discriminate|].
    cbn [EmulationTransceiver.open_] in H.
    destruct (Pcap.handle a);
      [injection H as <- <-; destruct (os P); reflexivity|].
    destruct (Text.contains (Pcap.errbuf a) Text.promiscuous);
      [injection H as <- <-; destruct (os P); reflexivity|].
    destruct (os P) eqn:Eos; try (injection H as <- <-; reflexivity).
    destruct (f && Text.contains (Pcap.errbuf a) Text.loopback);
      [|injection H as <- <-; reflexivity].
    destruct (EmulationTransceiver.open_ P l false) as [[h1 c1]|] eqn:E;
      [|discriminate].
    cbn in H. injection H as <- <-. cbn. exact (IH _ _ _ E). }
  unfold EmulationTransceiver.run. rewrite Hopen. cbn [mbind option_bind fst snd].
  rewrite Hstop, Hturns, Hl. unfold EmulationTransceiver.exit_.
  eexists _, _. split; [reflexivity|].
  cbn [EmulationTransceiver.state_ EmulationTransceiver.handle_
       EmulationTransceiver.stop_].
  rewrite !received_app, !closed_app, !wrote_app, !omap_app, !length_app.
  rewrite Hr, Hc, Hw, Hn, Lr, Lc, Lw, Ln.
  destruct (EmulationTransceiver.compile o <? 0); cbn;
    rewrite ?app_nil_r; repeat split; lia.
Qed.

Lemma transceiver_delivers_until_stop_witness :
  exists x' calls,
    EmulationTransceiver.run Samples.linux64 WorkerSamples.emulation
      WorkerSamples.transceiver = Some (EmulationTransceiver.Returned x' calls) /\
    received calls = [(Samples.payload, 4); (Samples.payload, 4)] /\
    closed calls = [6].
Proof.
  destruct (transceiver_delivers_until_stop Samples.linux64 WorkerSamples.emulation
              WorkerSamples.transceiver 6 [Pcap.OpenLive true]
              [WorkerSamples.turn 1 false; WorkerSamples.turn 0 false]
              [WorkerSamples.turn 1 false] (WorkerSamples.turn 1 true))
    as (x' & calls & Hrun & Hr & Hc & _).
  - reflexivity.
  - reflexivity.
  - reflexivity.
  - repeat constructor.
  - reflexivity.
  - cbn [app]. repeat (apply List.Forall_cons; [vm_compute; auto|]).
    apply List.Forall_nil.
  - exists x', calls. split; [exact Hrun|]. split; [exact Hr | exact Hc].
Defined.

(** The transceiver does not fall back to non-promiscuous mode.  When the
    device refuses the first opening with promiscuous in its text, on any
    build, the worker makes no second attempt: it returns after that one
    call with [state_] kFinished, never having been kRunning, with no
    handle, nothing read and nothing handed to the device manager. *)
Theorem transceiver_needs_promiscuous_mode (P : Platform)
    (o : EmulationTransceiver.Oracle) (x : EmulationTransceiver.t)
    (a : Pcap.Opened) (rest : list Pcap.Opened) :
  EmulationTransceiver.opened o = a :: rest ->
  Pcap.handle a = None ->
  Text.contains (Pcap.errbuf a) Text.promiscuous = true ->
  exists x' call,
    EmulationTransceiver.run P o x
      = Some (EmulationTransceiver.Returned x' [call; Pcap.Wrote kFinished]) /\
    opens [call] = [call] /\
    EmulationTransceiver.state_ x' = kFinished /\
    EmulationTransceiver.handle_ x' = None /\
    EmulationTransceiver.stop_ x' = EmulationTransceiver.stop_ x.
Proof.
  intros Ho Hh Hp. unfold EmulationTransceiver.run. rewrite Ho.
  cbn [EmulationTransceiver.open_]. rewrite Hh, Hp.
  cbn [mbind option_bind fst snd]. unfold EmulationTransceiver.exit_.
  eexists _, _. split; [reflexivity|].
  destruct (os P); repeat split.
Qed.

Lemma transceiver_needs_promiscuous_mode_witness :
  exists x' call,
    EmulationTransceiver.run Samples.win32 WorkerSamples.noPromiscuous
      WorkerSamples.transceiver
      = Some (EmulationTransceiver.Returned x' [call; Pcap.Wrote kFinished]) /\
    EmulationTransceiver.handle_ x' = None.
Proof.
  destruct (transceiver_needs_promiscuous_mode Samples.win32
              WorkerSamples.noPromiscuous WorkerSamples.transceiver
              PortSamples.refusesPromiscuous [PortSamples.opensAs 6])
    as (x' & call & Hrun & _ & _ & Hh & _).
  - reflexivity.
  - reflexivity.
  - reflexivity.
  - exists x', call. split; [exact Hrun | exact Hh].
Defined.

(** ** [loopNextPacketSet] *)

(** C6, as stated, fails in three places.  With [size = 2] and a delay of
    one second the delay stored on the new sequence is 1000000
    microseconds, not [size*1e6*delaySec + delayNsec/1000 = 2000000].  The
    group opened with [size = 2] is closed by the second packet appended,
    both packets in the one sequence the group started with: [size] counts
    packets, not sequences.  And [repeats = 2^32 + 3] is kept as 3, the
    count being an [int]. *)
Lemma loopNextPacketSet_differs_from_claim :
  (exists s,
     last (PortTransmitter.packetSequenceList_
             (PortTransmitter.loopNextPacketSet Samples.linux64 2 3 1 0 Samples.idle))
       = Some s /\
     PacketSequence.usecDelay_ s = 1000000 /\
     PacketSequence.usecDelay_ s <> 2 * 1000000 * 1 + 0 ÷ 1000) /\
  (exists tx' s,
     appendAll Samples.linux64
       [(0, 0, Samples.payload, 4); (0, 50000, Samples.payload, 4)]
       (PortTransmitter.loopNextPacketSet Samples.linux64 2 3 1 0 Samples.idle)
       = Some tx' /\
     PortTransmitter.packetSequenceList_ tx' = [s] /\
     PacketSequence.packets_ s = 2 /\
     PacketSequence.repeatSize_ s = 1 /\
     PortTransmitter.repeatSize_ tx' = 0 /\
     PortTransmitter.currentPacketSequence_ tx' = None) /\
  (exists s,
     last (PortTransmitter.packetSequenceList_
             (PortTransmitter.loopNextPacketSet Samples.linux64 2 (2 ^ 32 + 3) 1 0
                Samples.idle))
       = Some s /\
     PacketSequence.repeatCount_ s = 3 /\
     PacketSequence.repeatCount_ s <> 2 ^ 32 + 3).
Proof.
  split; [|split].
  - eexists. split; [reflexivity|]. split; [reflexivity|]. discriminate.
  - eexists _, _. split; [vm_compute; reflexivity|]. repeat split.
  - eexists. split; [reflexivity|]. split; [reflexivity|]. discriminate.
Qed.

(** C6, amended: [loopNextPacketSet(size, repeats, delaySec, delayNsec)]
    appends a fresh empty sequence to the list, makes it current and the
    start of a repeat group made of the next [size] packets ([size] is
    kept as the number of packets after which [appendToPacketList] closes
    the group, not as a number of sequences), to be repeated [repeats]
    times when [repeats] fits an [int] (the count is kept in an [int]:
    [repeats] cut to 32 bits), with the inter-iteration delay stored on it
    in microseconds equal to [delaySec*1e6 + delayNsec/1000] (the size is
    not a factor; the division truncates; the value is exact when it fits
    a [long]), and resets the group packet counter to zero. *)
Theorem loopNextPacketSet_opens_group (P : Platform) (tx : PortTransmitter.t)
    (size repeats delaySec delayNsec : Z) :
  fits_long P (delaySec * 1000000) ->
  fits_long P (delaySec * 1000000 + delayNsec ÷ 1000) ->
  let tx' := PortTransmitter.loopNextPacketSet P size repeats delaySec delayNsec tx in
  let n := length (PortTransmitter.packetSequenceList_ tx) in
  exists s,
    PortTransmitter.packetSequenceList_ tx'
      = PortTransmitter.packetSequenceList_ tx ++ [s] /\
    PacketSequence.sendQueue_ s = [] /\
    PacketSequence.packets_ s = 0 /\
    PacketSequence.bytes_ s = 0 /\
    PacketSequence.lastPacket_ s = None /\
    PortTransmitter.currentPacketSequence_ tx' = Some n /\
    PortTransmitter.packetSequenceList_ tx' !! n = Some s /\
    PortTransmitter.repeatSequenceStart_ tx' = Z.of_nat n /\
    (0 <= size -> PortTransmitter.repeatSize_ tx' = size) /\
    (size < 0 -> PortTransmitter.repeatSize_ tx' = size + 2 ^ 64) /\
    PacketSequence.repeatCount_ s = to_int repeats /\
    (- 2 ^ 31 <= repeats < 2 ^ 31 -> PacketSequence.repeatCount_ s = repeats) /\
    PacketSequence.usecDelay_ s = delaySec * 1000000 + delayNsec ÷ 1000 /\
    PortTransmitter.packetCount_ tx' = 0 /\
    (0 < size ->
     forall (pkts : list PacketArgs) (tx'' : PortTransmitter.t),
       Z.of_nat (length pkts) <= size ->
       appendAll P pkts tx' = Some tx'' ->
       PortTransmitter.packetCount_ tx'' = Z.of_nat (length pkts) /\
       (Z.of_nat (length pkts) < size ->
        PortTransmitter.repeatSize_ tx'' = size /\
        is_Some (PortTransmitter.currentPacketSequence_ tx'')) /\
       (Z.of_nat (length pkts) = size ->
        PortTransmitter.repeatSize_ tx'' = 0 /\
        PortTransmitter.currentPacketSequence_ tx'' = None)).
Proof.
  intros H1 H2 tx' n.
  assert (Hsize : 0 <= size -> PortTransmitter.repeatSize_ tx' = size).
  { intros Hs. subst tx'. simpl. unfold to_quint64.
    destruct (size <? 0) eqn:E; [apply Z.ltb_lt in E; lia | reflexivity]. }
  exists (PacketSequence.set_usecDelay
            (to_long P (to_long P (delaySec * usecPerSec) + delayNsec ÷ 1000))
            (PacketSequence.set_repeatCount (to_int repeats) PacketSequence.new)).
  split; [reflexivity|]. split; [reflexivity|]. split; [reflexivity|].
  split; [reflexivity|]. split; [reflexivity|]. split; [reflexivity|].
  split.
  { subst tx' n. simpl. rewrite lookup_app_r by lia.
    rewrite Nat.sub_diag. reflexivity. }
  split; [reflexivity|]. split; [exact Hsize|].
  split.
  { intros Hs. subst tx'. simpl. unfold to_quint64.
    destruct (size <? 0) eqn:E; [reflexivity | apply Z.ltb_ge in E; lia]. }
  split; [reflexivity|].
  split.
  { intros Hr. simpl. apply to_int_fits. exact Hr. }
  split.
  { simpl. unfold usecPerSec. rewrite (to_long_fits P _ H1).
    apply to_long_fits, H2. }
  split; [reflexivity|].
  intros Hpos pkts tx'' Hlen Hall.
  destruct (appendAll_in_group P size pkts tx' tx'')
    as (G1 & _ & G3 & G4).
  - apply wellFormed_loopNextPacketSet.
  - apply Hsize. lia.
  - subst tx'. simpl. eauto.
  - subst tx'. simpl. lia.
  - subst tx'. simpl. lia.
  - exact Hall.
  - assert (Hpc : PortTransmitter.packetCount_ tx'' = Z.of_nat (length pkts))
      by (rewrite G1; subst tx'; simpl; lia).
    split; [exact Hpc|].
    split; [intros H; apply G3; lia | intros H; apply G4; lia].
Qed.

Lemma loopNextPacketSet_opens_group_witness :
  exists s,
    PortTransmitter.packetSequenceList_
      (PortTransmitter.loopNextPacketSet Samples.linux64 2 3 1 2500 Samples.used)
      = PortTransmitter.packetSequenceList_ Samples.used ++ [s] /\
    PacketSequence.usecDelay_ s = 1000002 /\
    PacketSequence.repeatCount_ s = 3 /\
    PortTransmitter.repeatSize_
      (PortTransmitter.loopNextPacketSet Samples.linux64 2 3 1 2500 Samples.used) = 2.
Proof.
  destruct (loopNextPacketSet_opens_group Samples.linux64 Samples.used 2 3 1 2500)
    as (s & Hl & _ & _ & _ & _ & _ & _ & _ & Hs & _ & _ & Hc & Hd & _).
  - vm_compute. split; [discriminate | reflexivity].
  - vm_compute. split; [discriminate | reflexivity].
  - exists s. split; [exact Hl|]. split; [exact Hd|]. split.
    + apply Hc. vm_compute. split; [discriminate | reflexivity].
    + apply Hs. lia.
Defined.

(** *** The replay of a repeat group *)









(** ** [appendToPacketList]: a full sequence that holds no packet *)

(** C4: the code misses a case.  [appendToPacketList] reads the last
    packet of the current sequence whenever that sequence cannot take the
    record, without testing that there is one.  Right after
    [loopNextPacketSet] the current sequence is empty: a record that
    [hasFreeSpace(2*sizeof(pcap_pkthdr)+length)] refuses on an empty
    sequence then makes the call read through the NULL [lastPacket_], and
    the call has no result: no sequence is ended, none is allocated, the
    record is not written.  The same record is taken by the other path:
    with no current sequence and no group open, a new sequence is
    appended, made current, and the record is written into it when it
    fits a sequence of its own. *)
Theorem appendToPacketList_reads_missing_last_packet (P : Platform)
    (tx : PortTransmitter.t) (size repeats delaySec delayNsec sec nsec : Z)
    (packet : list Byte.byte) (length_ : Z) :
  sendQueueMaxLen P < 2 * sizeof_pcap_pkthdr P + length_ ->
  PortTransmitter.currentPacketSequence_ tx = None ->
  PortTransmitter.repeatSize_ tx = 0 ->
  PortTransmitter.appendToPacketList P sec nsec packet length_
    (PortTransmitter.loopNextPacketSet P size repeats delaySec delayNsec tx) = None /\
  exists tx' op s,
    PortTransmitter.appendToPacketList P sec nsec packet length_ tx = Some (tx', op) /\
    PortTransmitter.packetSequenceList_ tx'
      = PortTransmitter.packetSequenceList_ tx ++ [s] /\
    PortTransmitter.currentPacketSequence_ tx'
      = Some (length (PortTransmitter.packetSequenceList_ tx)) /\
    (sizeof_pcap_pkthdr P + to_u32 length_ <= sendQueueMaxLen P ->
     op = true /\
     PacketSequence.sendQueue_ s
       = [(PortTransmitter.makeHeader sec nsec length_, packet)]).
Proof.
  intros Hfull Hcur Hsize. split.
  - unfold PortTransmitter.appendToPacketList,
      PortTransmitter.appendToPacketList_newSequence.
    cbn [PortTransmitter.loopNextPacketSet PortTransmitter.currentPacketSequence_
         PortTransmitter.packetSequenceList_].
    rewrite lookup_snoc. cbn [mbind option_bind].
    unfold PacketSequence.hasFreeSpace. cbn [PacketSequence.sendQueue_
      PacketSequence.set_usecDelay PacketSequence.set_repeatCount PacketSequence.new
      PacketSequence.queueLen fold_right].
    replace (0 + (2 * sizeof_pcap_pkthdr P + length_) <=? sendQueueMaxLen P)
      with false by (symmetry; apply Z.leb_gt; lia).
    reflexivity.
  - unfold PortTransmitter.appendToPacketList,
      PortTransmitter.appendToPacketList_newSequence.
    rewrite Hcur. cbn [mbind option_bind].
    rewrite write_after_appendNewSequence. cbn [mbind option_bind fst snd].
    unfold PortTransmitter.appendToPacketList_closeGroup.
    cbn [PortTransmitter.set_list PortTransmitter.appendNewSequence
         PortTransmitter.repeatSize_ PortTransmitter.packetCount_
         PortTransmitter.packetSequenceList_ PortTransmitter.currentPacketSequence_].
    rewrite Hsize. change (0 <? 0) with false. cbn [andb].
    eexists _, _, _. split; [reflexivity|].
    cbn [PortTransmitter.packetSequenceList_ PortTransmitter.currentPacketSequence_].
    split; [reflexivity|]. split; [reflexivity|].
    intros Hfits. unfold PacketSequence.appendPacket, PacketSequence.hasFreeSpace.
    cbn [PacketSequence.sendQueue_ PacketSequence.new PacketSequence.queueLen
         fold_right PortTransmitter.makeHeader caplen].
    replace (0 + (sizeof_pcap_pkthdr P + to_u32 length_) <=? sendQueueMaxLen P)
      with true by (symmetry; apply Z.leb_le; lia).
    split; reflexivity.
Qed.

Lemma appendToPacketList_reads_missing_last_packet_witness :
  PortTransmitter.appendToPacketList Samples.linux64 0 0 LargeSamples.record 1048540
    (PortTransmitter.loopNextPacketSet Samples.linux64 1 1 0 0 Samples.idle) = None /\
  exists tx' op s,
    PortTransmitter.appendToPacketList Samples.linux64 0 0 LargeSamples.record 1048540
      Samples.idle = Some (tx', op) /\
    PortTransmitter.packetSequenceList_ tx' = [s] /\
    op = true.
Proof.
  destruct (appendToPacketList_reads_missing_last_packet Samples.linux64 Samples.idle
              1 1 0 0 0 0 LargeSamples.record 1048540)
    as (Hnone & tx' & op & s & Hsome & Hl & _ & Hop).
  - vm_compute. reflexivity.
  - reflexivity.
  - reflexivity.
  - split; [exact Hnone|]. exists tx', op, s. split; [exact Hsome|].
    split; [exact Hl|]. apply Hop. vm_compute. discriminate.
Defined.
